(** * Kara: undo/redo commands, bubble registry, annotation sidecars,
      page navigation and cropping

    A shallow embedding of the parts of the Kara annotation tool that keep
    rectangle geometry, list entries and on-disk annotations in step:

    - [src/app/main_window.py]: the bubble registry of [MainWindow]
      ([_add_bubble], [_remove_bubble], [_remove_bubble_for],
      [clear_bubbles]) and page navigation ([load_page], [prev_page],
      [next_page]);
    - [src/commands/*.py] (same text as [kara/core/history.py]): the three
      [QUndoCommand] subclasses;
    - [src/controllers/annotation.py]: [AnnotationController];
    - [src/gui/viewer/panel_viewer.py]: [PanelViewer.crop_region];
    - [kara/core/detection.py], [kara/core/ocr.py]: the ready gate.

    Python objects that are compared with [is] (rectangle items, list items,
    command objects) are references into explicit heaps.  Python exceptions
    are values of [exn]; a method is a state transformer that returns either
    a value or the exception it raised, together with the state reached at
    that point, so that a partially executed method leaves its partial
    effects behind exactly as in Python. *)

From Stdlib Require Import ZArith QArith List String Ascii Lia.
From stdpp Require Import base tactics option list functions gmap sets
  strings pretty sorting lexico.

Local Close Scope Q_scope.
Local Open Scope string_scope.
Local Open Scope list_scope.
Local Open Scope Z_scope.

(* ====================================================================== *)
(** ** Python values and control flow *)
(* ====================================================================== *)

Module Py.

(** The exception classes that the modelled code can raise. *)
Inductive exn :=
| IndexError
| AttributeError (attr : string)
| RuntimeError (msg : string)
| ValueError (msg : string)
| TypeError
| KeyError (key : string)
| FileNotFoundError
| FileExistsError
| IsADirectoryError
| NotADirectoryError
| UnicodeDecodeError
| JSONDecodeError
  (* an exception raised inside a third-party library call (ultralytics,
     manga_ocr, PIL), whatever its class *)
| LibraryError (what : string).

Inductive result (A : Type) :=
| Ok (a : A)
| Raise (e : exn).
Global Arguments Ok {A} a.
Global Arguments Raise {A} e.

(** State transformers with exceptions: the state that is returned next to
    [Raise e] is the state at the moment [e] was raised. *)
Definition M (S A : Type) : Type := S → result A * S.

Definition ret {S A} (a : A) : M S A := λ s, (Ok a, s).
Definition bind {S A B} (m : M S A) (k : A → M S B) : M S B := λ s,
  match m s with
  | (Ok a, s') => k a s'
  | (Raise e, s') => (Raise e, s')
  end.
Definition get {S} : M S S := λ s, (Ok s, s).
Definition modify {S} (f : S → S) : M S unit := λ s, (Ok tt, f s).
Definition raise {S A} (e : exn) : M S A := λ s, (Raise e, s).
Definition lift {S A} (r : result A) : M S A := λ s, (r, s).

(** [try: m except Exception: h] *)
Definition try_except {S A} (m : M S A) (h : exn → M S A) : M S A := λ s,
  match m s with
  | (Ok a, s') => (Ok a, s')
  | (Raise e, s') => h e s'
  end.

Global Instance M_ret {S} : MRet (M S) := @ret S.
Global Instance M_bind {S} : MBind (M S) := λ A B k m, bind m k.

(** Exceptions alone, for code that touches no state. *)
Global Instance result_ret : MRet result := @Ok.
Global Instance result_bind : MBind result := λ A B k r,
  match r with
  | Ok a => k a
  | Raise e => Raise e
  end.

(** [l[i]] and [l.pop(i)]: a negative index counts from the end, an index
    outside [-len, len) raises [IndexError]. *)
Definition norm_index (n : nat) (i : Z) : option nat :=
  if decide (0 ≤ i < Z.of_nat n) then Some (Z.to_nat i)
  else if decide (- Z.of_nat n ≤ i < 0) then Some (Z.to_nat (Z.of_nat n + i))
  else None.

Definition getitem {A} (l : list A) (i : Z) : result A :=
  match norm_index (length l) i ≫= (l !!.) with
  | Some a => Ok a
  | None => Raise IndexError
  end.

Definition pop {A} (l : list A) (i : Z) : result (A * list A) :=
  match norm_index (length l) i with
  | Some k =>
      match l !! k with
      | Some a => Ok (a, delete k l)
      | None => Raise IndexError
      end
  | None => Raise IndexError
  end.

(** [l.insert(i, a)] for [i >= 0]: positions past the end append. *)
Definition insert_at {A} (i : nat) (a : A) (l : list A) : list A :=
  take i l ++ a :: drop i l.

(** [l.index(a)]: the first position of [a], [ValueError] when absent. *)
Definition index `{EqDecision A} (l : list A) (a : A) : result Z :=
  match list_find (a =.) l with
  | Some (i, _) => Ok (Z.of_nat i)
  | None => Raise (ValueError "is not in list")
  end.

(** [l[a:b]] (step 1) on a sequence of length [n]: both bounds are shifted by
    [n] when negative and then clamped to [0, n]. *)
Definition slice_bound (n : nat) (i : Z) : nat :=
  if decide (i < 0) then Z.to_nat (Z.max 0 (i + Z.of_nat n))
  else Z.to_nat (Z.min i (Z.of_nat n)).

Definition slice {A} (l : list A) (a b : Z) : list A :=
  let lo := slice_bound (length l) a in
  let hi := slice_bound (length l) b in
  take (hi - lo)%nat (drop lo l).

(** [a < b] on finite floats. *)
Global Instance Qlt_dec (a b : Q) : Decision (a < b)%Q.
Proof. unfold Qlt. apply _. Defined.

(** [int(q)] for a finite float: truncation towards zero. *)
Definition int_of_float (q : Q) : Z := Z.quot (Qnum q) (Z.pos (Qden q)).

End Py.
Export Py.

(* ====================================================================== *)
(** ** The Qt objects the registry is built from *)
(* ====================================================================== *)

(** References to [MoveableRectItem] and [QListWidgetItem] objects.  Two
    references are the same object ([is]) iff they are equal. *)
Abbreviation rect_ref := nat (only parsing).
Abbreviation item_ref := nat (only parsing).

Module Qt.

(** Coordinates are finite floats; they are kept as exact rationals. *)
Record QPointF := { px : Q; py : Q }.
Record QRectF := { x : Q; y : Q; width : Q; height : Q }.

(** [QListWidgetItem]: the text, the [ItemIsUserCheckable] flag, the check
    state and the [Qt.UserRole] data. *)
Record QListWidgetItem := {
  text : string;
  checkable : bool;
  checked : bool;
  user_data : option rect_ref;
}.

(** [QListWidget] without sorting: the rows in order, and the items that the
    widget has destroyed.  An item is in at most one row:
    [QListWidget::insertItem] (and [addItem], which inserts at [count()])
    does nothing for an item whose [view] is set, that is, one that already
    belongs to a list widget; [takeItem] resets [view].  [clear()] deletes
    the items it drops, after which their Python wrappers are invalid:
    passing one to a Qt method raises [RuntimeError]. *)
Record QListWidget := {
  rows : list item_ref;
  deleted : gset item_ref;
}.

Definition deleted_msg : string :=
  "Internal C++ object (PySide6.QtWidgets.QListWidgetItem) already deleted.".

Definition empty : QListWidget := {| rows := []; deleted := ∅ |}.

Definition count (lw : QListWidget) : nat := length (rows lw).

Definition item (lw : QListWidget) (row : nat) : option item_ref :=
  rows lw !! row.

(** [row(item)]: the row of the item, -1 when it is not in the widget. *)
Definition row (lw : QListWidget) (li : item_ref) : result Z :=
  if decide (li ∈ deleted lw) then Raise (RuntimeError deleted_msg)
  else match list_find (li =.) (rows lw) with
       | Some (i, _) => Ok (Z.of_nat i)
       | None => Ok (-1)
       end.

(** [insertItem(row, item)] for [row >= 0]: the row is clamped to
    [count()]. *)
Definition insertItem (lw : QListWidget) (row : nat) (li : item_ref)
  : result QListWidget :=
  if decide (li ∈ deleted lw) then Raise (RuntimeError deleted_msg)
  else if decide (li ∈ rows lw) then Ok lw
  else Ok {| rows := insert_at row li (rows lw); deleted := deleted lw |}.

Definition addItem (lw : QListWidget) (li : item_ref) : result QListWidget :=
  insertItem lw (count lw) li.

(** [takeItem(row)]: removes the row and hands the item back to the caller;
    a row outside the widget is ignored. *)
Definition takeItem (lw : QListWidget) (row : Z) : QListWidget :=
  if decide (0 ≤ row < Z.of_nat (count lw))
  then {| rows := delete (Z.to_nat row) (rows lw); deleted := deleted lw |}
  else lw.

Definition clear (lw : QListWidget) : QListWidget :=
  {| rows := []; deleted := deleted lw ∪ list_to_set (rows lw) |}.

End Qt.

(** [MoveableRectItem] ([src/gui/item/moveable_rect_item.py]): the attributes
    that the registry and the commands read or write. *)
Module MoveableRectItem.

Record t := {
  kind : string;
  _done : bool;
  pos : Qt.QPointF;
  rect : Qt.QRectF;
  zValue : Q;
}.

Definition setPos (p : Qt.QPointF) (it : t) : t :=
  {| kind := kind it; _done := _done it; pos := p; rect := rect it;
     zValue := zValue it |}.

Definition setRect (x y w h : Q) (it : t) : t :=
  {| kind := kind it; _done := _done it; pos := pos it;
     rect := {| Qt.x := x; Qt.y := y; Qt.width := w; Qt.height := h |};
     zValue := zValue it |}.

Definition setZValue (z : Q) (it : t) : t :=
  {| kind := kind it; _done := _done it; pos := pos it; rect := rect it;
     zValue := z |}.

End MoveableRectItem.

(** What a caller can hand to [_add_bubble]: a [MoveableRectItem] or any
    other object. *)
Inductive pyobj :=
| RectItem (r : rect_ref)
| OtherObject.

(* ====================================================================== *)
(** ** [MainWindow]: the bubble registry
       ([src/app/main_window.py], region "Helpers & Internals") *)
(* ====================================================================== *)

Module MainWindow.

(** The registry state of the window.  [rect_items] and [list_items] are the
    heaps behind the references; [next_item] is the reference that the next
    [QListWidgetItem(...)] constructor call returns.  The signal connections
    made by [_add_bubble], the [_last_geom] dictionary (read only when a
    later move builds its command), the status bar texts and the window
    title carry no state that the registry operations read back and are left
    out. *)
Record t := {
  _rect_list : list (item_ref * rect_ref);
  bubble_list : Qt.QListWidget;
  scene_items : gset rect_ref;          (* viewer.scene() *)
  _cur_rects : list rect_ref;           (* viewer._cur_rects *)
  progress : nat * nat;                 (* maximum, value *)
  _dirty : bool;
  rect_items : rect_ref → MoveableRectItem.t;
  list_items : item_ref → Qt.QListWidgetItem;
  next_item : item_ref;
}.

(** The state after [__init__]: no bubbles, progress bar at 0 of 1. *)
Definition init (heap : rect_ref → MoveableRectItem.t) : t :=
  {| _rect_list := []; bubble_list := Qt.empty; scene_items := ∅;
     _cur_rects := []; progress := (1, 0)%nat; _dirty := false;
     rect_items := heap;
     list_items := λ _, {| Qt.text := ""; Qt.checkable := false;
                           Qt.checked := false; Qt.user_data := None |};
     next_item := 0%nat |}.

Definition set_rect_list (l : list (item_ref * rect_ref)) (s : t) : t :=
  {| _rect_list := l; bubble_list := bubble_list s;
     scene_items := scene_items s; _cur_rects := _cur_rects s;
     progress := progress s; _dirty := _dirty s; rect_items := rect_items s;
     list_items := list_items s; next_item := next_item s |}.

Definition set_bubble_list (lw : Qt.QListWidget) (s : t) : t :=
  {| _rect_list := _rect_list s; bubble_list := lw;
     scene_items := scene_items s; _cur_rects := _cur_rects s;
     progress := progress s; _dirty := _dirty s; rect_items := rect_items s;
     list_items := list_items s; next_item := next_item s |}.

Definition set_scene_items (sc : gset rect_ref) (s : t) : t :=
  {| _rect_list := _rect_list s; bubble_list := bubble_list s;
     scene_items := sc; _cur_rects := _cur_rects s;
     progress := progress s; _dirty := _dirty s; rect_items := rect_items s;
     list_items := list_items s; next_item := next_item s |}.

Definition set_cur_rects (l : list rect_ref) (s : t) : t :=
  {| _rect_list := _rect_list s; bubble_list := bubble_list s;
     scene_items := scene_items s; _cur_rects := l;
     progress := progress s; _dirty := _dirty s; rect_items := rect_items s;
     list_items := list_items s; next_item := next_item s |}.

Definition set_progress (p : nat * nat) (s : t) : t :=
  {| _rect_list := _rect_list s; bubble_list := bubble_list s;
     scene_items := scene_items s; _cur_rects := _cur_rects s;
     progress := p; _dirty := _dirty s; rect_items := rect_items s;
     list_items := list_items s; next_item := next_item s |}.

Definition set_dirty (b : bool) (s : t) : t :=
  {| _rect_list := _rect_list s; bubble_list := bubble_list s;
     scene_items := scene_items s; _cur_rects := _cur_rects s;
     progress := progress s; _dirty := b; rect_items := rect_items s;
     list_items := list_items s; next_item := next_item s |}.

(** Update of one rectangle item in place. *)
Definition update_rect (r : rect_ref)
    (f : MoveableRectItem.t → MoveableRectItem.t) (s : t) : t :=
  {| _rect_list := _rect_list s; bubble_list := bubble_list s;
     scene_items := scene_items s; _cur_rects := _cur_rects s;
     progress := progress s; _dirty := _dirty s;
     rect_items := <[r := f (rect_items s r)]> (rect_items s);
     list_items := list_items s; next_item := next_item s |}.

(** [QListWidgetItem(text)] followed by the three setters of [_add_bubble]:
    allocates the next list item. *)
Definition new_list_item (it : Qt.QListWidgetItem) : M t item_ref := λ s,
  (Ok (next_item s),
   {| _rect_list := _rect_list s; bubble_list := bubble_list s;
      scene_items := scene_items s; _cur_rects := _cur_rects s;
      progress := progress s; _dirty := _dirty s; rect_items := rect_items s;
      list_items := <[next_item s := it]> (list_items s);
      next_item := S (next_item s) |}).

(** [viewer.scene().addItem] / [removeItem]: adding an item that is in the
    scene, or removing one that is not, only logs a warning. *)
Definition scene_addItem (r : rect_ref) : M t unit :=
  modify (λ s, set_scene_items (scene_items s ∪ {[ r ]}) s).

Definition scene_removeItem (r : rect_ref) : M t unit :=
  modify (λ s, set_scene_items (scene_items s ∖ {[ r ]}) s).

(** [PanelViewer.add_graphics_item] *)
Definition viewer_add_graphics_item (r : rect_ref) : M t unit :=
  modify (update_rect r (MoveableRectItem.setZValue (1 # 1)));;
  scene_addItem r;;
  modify (λ s, set_cur_rects (_cur_rects s ++ [r]) s).

Definition _update_progress : M t unit :=
  modify (λ s,
    let total := length (_rect_list s) in
    let done_ := length (filter
      (λ p, MoveableRectItem._done (rect_items s p.2) = true)
      (_rect_list s)) in
    set_progress (if decide (total = 0%nat) then (1, 0)%nat
                  else (total, done_)) s).

Definition _mark_dirty : M t unit :=
  modify (λ s, if _dirty s then s else set_dirty true s).

Definition _add_bubble (rect_item : pyobj) : M t (option item_ref) :=
  match rect_item with
  | OtherObject => mret None
  | RectItem r =>
      s ← get;
      (* if this rect is registered already we ball *)
      if decide (r ∈ (_rect_list s).*2) then mret None else
      let kind := MoveableRectItem.kind (rect_items s r) in
      let existing := filter
        (λ p, MoveableRectItem.kind (rect_items s p.2) = kind)
        (_rect_list s) in
      let label := if decide (kind = "bubble") then "Bubble"
                   else "Free Text" in
      let text := label +:+ " " +:+ pretty (length existing + 1)%nat in
      li ← new_list_item
        {| Qt.text := text; Qt.checkable := true;
           Qt.checked := MoveableRectItem._done (rect_items s r);
           Qt.user_data := Some r |};
      modify (λ s, set_rect_list (_rect_list s ++ [(li, r)]) s);;
      s ← get;
      lw ← lift (Qt.addItem (bubble_list s) li);
      modify (set_bubble_list lw);;
      _update_progress;;
      mret (Some li)
  end.

Definition _remove_bubble (idx : Z) : M t unit :=
  s ← get;
  '(li, rect, rest) ← lift (pop (_rect_list s) idx);
  modify (set_rect_list rest);;
  scene_removeItem rect;;
  row ← lift (Qt.row (bubble_list s) li);
  modify (set_bubble_list (Qt.takeItem (bubble_list s) row));;
  _update_progress.

Definition _remove_bubble_for (rect : rect_ref) : M t unit :=
  s ← get;
  (* find the index and remove it *)
  match list_find (λ p, p.2 = rect) (_rect_list s) with
  | Some (idx, _) => _remove_bubble (Z.of_nat idx)
  | None => mret tt
  end.

Definition clear_bubbles : M t unit :=
  modify (λ s,
    set_rect_list []
      (set_bubble_list (Qt.clear (bubble_list s))
        (set_scene_items (scene_items s ∖ list_to_set (_rect_list s).*2) s))).

(** [_on_programmatic_move] selects the list entry of the moved item and
    refreshes the property panel while the panel's signals are blocked.  The
    selection and the panel widgets are not part of [t], and no geometry is
    written back. *)
Definition _on_programmatic_move (item : rect_ref) (scene_rect : Qt.QRectF)
  : M t unit := mret tt.

End MainWindow.

(* ====================================================================== *)
(** ** The undo commands ([src/commands/], [kara/core/history.py]) *)
(* ====================================================================== *)

(** A method of a command runs on the pair of the command object [self] and
    the window it points to ([self.main], [self._main_win], [self._main]).
    The reference to the window itself is that pairing and is not a field. *)
Definition self {C} : M (C * MainWindow.t) C := λ s, (Ok s.1, s).
Definition on_main {C A} (m : M MainWindow.t A) : M (C * MainWindow.t) A :=
  λ s, let (r, w) := m s.2 in (r, (s.1, w)).
Definition set_self {C} (f : C → C) : M (C * MainWindow.t) unit :=
  modify (λ s, (f s.1, s.2)).

Module AddBubbleCommand.

Record t := {
  rect : rect_ref;
  list_item : option item_ref;
  description : string;            (* QUndoCommand.text() *)
}.

Definition init (rect_item : rect_ref) : t :=
  {| rect := rect_item; list_item := None; description := "Add Bubble" |}.

Definition redo : M (t * MainWindow.t) unit :=
  c ← self;
  (* 1) put the rect back into the scene *)
  on_main (MainWindow.scene_addItem (rect c));;
  (* 2) add the side-panel entry (and remember it) *)
  li ← on_main (MainWindow._add_bubble (RectItem (rect c)));
  set_self (λ c, {| rect := rect c; list_item := li;
                    description := description c |}).

Definition undo : M (t * MainWindow.t) unit :=
  c ← self;
  on_main (MainWindow._remove_bubble_for (rect c)).

End AddBubbleCommand.

Module RemoveBubbleCommand.

(** [_row] and [_listitem] are assigned only when the constructor finds a
    row whose [Qt.UserRole] data is the rectangle; otherwise the attributes
    do not exist. *)
Record t := {
  _rect_item : rect_ref;
  _row : option nat;
  _listitem : option item_ref;
  description : string;
}.

Definition init (main_win : MainWindow.t) (rect_item : rect_ref)
    (description : string) : t :=
  let found := list_find
    (λ li, Qt.user_data (MainWindow.list_items main_win li) = Some rect_item)
    (Qt.rows (MainWindow.bubble_list main_win)) in
  {| _rect_item := rect_item; _row := fst <$> found;
     _listitem := snd <$> found; description := description |}.

Definition redo : M (t * MainWindow.t) unit :=
  c ← self;
  on_main (MainWindow._remove_bubble_for (_rect_item c)).

Definition undo : M (t * MainWindow.t) unit :=
  c ← self;
  match _row c, _listitem c with
  | Some row, Some li =>
      on_main (modify (λ w, MainWindow.set_rect_list
        (insert_at row (li, _rect_item c) (MainWindow._rect_list w)) w));;
      w ← on_main get;
      lw ← lift (Qt.insertItem (MainWindow.bubble_list w) row li);
      on_main (modify (MainWindow.set_bubble_list lw));;
      on_main (MainWindow.viewer_add_graphics_item (_rect_item c));;
      on_main MainWindow._mark_dirty
  | None, _ => raise (AttributeError "_row")
  | Some _, None => raise (AttributeError "_listitem")
  end.

End RemoveBubbleCommand.

Module MoveBubbleCommand.

Record t := {
  _item : rect_ref;
  (* scene-coordinates at undo/redo time *)
  _old : Qt.QRectF;
  _new : Qt.QRectF;
  description : string;
}.

Definition init (rect_item : rect_ref) (old_geom new_geom : Qt.QRectF) : t :=
  {| _item := rect_item; _old := old_geom; _new := new_geom;
     description := "Move/Resize Bubble" |}.

Definition _apply (scene_rect : Qt.QRectF) : M (t * MainWindow.t) unit :=
  c ← self;
  on_main (modify (MainWindow.update_rect (_item c)
    (MoveableRectItem.setPos
       {| Qt.px := Qt.x scene_rect; Qt.py := Qt.y scene_rect |})));;
  on_main (modify (MainWindow.update_rect (_item c)
    (MoveableRectItem.setRect 0 0 (Qt.width scene_rect)
       (Qt.height scene_rect))));;
  (* make sure the list->properties panel stays in sync *)
  on_main (MainWindow._on_programmatic_move (_item c) scene_rect).

Definition undo : M (t * MainWindow.t) unit :=
  c ← self; _apply (_old c).

Definition redo : M (t * MainWindow.t) unit :=
  c ← self; _apply (_new c).

End MoveBubbleCommand.

(** Any of the three commands, and a call of one of its two methods. *)
Inductive Command :=
| CAdd (c : AddBubbleCommand.t)
| CRemove (c : RemoveBubbleCommand.t)
| CMove (c : MoveBubbleCommand.t).

Inductive method := Redo | Undo.

(** Runs a method of a command object and returns the object as the call
    leaves it. *)
Definition run_on {C} (m : M (C * MainWindow.t) unit) (c : C)
    (w : MainWindow.t) : result unit * (C * MainWindow.t) := m (c, w).

Definition call (m : method) (c : Command) (w : MainWindow.t)
  : result unit * (Command * MainWindow.t) :=
  match c, m with
  | CAdd a, Redo =>
      let '(r, (a', w')) := run_on AddBubbleCommand.redo a w in
      (r, (CAdd a', w'))
  | CAdd a, Undo =>
      let '(r, (a', w')) := run_on AddBubbleCommand.undo a w in
      (r, (CAdd a', w'))
  | CRemove a, Redo =>
      let '(r, (a', w')) := run_on RemoveBubbleCommand.redo a w in
      (r, (CRemove a', w'))
  | CRemove a, Undo =>
      let '(r, (a', w')) := run_on RemoveBubbleCommand.undo a w in
      (r, (CRemove a', w'))
  | CMove a, Redo =>
      let '(r, (a', w')) := run_on MoveBubbleCommand.redo a w in
      (r, (CMove a', w'))
  | CMove a, Undo =>
      let '(r, (a', w')) := run_on MoveBubbleCommand.undo a w in
      (r, (CMove a', w'))
  end.

(** [c'] holds what [c] held in every field other than the [list_item] of an
    [AddBubbleCommand]. *)
Definition fields_kept (c c' : Command) : Prop :=
  match c, c' with
  | CAdd a, CAdd a' =>
      AddBubbleCommand.rect a' = AddBubbleCommand.rect a ∧
      AddBubbleCommand.description a' = AddBubbleCommand.description a
  | CRemove a, CRemove a' => a' = a
  | CMove a, CMove a' => a' = a
  | _, _ => False
  end.

(** A sequence of [redo]/[undo] calls on one command object; a call that
    raises leaves its partial effects and the next call goes ahead. *)
Fixpoint calls (ms : list method) (c : Command) (w : MainWindow.t)
  : Command * MainWindow.t :=
  match ms with
  | [] => (c, w)
  | m :: ms => let '(_, (c', w')) := call m c w in calls ms c' w'
  end.

(* ====================================================================== *)
(** ** Paths and a small file system ([pathlib], [json]) *)
(* ====================================================================== *)

Module Path.

(** A path is the list of its components, outermost first. *)
Abbreviation t := (list string) (only parsing).

Definition parent (p : t) : t := take (length p - 1)%nat p.
Definition name (p : t) : string := List.last p "".
Definition joinpath (p : t) (child : string) : t := (p ++ [child])%list.

(** [str.rfind(c)]: the last position of [c], counted from [i]. *)
Fixpoint rfind (c : ascii) (s : string) (i : nat) : option nat :=
  match s with
  | EmptyString => None
  | String a s' =>
      match rfind c s' (S i) with
      | Some j => Some j
      | None => if decide (a = c) then Some i else None
      end
  end.

(** [PurePath.stem]: the name without its last suffix; a leading or a
    trailing dot does not start a suffix. *)
Definition stem (p : t) : string :=
  let n := name p in
  match rfind "."%char n 0%nat with
  | Some i =>
      if decide (0 < i < String.length n - 1)%nat then substring 0 i n else n
  | None => n
  end.

(** [fnmatch(name, "*.jpg")], case-sensitive. *)
Definition is_jpg (n : string) : bool :=
  String.prefix (String.rev ".jpg") (String.rev n).

(** The order of [sorted]: component by component, each by code point. *)
Fixpoint compare (p q : t) : comparison :=
  match p, q with
  | [], [] => Eq
  | [], _ :: _ => Lt
  | _ :: _, [] => Gt
  | a :: p', b :: q' =>
      match String.compare a b with
      | Eq => compare p' q'
      | c => c
      end
  end.

Definition le (p q : t) : Prop := compare p q ≠ Gt.

Global Instance le_dec p q : Decision (le p q).
Proof. unfold le. solve_decision. Defined.

End Path.

(** [sorted(paths)] *)
Definition sorted (l : list Path.t) : list Path.t := merge_sort Path.le l.

(** The values that [json.loads] returns and [json.dumps] accepts. *)
#[warnings="-register-all"]
Inductive pyval :=
| PNone
| PBool (b : bool)
| PInt (n : Z)
| PFloat (q : Q)
| PStr (s : string)
| PList (l : list pyval)
| PTuple (l : list pyval)
| PDict (d : list (string * pyval)).

Module Json.

(** What a value looks like after a trip through JSON text: tuples have
    become lists, everything else is kept. *)
Fixpoint normalise (v : pyval) : pyval :=
  match v with
  | PList l => PList (map normalise l)
  | PTuple l => PList (map normalise l)
  | PDict d => PDict (map (λ kv, (kv.1, normalise kv.2)) d)
  | _ => v
  end.

(** The text of a file: either a JSON document, given by the value that
    [json.loads] returns for it, or text that [json.loads] rejects. *)
Inductive text :=
| Document (doc : pyval)
| Malformed (s : string).

(** [json.dumps(v, ensure_ascii=False, indent=2)] writes the document that
    reads back as [normalise v]. *)
Definition dumps (v : pyval) : text := Document (normalise v).

Definition loads (t : text) : result pyval :=
  match t with
  | Document doc => Ok doc
  | Malformed _ => Raise JSONDecodeError
  end.

End Json.

Module FS.

Inductive file :=
| TextFile (t : Json.text)       (* UTF-8 text *)
| ImageFile.                     (* bytes that [cv2.imread] decodes *)

Record t := {
  dirs : gset Path.t;
  files : gmap Path.t file;
}.

Definition set_files (f : gmap Path.t file) (fs : t) : t :=
  {| dirs := dirs fs; files := f |}.

(** [Path.exists()] *)
Definition exists_ (fs : t) (p : Path.t) : bool :=
  bool_decide (p ∈ dirs fs) || bool_decide (is_Some (files fs !! p)).

(** [Path.mkdir(exist_ok=True)] *)
Definition mkdir (fs : t) (p : Path.t) : result t :=
  if decide (p ∈ dirs fs) then Ok fs
  else if decide (is_Some (files fs !! p)) then Raise FileExistsError
  else if decide (is_Some (files fs !! Path.parent p))
       then Raise NotADirectoryError
  else if decide (Path.parent p ∈ dirs fs)
       then Ok {| dirs := dirs fs ∪ {[ p ]}; files := files fs |}
  else Raise FileNotFoundError.

(** [Path.read_text(encoding="utf-8")] *)
Definition read_text (fs : t) (p : Path.t) : result Json.text :=
  match files fs !! p with
  | Some (TextFile t) => Ok t
  | Some ImageFile => Raise UnicodeDecodeError
  | None => if decide (p ∈ dirs fs) then Raise IsADirectoryError
            else Raise FileNotFoundError
  end.

(** [Path.write_text(text, encoding="utf-8")] *)
Definition write_text (fs : t) (p : Path.t) (txt : Json.text) : result t :=
  if decide (p ∈ dirs fs) then Raise IsADirectoryError
  else if decide (Path.parent p ∈ dirs fs)
       then Ok (set_files (<[p := TextFile txt]> (files fs)) fs)
  else Raise FileNotFoundError.

(** [cv2.imread(str(p))]: [None] unless the file is a readable image. *)
Definition imread (fs : t) (p : Path.t) : option unit :=
  match files fs !! p with
  | Some ImageFile => Some tt
  | _ => None
  end.

(** [d.glob("*.jpg")]: the entries of directory [d] whose name matches, in
    no particular order. *)
Definition glob_jpg (fs : t) (d : Path.t) : list Path.t :=
  if decide (d ∈ dirs fs)
  then filter (λ p, p ≠ [] ∧ Path.parent p = d ∧ Path.is_jpg (Path.name p))
              (elements (dirs fs ∪ dom (files fs)))
  else [].

End FS.

(* ====================================================================== *)
(** ** [AnnotationController] ([src/controllers/annotation.py]) *)
(* ====================================================================== *)

(** The dataclass declares five fields and checks none of their types, so a
    field holds whatever value it was given. *)
Module AnnotationData.

Record t := {
  rect : pyval;
  kind : pyval;
  done_ : pyval;           (* the field [done] *)
  ocr : pyval;
  translation : pyval;
}.

(** [a.<name>]: an attribute that the dataclass does not declare (and that
    nothing assigns) raises [AttributeError]. *)
Definition getattr (a : t) (name : string) : result pyval :=
  if decide (name = "rect") then Ok (rect a)
  else if decide (name = "kind") then Ok (kind a)
  else if decide (name = "done") then Ok (done_ a)
  else if decide (name = "ocr") then Ok (ocr a)
  else if decide (name = "translation") then Ok (translation a)
  else Raise (AttributeError name).

(** An instance as its annotations describe it. *)
Definition well_typed (a : t) : Prop :=
  (∃ x y w h, rect a = PTuple [PFloat x; PFloat y; PFloat w; PFloat h]) ∧
  (∃ s, kind a = PStr s) ∧ (∃ b, done_ a = PBool b) ∧
  (∃ s, ocr a = PStr s) ∧ (∃ s, translation a = PStr s).

(** The instance with every field as JSON gives it back. *)
Definition normalise (a : t) : t :=
  {| rect := Json.normalise (rect a); kind := Json.normalise (kind a);
     done_ := Json.normalise (done_ a); ocr := Json.normalise (ocr a);
     translation := Json.normalise (translation a) |}.

End AnnotationData.

Module AnnotationController.

Inductive signal :=
| annotations_loaded (image_path : Path.t) (l : list AnnotationData.t)
| annotations_saved (image_path : Path.t)
| bubble_added (a : AnnotationData.t)
| bubble_removed (bubble_id : Z)
| bubble_updated (a : AnnotationData.t)
| annotations_cleared.

(** The controller, the file system it works on and the signals it has
    emitted so far, oldest first.  ([print] output is not kept.) *)
Record t := {
  annotations : list AnnotationData.t;
  fs : FS.t;
  emitted : list signal;
}.

Definition init (fs : FS.t) : t :=
  {| annotations := []; fs := fs; emitted := [] |}.

Definition set_annotations (l : list AnnotationData.t) (c : t) : t :=
  {| annotations := l; fs := fs c; emitted := emitted c |}.
Definition set_fs (f : FS.t) (c : t) : t :=
  {| annotations := annotations c; fs := f; emitted := emitted c |}.
Definition emit (sg : signal) : M t unit :=
  modify (λ c, {| annotations := annotations c; fs := fs c;
                  emitted := emitted c ++ [sg] |}).

(** Python operations on parsed JSON. *)
Definition dict_lookup (d : list (string * pyval)) (key : string)
  : option pyval :=
  (λ hit, hit.2.2) <$> list_find (λ kv, kv.1 = key) d.

(** [v[key]] for a [str] key *)
Definition subscript (v : pyval) (key : string) : result pyval :=
  match v with
  | PDict d =>
      match dict_lookup d key with
      | Some x => Ok x
      | None => Raise (KeyError key)
      end
  | _ => Raise TypeError
  end.

(** [v.get(key, default)] *)
Definition get_ (v : pyval) (key : string) (default : pyval)
  : result pyval :=
  match v with
  | PDict d => Ok (from_option id default (dict_lookup d key))
  | _ => Raise (AttributeError "get")
  end.

(** [for entry in v]: a list yields its elements, a dict its keys, a string
    its characters; nothing else can be iterated. *)
Definition iterate (v : pyval) : result (list pyval) :=
  match v with
  | PList l | PTuple l => Ok l
  | PDict d => Ok (PStr <$> d.*1)
  | PStr s => Ok ((λ c, PStr (String c "")) <$> list_ascii_of_string s)
  | _ => Raise TypeError
  end.

(** [v == bubble_id] for an [int] on the right *)
Definition eq_int (v : pyval) (n : Z) : bool :=
  match v with
  | PInt m => bool_decide (m = n)
  | PBool b => bool_decide ((if b then 1 else 0) = n)
  | PFloat q => Qeq_bool q (inject_Z n)
  | _ => false
  end.

Definition _annotation_file_for (image_path : Path.t) : M t Path.t :=
  let ann_dir := Path.joinpath (Path.parent image_path) ".kara" in
  c ← get;
  fs' ← lift (FS.mkdir (fs c) ann_dir);
  modify (set_fs fs');;
  mret (Path.joinpath ann_dir (Path.stem image_path +:+ ".json")).

(** The folder and the file that [_annotation_file_for] works out. *)
Definition sidecar_dir (image_path : Path.t) : Path.t :=
  Path.joinpath (Path.parent image_path) ".kara".
Definition sidecar (image_path : Path.t) : Path.t :=
  Path.joinpath (sidecar_dir image_path) (Path.stem image_path +:+ ".json").

(** The body of the list comprehension in [load]. *)
Definition annotation_of_entry (entry : pyval) : result AnnotationData.t :=
  rect ← subscript entry "rect";
  kind ← get_ entry "kind" (PStr "bubble");
  done_ ← get_ entry "done" (PBool false);
  ocr ← get_ entry "ocr" (PStr "");
  translation ← get_ entry "translation" (PStr "");
  mret {| AnnotationData.rect := rect; AnnotationData.kind := kind;
          AnnotationData.done_ := done_; AnnotationData.ocr := ocr;
          AnnotationData.translation := translation |}.

(** The [try] block of [load]. *)
Definition parse (fs : FS.t) (ann_file : Path.t)
  : result (list AnnotationData.t) :=
  txt ← FS.read_text fs ann_file;
  raw ← Json.loads txt;
  entries ← get_ raw "bubbles" (PList []);
  es ← iterate entries;
  mapM annotation_of_entry es.

Definition load (image_path : Path.t) : M t unit :=
  ann_file ← _annotation_file_for image_path;
  c ← get;
  if negb (FS.exists_ (fs c) ann_file) then
    (* no annotations yet -> emit empty list *)
    emit (annotations_loaded image_path [])
  else
    ann_list ← try_except (lift (parse (fs c) ann_file)) (λ _, mret []);
    emit (annotations_loaded image_path ann_list).

(** The dict that [save] builds for one annotation. *)
Definition entry_of_annotation (ann : AnnotationData.t) : pyval :=
  PDict [("rect", AnnotationData.rect ann);
         ("kind", AnnotationData.kind ann);
         ("done", AnnotationData.done_ ann);
         ("ocr", AnnotationData.ocr ann);
         ("translation", AnnotationData.translation ann)].

Definition save (image_path : Path.t) (annotations : list AnnotationData.t)
  : M t unit :=
  ann_file ← _annotation_file_for image_path;
  let payload :=
    PDict [("bubbles", PList (entry_of_annotation <$> annotations))] in
  try_except
    (c ← get;
     fs' ← lift (FS.write_text (fs c) ann_file (Json.dumps payload));
     modify (set_fs fs');;
     emit (annotations_saved image_path))
    (λ _, mret tt).

Definition add (ann : AnnotationData.t) : M t unit :=
  modify (λ c, set_annotations (annotations c ++ [ann]) c);;
  emit (bubble_added ann).

(** The generator in [remove]: the index of the first annotation whose [id]
    equals [bubble_id]; evaluating [a.id] can raise. *)
Fixpoint first_with_id (l : list AnnotationData.t) (bubble_id : Z) (i : nat)
  : result (option nat) :=
  match l with
  | [] => Ok None
  | a :: l' =>
      v ← AnnotationData.getattr a "id";
      if eq_int v bubble_id then Ok (Some i)
      else first_with_id l' bubble_id (S i)
  end.

Definition remove (bubble_id : Z) : M t unit :=
  c ← get;
  idx ← lift (first_with_id (annotations c) bubble_id 0%nat);
  match idx with
  | Some i =>
      modify (set_annotations (delete i (annotations c)));;
      emit (bubble_removed bubble_id)
  | None => mret tt
  end.

Definition update (ann : AnnotationData.t) : M t unit :=
  emit (bubble_updated ann).

Definition clear : M t unit :=
  modify (set_annotations []);;
  emit annotations_cleared.

End AnnotationController.

(* ====================================================================== *)
(** ** [MainWindow]: page navigation
       ([src/app/main_window.py], region "Page Navigation") *)
(* ====================================================================== *)

Module Navigation.

(** What the surroundings decide during one call of [load_page]: the answer
    to the "Discard annotations?" box, and whether the slot
    [on_annotations_loaded] rebuilt the bubbles to its end (it then resets
    [_dirty]) or stopped on an exception, which Qt reports without passing
    it on to the emitter. *)
Record ui := {
  discard_confirmed : bool;
  annotations_rebuilt : bool;
}.

(** The attributes of the window that navigation reads and writes.  The
    bubble registry, the viewer and the labels are written by [load_page]
    but never read by it and are left out. *)
Record t := {
  cur_img_path : option Path.t;
  pages : list Path.t;
  current_page_idx : Z;
  _dirty : bool;
  action_prev_page_enabled : bool;
  action_next_page_enabled : bool;
  annotations : AnnotationController.t;
}.

(** The state after [__init__]. *)
Definition init (fs : FS.t) : t :=
  {| cur_img_path := None; pages := []; current_page_idx := -1;
     _dirty := false; action_prev_page_enabled := true;
     action_next_page_enabled := true;
     annotations := AnnotationController.init fs |}.

Definition set_cur_img_path (p : option Path.t) (s : t) : t :=
  {| cur_img_path := p; pages := pages s;
     current_page_idx := current_page_idx s; _dirty := _dirty s;
     action_prev_page_enabled := action_prev_page_enabled s;
     action_next_page_enabled := action_next_page_enabled s;
     annotations := annotations s |}.

Definition set_pages (l : list Path.t) (s : t) : t :=
  {| cur_img_path := cur_img_path s; pages := l;
     current_page_idx := current_page_idx s; _dirty := _dirty s;
     action_prev_page_enabled := action_prev_page_enabled s;
     action_next_page_enabled := action_next_page_enabled s;
     annotations := annotations s |}.

Definition set_dirty (b : bool) (s : t) : t :=
  {| cur_img_path := cur_img_path s; pages := pages s;
     current_page_idx := current_page_idx s; _dirty := b;
     action_prev_page_enabled := action_prev_page_enabled s;
     action_next_page_enabled := action_next_page_enabled s;
     annotations := annotations s |}.

Definition set_index (i : Z) (has_prev has_next : bool) (s : t) : t :=
  {| cur_img_path := cur_img_path s; pages := pages s;
     current_page_idx := i; _dirty := _dirty s;
     action_prev_page_enabled := has_prev;
     action_next_page_enabled := has_next;
     annotations := annotations s |}.

Definition on_annotations {A} (m : M AnnotationController.t A) : M t A :=
  λ s, let (r, c) := m (annotations s) in
       (r, {| cur_img_path := cur_img_path s; pages := pages s;
              current_page_idx := current_page_idx s; _dirty := _dirty s;
              action_prev_page_enabled := action_prev_page_enabled s;
              action_next_page_enabled := action_next_page_enabled s;
              annotations := c |}).

(** [load_page] returns [None] on each of its paths; the value returned here
    tells the paths apart. *)
Inductive outcome :=
| Declined          (* unsaved changes, and the user kept them *)
| ImreadFailed      (* "Failed to load ..." *)
| Loaded.

Definition load_page (u : ui) (path : Path.t) : M t outcome :=
  s ← get;
  if _dirty s && negb (discard_confirmed u) then mret Declined else
  match FS.imread (AnnotationController.fs (annotations s)) path with
  | None => mret ImreadFailed
  | Some img =>
      modify (set_cur_img_path (Some path));;
      (* self.clear_bubbles() *)
      on_annotations (AnnotationController.load path);;
      (* the slot on_annotations_loaded ends with self._dirty = False *)
      modify (λ s, if annotations_rebuilt u then set_dirty false s else s);;
      (* self.viewer.load_cv2_image(img) *)
      (* update navigation state *)
      modify (λ s, set_pages
        (sorted (FS.glob_jpg (AnnotationController.fs (annotations s))
                             (Path.parent path))) s);;
      s ← get;
      idx ← lift (index (pages s) path);
      let has_prev := bool_decide (idx > 0) in
      let has_next := bool_decide (idx < Z.of_nat (length (pages s)) - 1) in
      modify (set_index idx has_prev has_next);;
      mret Loaded
  end.

(** The result of a call whose value is dropped. *)
Definition discard {A} (r : result A * t) : result unit * t :=
  (r.1 ≫= λ _, Ok tt, r.2).

Definition prev_page (u : ui) : M t unit :=
  s ← get;
  if decide (current_page_idx s > 0) then
    p ← lift (getitem (pages s) (current_page_idx s - 1));
    load_page u p;; mret tt
  else mret tt.

Definition next_page (u : ui) : M t unit :=
  s ← get;
  if decide (current_page_idx s < Z.of_nat (length (pages s)) - 1) then
    p ← lift (getitem (pages s) (current_page_idx s + 1));
    load_page u p;; mret tt
  else mret tt.

(** The window shows [path]: it is the current image, [pages] is the sorted
    listing of its folder and [current_page_idx] is its position there. *)
Definition at_page (s : t) (path : Path.t) : Prop :=
  cur_img_path s = Some path ∧
  pages s = sorted (FS.glob_jpg (AnnotationController.fs (annotations s))
                                (Path.parent path)) ∧
  0 ≤ current_page_idx s ∧
  pages s !! Z.to_nat (current_page_idx s) = Some path.

End Navigation.

(* ====================================================================== *)
(** ** [PanelViewer.crop_region] ([src/gui/viewer/panel_viewer.py]) *)
(* ====================================================================== *)

Module PanelViewer.

(** A three-axis array as [cv2.imread] returns it: [shape] and the value at
    each in-range position (row, column, channel). *)
Record ndarray := {
  shape : nat * nat * nat;
  at_ : nat → nat → nat → Z;
}.

(** [a[r0:r1, c0:c1]] *)
Definition slice2 (a : ndarray) (r0 r1 c0 c1 : Z) : ndarray :=
  let '(h0, w0, ch) := shape a in
  let rlo := slice_bound h0 r0 in
  let rhi := slice_bound h0 r1 in
  let clo := slice_bound w0 c0 in
  let chi := slice_bound w0 c1 in
  {| shape := ((rhi - rlo)%nat, (chi - clo)%nat, ch);
     at_ := λ i j k, at_ a (rlo + i)%nat (clo + j)%nat k |}.

Record t := {
  _orig_cv : option ndarray;
  pixmap_isNull : bool;         (* self._photo_item.pixmap().isNull() *)
}.

Definition crop_region (v : t) (rect : Qt.QRectF) : option ndarray :=
  match _orig_cv v with
  | None => None                          (* guard: no raw image loaded *)
  | Some img =>
      if pixmap_isNull v then None else   (* guard: no pixmap *)
      (* clamp & convert to ints *)
      let x := Z.max 0 (int_of_float (Qt.x rect)) in
      let y := Z.max 0 (int_of_float (Qt.y rect)) in
      let w := Z.max 0 (int_of_float (Qt.width rect)) in
      let h := Z.max 0 (int_of_float (Qt.height rect)) in
      (* further clamp to image bounds *)
      let '(h0, w0, _) := shape img in
      let x := Z.min x (Z.of_nat w0) in
      let y := Z.min y (Z.of_nat h0) in
      let w := Z.min w (Z.of_nat w0 - x) in
      let h := Z.min h (Z.of_nat h0 - y) in
      if decide (w ≤ 0 ∨ h ≤ 0) then None
      else Some (slice2 img y (y + h) x (x + w))
  end.

End PanelViewer.

(* ====================================================================== *)
(** ** The ready gate of the model wrappers
       ([kara/core/detection.py], [kara/core/ocr.py]) *)
(* ====================================================================== *)

(** The state of a [threading.Event]. *)
Module Event.
Definition t := bool.
Definition is_set (e : t) : bool := e.
Definition set (e : t) : t := true.
End Event.

Module SpeechBubbleDetector.

(** One box of a result, as the tensors hold it. *)
Record box := {
  box_conf : Q;
  box_cls : Q;
  box_xyxy : Q * Q * Q * Q;
  box_xywh : Q * Q * Q * Q;
}.

Record Detection := {
  cls : Z;
  conf : Q;
  xyxy : Q * Q * Q * Q;
  xywh : Q * Q * Q * Q;
}.

(** A loaded YOLO model: called on an image path it returns the boxes of the
    first result, or fails inside the library. *)
Definition YOLO := string → string + list box.

Record t := {
  model_path : string;
  _model : option YOLO;
  _ready : Event.t;
}.

(** [__init__], up to the start of the loader thread. *)
Definition init (model_path : string) : t :=
  {| model_path := model_path; _model := None; _ready := false |}.

(** The loader thread, run to its end: [load] stands for the constructor
    [YOLO(model_path)]; when it raises, the thread dies and the event stays
    unset.  (The thread stores the model before it sets the event; the state
    in between, model stored and event unset, is one of the states [t].) *)
Definition _load_model (load : string → option YOLO) (d : t) : t :=
  match load (model_path d) with
  | Some m => {| model_path := model_path d; _model := Some m;
                 _ready := Event.set (_ready d) |}
  | None => d
  end.

Definition ready (d : t) : bool := Event.is_set (_ready d).

Definition not_ready_msg : string := "SpeechBubbleDetector: Model not ready".

Definition detect (d : t) (image_path : string) (min_conf : Q)
  : result (list Detection) :=
  if negb (ready d) then Raise (RuntimeError not_ready_msg) else
  match _model d with
  | None => Raise TypeError            (* 'NoneType' object is not callable *)
  | Some model =>
      match model image_path with
      | inl what => Raise (LibraryError what)
      | inr boxes =>
          Ok ((λ b, {| cls := int_of_float (box_cls b); conf := box_conf b;
                       xyxy := box_xyxy b; xywh := box_xywh b |})
              <$> filter (λ b, ¬ (box_conf b < min_conf)%Q) boxes)
      end
  end.

End SpeechBubbleDetector.

Module OCREngine.

(** What [recognize] can be handed. *)
Inductive input :=
| InStr (s : string)
| InPath (p : string)
| InNdarray (a : PanelViewer.ndarray)
| InImage (im : PanelViewer.ndarray)       (* a PIL image *)
| InOther.

(** The two PIL functions that [recognize] calls, and a loaded [MangaOcr]:
    each either returns or fails inside the library. *)
Record PIL := {
  Image_open : string → string + PanelViewer.ndarray;
  Image_fromarray : PanelViewer.ndarray → string + PanelViewer.ndarray;
}.

Definition MangaOcr := PanelViewer.ndarray → string + string.

Record t := {
  _ocr : option MangaOcr;
  _ready : Event.t;
}.

(** [__init__], up to the start of the loader thread. *)
Definition init : t := {| _ocr := None; _ready := false |}.

(** The loader thread, run to its end: [load] stands for the constructor
    [MangaOcr()]. *)
Definition _load (load : option MangaOcr) (e : t) : t :=
  match load with
  | Some m => {| _ocr := Some m; _ready := Event.set (_ready e) |}
  | None => e
  end.

Definition ready (e : t) : bool := Event.is_set (_ready e).

Definition not_ready_msg : string := "OCREngine: model not ready".

Definition from_library {A} (r : string + A) : result A :=
  match r with
  | inl what => Raise (LibraryError what)
  | inr a => Ok a
  end.

(** [img_or_path[..., ::-1]]: the channels in reverse order. *)
Definition reverse_channels (a : PanelViewer.ndarray) : PanelViewer.ndarray :=
  {| PanelViewer.shape := PanelViewer.shape a;
     PanelViewer.at_ := λ i j k,
       PanelViewer.at_ a i j ((PanelViewer.shape a).2 - 1 - k)%nat |}.

Definition recognize (pil : PIL) (e : t) (img_or_path : input)
  : result string :=
  if negb (ready e) then Raise (RuntimeError not_ready_msg) else
  image ← match img_or_path with
          (* load from disk *)
          | InStr s | InPath s => from_library (Image_open pil s)
          (* numpy to PIL *)
          | InNdarray a =>
              from_library (Image_fromarray pil (reverse_channels a))
          (* already a PIL.Image *)
          | InImage im => Ok im
          | InOther => Raise (ValueError "Unsupported type for OCR")
          end;
  match _ocr e with
  | None => Raise TypeError            (* 'NoneType' object is not callable *)
  | Some ocr => from_library (ocr image)
  end.

End OCREngine.

(* ====================================================================== *)
(** ** Sequences of calls on the bubble registry *)
(* ====================================================================== *)

Module Registry.

(** One call on the registry.  [RemoveBubbleCommand] objects are created
    along the way and later named by their order of creation. *)
Inductive op :=
| Call_add_bubble (rect_item : pyobj)
| Call_remove_bubble (idx : Z)
| Call_remove_bubble_for (rect : rect_ref)
| Call_clear_bubbles
| New_RemoveBubbleCommand (rect_item : rect_ref)
| Call_redo (k : nat)
| Call_undo (k : nat).

Record world := {
  win : MainWindow.t;
  cmds : list RemoveBubbleCommand.t;
}.

Definition start (heap : rect_ref → MoveableRectItem.t) : world :=
  {| win := MainWindow.init heap; cmds := [] |}.

(** A call that raises keeps the effects it had until then. *)
Definition step (o : op) (s : world) : world :=
  match o with
  | Call_add_bubble rect_item =>
      {| win := (MainWindow._add_bubble rect_item (win s)).2;
         cmds := cmds s |}
  | Call_remove_bubble idx =>
      {| win := (MainWindow._remove_bubble idx (win s)).2; cmds := cmds s |}
  | Call_remove_bubble_for rect =>
      {| win := (MainWindow._remove_bubble_for rect (win s)).2;
         cmds := cmds s |}
  | Call_clear_bubbles =>
      {| win := (MainWindow.clear_bubbles (win s)).2; cmds := cmds s |}
  | New_RemoveBubbleCommand rect_item =>
      {| win := win s;
         cmds := cmds s ++
           [RemoveBubbleCommand.init (win s) rect_item "Remove Bubble"] |}
  | Call_redo k =>
      match cmds s !! k with
      | Some c =>
          let '(_, (c', w')) := RemoveBubbleCommand.redo (c, win s) in
          {| win := w'; cmds := <[k := c']> (cmds s) |}
      | None => s
      end
  | Call_undo k =>
      match cmds s !! k with
      | Some c =>
          let '(_, (c', w')) := RemoveBubbleCommand.undo (c, win s) in
          {| win := w'; cmds := <[k := c']> (cmds s) |}
      | None => s
      end
  end.

Definition run (ops : list op) (s : world) : world := foldl (flip step) s ops.

(** The two lists describe the same rows. *)
Definition consistent (w : MainWindow.t) : Prop :=
  length (MainWindow._rect_list w) = Qt.count (MainWindow.bubble_list w) ∧
  ∀ i, Qt.item (MainWindow.bubble_list w) i
       = fst <$> MainWindow._rect_list w !! i.

(** The list item of the command is a live object outside the list widget,
    which is how the command's own [redo] leaves it. *)
Definition detached (w : MainWindow.t) (c : RemoveBubbleCommand.t) : bool :=
  match RemoveBubbleCommand._listitem c with
  | Some li =>
      bool_decide (li ∉ Qt.rows (MainWindow.bubble_list w)) &&
      bool_decide (li ∉ Qt.deleted (MainWindow.bubble_list w))
  | None => true
  end.

(** Every [undo] in the sequence finds its list item detached. *)
Fixpoint undo_in_turn (ops : list op) (s : world) : bool :=
  match ops with
  | [] => true
  | o :: ops' =>
      match o with
      | Call_undo k =>
          match cmds s !! k with
          | Some c => detached (win s) c
          | None => true
          end
      | _ => true
      end && undo_in_turn ops' (step o s)
  end.

End Registry.

(* ====================================================================== *)
(** ** Invariants of the registry *)
(* ====================================================================== *)

Module Inv.
Import MainWindow.

(** What every state reached through the registry operations satisfies: the
    rows of the widget are the first components of the pair list, no list
    item sits in two rows, every list item met so far was created by
    [_add_bubble] (so the next one is new), no row holds a destroyed item,
    and a pair joins a list item with the rectangle stored in its
    [Qt.UserRole] data. *)
Record wf (w : t) : Prop := {
  wf_rows : (_rect_list w).*1 = Qt.rows (bubble_list w);
  wf_nodup : NoDup (Qt.rows (bubble_list w));
  wf_fresh : ∀ li, li ∈ Qt.rows (bubble_list w) → (li < next_item w)%nat;
  wf_alive : ∀ li, li ∈ Qt.rows (bubble_list w) →
                   li ∉ Qt.deleted (bubble_list w);
  wf_deleted : ∀ li, li ∈ Qt.deleted (bubble_list w) →
                     (li < next_item w)%nat;
  wf_data : ∀ li r, (li, r) ∈ _rect_list w →
                    Qt.user_data (list_items w li) = Some r;
}.

(** A command as its constructor leaves it: either it captured a row and a
    list item created earlier whose data is the command's rectangle, or it
    captured nothing. *)
Definition genuine (w : t) (c : RemoveBubbleCommand.t) : Prop :=
  match RemoveBubbleCommand._row c, RemoveBubbleCommand._listitem c with
  | Some _, Some li =>
      (li < next_item w)%nat ∧
      Qt.user_data (list_items w li) = Some (RemoveBubbleCommand._rect_item c)
  | None, None => True
  | _, _ => False
  end.

Definition wf_world (s : Registry.world) : Prop :=
  wf (Registry.win s) ∧ Forall (genuine (Registry.win s)) (Registry.cmds s).

(** Later states keep every list item created so far as it is. *)
Definition extends (w w' : t) : Prop :=
  (next_item w ≤ next_item w')%nat ∧
  ∀ li, (li < next_item w)%nat → list_items w' li = list_items w li.

End Inv.

(* ====================================================================== *)
(** ** Concrete data for the examples *)
(* ====================================================================== *)

Module Ex.

(** A heap in which every rectangle is a 10 x 10 bubble at the origin. *)
Definition heap0 : rect_ref → MoveableRectItem.t := λ _,
  {| MoveableRectItem.kind := "bubble"; MoveableRectItem._done := false;
     MoveableRectItem.pos := {| Qt.px := 0; Qt.py := 0 |};
     MoveableRectItem.rect :=
       {| Qt.x := 0; Qt.y := 0; Qt.width := 10; Qt.height := 10 |};
     MoveableRectItem.zValue := 0 |}.

(** Three bubbles are registered, the middle one is deleted through a
    command and restored, then everything is cleared. *)
Definition session : list Registry.op :=
  [Registry.Call_add_bubble (RectItem 3%nat);
   Registry.Call_add_bubble (RectItem 4%nat);
   Registry.Call_add_bubble (RectItem 5%nat);
   Registry.New_RemoveBubbleCommand 4%nat;
   Registry.Call_redo 0%nat;
   Registry.Call_remove_bubble (-1);
   Registry.Call_undo 0%nat;
   Registry.Call_remove_bubble_for 3%nat;
   Registry.Call_clear_bubbles].

(** [undo] of a command whose [redo] never ran. *)
Definition undo_first : list Registry.op :=
  [Registry.Call_add_bubble (RectItem 0%nat);
   Registry.New_RemoveBubbleCommand 0%nat;
   Registry.Call_undo 0%nat].

(** A bubble is deleted and restored through a command, the list is cleared
    (which destroys the restored list item), and the command is replayed. *)
Definition undo_after_clear : list Registry.op :=
  [Registry.Call_add_bubble (RectItem 0%nat);
   Registry.New_RemoveBubbleCommand 0%nat;
   Registry.Call_redo 0%nat;
   Registry.Call_undo 0%nat;
   Registry.Call_clear_bubbles;
   Registry.Call_redo 0%nat;
   Registry.Call_undo 0%nat].

(** A chapter folder with three pages, and the first page. *)
Definition chapter : Path.t := ["Mangas"; "ch1"].
Definition page (n : string) : Path.t := chapter ++ [n].
Definition fs0 : FS.t :=
  {| FS.dirs := {[ ["Mangas"]; chapter ]};
     FS.files := {[ page "p2.jpg" := FS.ImageFile;
                    page "p1.jpg" := FS.ImageFile;
                    page "p3.jpg" := FS.ImageFile;
                    page "notes.txt" :=
                      FS.TextFile (Json.Malformed "to do") ]} |}.

(** An annotation as the dataclass declares it. *)
Definition ann0 : AnnotationData.t :=
  {| AnnotationData.rect :=
       PTuple [PFloat (1 # 2); PFloat 20; PFloat 30; PFloat 40];
     AnnotationData.kind := PStr "free-text";
     AnnotationData.done_ := PBool true;
     AnnotationData.ocr := PStr "konnichiwa";
     AnnotationData.translation := PStr "hello" |}.

(** The same annotation as [load] builds it. *)
Definition ann0_loaded : AnnotationData.t :=
  {| AnnotationData.rect :=
       PList [PFloat (1 # 2); PFloat 20; PFloat 30; PFloat 40];
     AnnotationData.kind := PStr "free-text";
     AnnotationData.done_ := PBool true;
     AnnotationData.ocr := PStr "konnichiwa";
     AnnotationData.translation := PStr "hello" |}.

(** The window after the first page of the chapter was loaded. *)
Definition quiet : Navigation.ui :=
  {| Navigation.discard_confirmed := false;
     Navigation.annotations_rebuilt := true |}.
Definition at_p1 : Navigation.t :=
  (Navigation.load_page quiet (page "p1.jpg") (Navigation.init fs0)).2.

(** A 4 x 6 image whose pixel values name their position, and a viewer
    showing it. *)
Definition img0 : PanelViewer.ndarray :=
  {| PanelViewer.shape := (4, 6, 3)%nat;
     PanelViewer.at_ := λ i j k,
       Z.of_nat (100 * i + 10 * j + k)%nat |}.


(** A detector model that finds one box, and an OCR model with a fixed
    answer. *)
Definition yolo0 : SpeechBubbleDetector.YOLO := λ _,
  inr [{| SpeechBubbleDetector.box_conf := 9 # 10;
          SpeechBubbleDetector.box_cls := 1;
          SpeechBubbleDetector.box_xyxy := (1, 2, 11, 22)%Q;
          SpeechBubbleDetector.box_xywh := (6, 12, 10, 20)%Q |}].
Definition ocr0 : OCREngine.MangaOcr := λ _, inr "text".
Definition pil0 : OCREngine.PIL :=
  {| OCREngine.Image_open := λ _, inl "cannot identify image file";
     OCREngine.Image_fromarray := inr |}.



End Ex.


(* ====================================================================== *)
(** ** The undo stack ([src/controllers/undo_redo.py]) and the handlers of
       [MainWindow] that feed it *)
(* ====================================================================== *)

(** [QUndoStack] as [UndoRedoController] uses it: no macros, no undo limit,
    and commands whose [id()] is -1, so that nothing is merged.  The stack
    holds the commands pushed so far; those below [index] are applied.  The
    commands are the Python objects, so a method call replaces the entry by
    the object as the call leaves it.  An exception that escapes from [redo]
    or [undo] is reported by the binding and the stack goes on as if the
    call had returned. *)
Module QUndoStack.

Record t := {
  command_list : list Command;
  index : nat;
}.

Definition empty : t := {| command_list := []; index := 0%nat |}.

Definition count (s : t) : nat := length (command_list s).
Definition canUndo (s : t) : bool := bool_decide (0 < index s)%nat.
Definition canRedo (s : t) : bool := bool_decide (index s < count s)%nat.

(** [push(cmd)]: runs [cmd.redo()], drops the undone commands, appends. *)
Definition push (cmd : Command) (s : t) (w : MainWindow.t)
  : t * MainWindow.t :=
  let '(_, (cmd', w')) := call Redo cmd w in
  ({| command_list := take (index s) (command_list s) ++ [cmd'];
      index := S (index s) |}, w').

(** [undo()]: nothing at the bottom of the stack. *)
Definition undo (s : t) (w : MainWindow.t) : t * MainWindow.t :=
  match index s with
  | O => (s, w)
  | S idx =>
      match command_list s !! idx with
      | Some cmd =>
          let '(_, (cmd', w')) := call Undo cmd w in
          ({| command_list := <[idx := cmd']> (command_list s);
              index := idx |}, w')
      | None => (s, w)
      end
  end.

(** [redo()]: nothing at the top of the stack. *)
Definition redo (s : t) (w : MainWindow.t) : t * MainWindow.t :=
  match command_list s !! index s with
  | Some cmd =>
      let '(_, (cmd', w')) := call Redo cmd w in
      ({| command_list := <[index s := cmd']> (command_list s);
          index := S (index s) |}, w')
  | None => (s, w)
  end.

Definition clear (s : t) : t := empty.

End QUndoStack.

Module UndoRedoController.

(** The controller is its [_stack]; the two relayed signals only enable
    and disable menu actions. *)
Abbreviation t := QUndoStack.t (only parsing).

Definition init : t := QUndoStack.empty.

Definition push (cmd : Command) (c : t) (w : MainWindow.t)
  : t * MainWindow.t := QUndoStack.push cmd c w.

Definition undo (c : t) (w : MainWindow.t) : t * MainWindow.t :=
  if QUndoStack.canUndo c then QUndoStack.undo c w else (c, w).

Definition redo (c : t) (w : MainWindow.t) : t * MainWindow.t :=
  if QUndoStack.canRedo c then QUndoStack.redo c w else (c, w).

Definition clear (c : t) : t := QUndoStack.clear c.

End UndoRedoController.

(** The window together with its [undo_ctrl]. *)
Module Session.

Record t := {
  main : MainWindow.t;
  undo_ctrl : UndoRedoController.t;
}.

Definition init (heap : rect_ref → MoveableRectItem.t) : t :=
  {| main := MainWindow.init heap; undo_ctrl := UndoRedoController.init |}.

Definition on_ctrl
    (f : UndoRedoController.t → MainWindow.t
         → UndoRedoController.t * MainWindow.t) (s : t) : t :=
  let '(c, w) := f (undo_ctrl s) (main s) in {| main := w; undo_ctrl := c |}.

Definition on_window {A} (m : M MainWindow.t A) (s : t) : t :=
  {| main := (m (main s)).2; undo_ctrl := undo_ctrl s |}.

(** [MainWindow._on_new_rect] *)
Definition _on_new_rect (scene_rect : rect_ref) : t → t :=
  on_ctrl (UndoRedoController.push (CAdd (AddBubbleCommand.init scene_rect))).

(** [MainWindow.delete_selected_bubble]; [current] is what
    [bubble_list.currentItem()] returns. *)
Definition delete_selected_bubble (current : option item_ref) (s : t) : t :=
  match current with
  | None => s
  | Some li =>
      match list_find (λ p, p.1 = li) (MainWindow._rect_list (main s)) with
      | Some (_, (_, rect)) =>
          on_window MainWindow._mark_dirty
            (on_ctrl (UndoRedoController.push
               (CRemove (RemoveBubbleCommand.init (main s) rect
                           "Delete Bubble"))) s)
      | None => s
      end
  end.

(** [MainWindow._on_rect_created] *)
Definition _on_rect_created (rect_item : rect_ref) (s : t) : t :=
  (* Prevent double-adding if somehow the same rect fires twice *)
  if decide (rect_item ∈ (MainWindow._rect_list (main s)).*2) then s
  else on_window (MainWindow._add_bubble (RectItem rect_item)) s.

(** [MoveableRectItem(rect, kind=kind)] for one of the two kinds that have
    a style: not done, at the origin, at the default stacking height. *)
Definition new_rect_item (rect : Qt.QRectF) (kind : string)
  : MoveableRectItem.t :=
  {| MoveableRectItem.kind := kind; MoveableRectItem._done := false;
     MoveableRectItem.pos := {| Qt.px := 0; Qt.py := 0 |};
     MoveableRectItem.rect := rect; MoveableRectItem.zValue := 0 |}.

(** The rectangle item that [_apply_detections] builds for a detection. *)
Definition rect_of_detection (det : SpeechBubbleDetector.Detection)
  : MoveableRectItem.t :=
  let kind := if decide (SpeechBubbleDetector.cls det = 0) then "bubble"
              else "free-text" in
  let '(x0, y0, _, _) := SpeechBubbleDetector.xyxy det in
  let '(_, _, width, height) := SpeechBubbleDetector.xywh det in
  MoveableRectItem.setZValue 1
    (MoveableRectItem.setPos {| Qt.px := x0; Qt.py := y0 |}
       (new_rect_item
          {| Qt.x := 0; Qt.y := 0; Qt.width := width; Qt.height := height |}
          kind)).

(** One round of the loop of [MainWindow._apply_detections]: the new item
    is the object [r]. *)
Definition detected_rect (r : rect_ref)
    (det : SpeechBubbleDetector.Detection) : M MainWindow.t unit :=
  modify (MainWindow.update_rect r (λ _, rect_of_detection det));;
  MainWindow.scene_addItem r;;
  MainWindow._add_bubble (RectItem r);;
  mret tt.

(** [MainWindow._apply_detections]; each detection comes with the object
    that its round of the loop creates. *)
Fixpoint _apply_detections
    (detections : list (rect_ref * SpeechBubbleDetector.Detection))
  : M MainWindow.t unit :=
  match detections with
  | [] => mret tt
  | (r, det) :: rest => detected_rect r det;; _apply_detections rest
  end.

(** What the user and the worker threads make the window do. *)
Inductive action :=
| Draw (r : rect_ref)                  (* rect_created → _on_new_rect *)
| DeleteSelected (current : option item_ref)
| MoveTo (r : rect_ref) (old new : Qt.QRectF)
    (* undo_ctrl.push(MoveBubbleCommand(self, r, old, new)), as
       on_spin_changed and _on_rect_changed do *)
| UndoAction                           (* action_undo → undo_ctrl.undo *)
| RedoAction                           (* action_redo → undo_ctrl.redo *)
| Detected (r : rect_ref) (det : SpeechBubbleDetector.Detection)
    (* one round of the loop of _apply_detections; r is the object that
       MoveableRectItem(...) returns in that round *)
| RectCreated (r : rect_ref)           (* _on_rect_created *)
| ContextDelete (r : rect_ref).        (* delete_block → _remove_bubble_for *)

Definition step (a : action) (s : t) : t :=
  match a with
  | Draw r => _on_new_rect r s
  | DeleteSelected current => delete_selected_bubble current s
  | MoveTo r old new =>
      on_ctrl (UndoRedoController.push
                 (CMove (MoveBubbleCommand.init r old new))) s
  | UndoAction => on_ctrl UndoRedoController.undo s
  | RedoAction => on_ctrl UndoRedoController.redo s
  | Detected r det => on_window (detected_rect r det) s
  | RectCreated r => _on_rect_created r s
  | ContextDelete r => on_window (MainWindow._remove_bubble_for r) s
  end.

Definition run (acts : list action) (s : t) : t := foldl (flip step) s acts.

(** The rectangle that a command adds or removes. *)
Definition command_rect (c : Command) : option rect_ref :=
  match c with
  | CAdd a => Some (AddBubbleCommand.rect a)
  | CRemove d => Some (RemoveBubbleCommand._rect_item d)
  | CMove _ => None
  end.

(** [r] is a rectangle object that the window has not met: it is not
    registered and no command on the stack refers to it. *)
Definition is_new (s : t) (r : rect_ref) : bool :=
  bool_decide (r ∉ (MainWindow._rect_list (main s)).*2) &&
  bool_decide (r ∉ omap command_rect (QUndoStack.command_list (undo_ctrl s))).

(** Every rectangle that is drawn, detected or created is a new object. *)
Fixpoint new_rects (acts : list action) (s : t) : bool :=
  match acts with
  | [] => true
  | a :: acts' =>
      match a with
      | Draw r | Detected r _ | RectCreated r => is_new s r
      | _ => true
      end && new_rects acts' (step a s)
  end.

(** What the states of a session satisfy.  The registry is well formed, no
    rectangle is registered twice and no list item has been destroyed; the
    stack index is in range; a [RemoveBubbleCommand] on the stack is as its
    constructor left it; the rectangle of an applied [RemoveBubbleCommand]
    is not registered; no two [RemoveBubbleCommand]s on the stack remove
    the same rectangle, and no [AddBubbleCommand] follows a
    [RemoveBubbleCommand] of its rectangle. *)
Record ok (s : t) : Prop := {
  ok_wf : Inv.wf (main s);
  ok_rects : NoDup (MainWindow._rect_list (main s)).*2;
  ok_alive : Qt.deleted (MainWindow.bubble_list (main s)) = ∅;
  ok_index : (QUndoStack.index (undo_ctrl s)
              ≤ QUndoStack.count (undo_ctrl s))%nat;
  ok_genuine : ∀ k d,
    QUndoStack.command_list (undo_ctrl s) !! k = Some (CRemove d) →
    Inv.genuine (main s) d;
  ok_applied : ∀ k d, (k < QUndoStack.index (undo_ctrl s))%nat →
    QUndoStack.command_list (undo_ctrl s) !! k = Some (CRemove d) →
    RemoveBubbleCommand._rect_item d ∉ (MainWindow._rect_list (main s)).*2;
  ok_removed : ∀ k k' d d',
    QUndoStack.command_list (undo_ctrl s) !! k = Some (CRemove d) →
    QUndoStack.command_list (undo_ctrl s) !! k' = Some (CRemove d') →
    RemoveBubbleCommand._rect_item d = RemoveBubbleCommand._rect_item d' →
    k = k';
  ok_order : ∀ k k' d a, (k < k')%nat →
    QUndoStack.command_list (undo_ctrl s) !! k = Some (CRemove d) →
    QUndoStack.command_list (undo_ctrl s) !! k' = Some (CAdd a) →
    AddBubbleCommand.rect a ≠ RemoveBubbleCommand._rect_item d;
}.

End Session.

Module SessionEdits.
Import Session.

(** The action pushes a command: a new rectangle was drawn, the selected
    list item is one of the registry, or a bubble was moved. *)
Definition pushes (s : t) (a : action) : bool :=
  match a with
  | Draw r => is_new s r
  | DeleteSelected (Some li) =>
      bool_decide (li ∈ (MainWindow._rect_list (main s)).*1)
  | MoveTo _ _ _ => true
  | _ => false
  end.

End SessionEdits.

(** Sessions for the examples. *)
Module Demo.
Import Session.

(** A detection of class 1. *)
Definition detection : SpeechBubbleDetector.Detection :=
  {| SpeechBubbleDetector.cls := 1; SpeechBubbleDetector.conf := 9 # 10;
     SpeechBubbleDetector.xyxy := (1, 2, 11, 22)%Q;
     SpeechBubbleDetector.xywh := (6, 12, 10, 20)%Q |}.

(** Two bubbles are drawn and a third is detected; the second is deleted
    through the menu and both edits are undone and redone; the first is
    deleted through its context menu and the last edit is undone again. *)
Definition editing : list action :=
  [Draw 1%nat; Draw 2%nat; Detected 3%nat detection;
   DeleteSelected (Some 1%nat);
   UndoAction; UndoAction; RedoAction; RedoAction;
   MoveTo 3%nat
     {| Qt.x := 0; Qt.y := 0; Qt.width := 10; Qt.height := 10 |}
     {| Qt.x := 5; Qt.y := 5; Qt.width := 20; Qt.height := 10 |};
   ContextDelete 1%nat;
   UndoAction; UndoAction; RedoAction].

(** The start of [editing], up to the detection. *)
Definition three_bubbles : list action :=
  [Draw 1%nat; Draw 2%nat; Detected 3%nat detection].

End Demo.

(** File systems for the examples. *)
Module DemoFS.

Definition kara : Path.t := Ex.chapter ++ [".kara"].

(** The sidecar of the first page holds one good entry and one without
    ["rect"]. *)
Definition damaged_entries : list pyval :=
  [PDict [("rect", PList [PFloat 1; PFloat 2; PFloat 30; PFloat 40]);
          ("kind", PStr "bubble")];
   PDict [("kind", PStr "free-text")]].
Definition damaged_doc : list (string * pyval) :=
  [("bubbles", PList damaged_entries)].
Definition fs_damaged : FS.t :=
  {| FS.dirs := FS.dirs Ex.fs0 ∪ {[ kara ]};
     FS.files := <[kara ++ ["p1.json"] :=
                     FS.TextFile (Json.Document (PDict damaged_doc))]>
                   (FS.files Ex.fs0) |}.

(** A folder sits where the sidecar of the first page belongs. *)
Definition fs_sidecar_is_folder : FS.t :=
  {| FS.dirs := FS.dirs Ex.fs0 ∪ {[ kara; kara ++ ["p1.json"] ]};
     FS.files := FS.files Ex.fs0 |}.

End DemoFS.

(* ====================================================================== *)
(** ** The Save action ([MainWindow._on_save_clicked]) *)
(* ====================================================================== *)

Module SaveAction.
Import AnnotationController.

(** What [AnnotationController.save] can find in the list it is handed: an
    [AnnotationData], or a plain value (a dict, a list, a number, ...),
    none of which has an attribute [rect], [kind], [done], [ocr] or
    [translation]. *)
Inductive pyobject :=
| Annotation (a : AnnotationData.t)
| Plain (v : pyval).

(** [o.<name>] for the five names that [save] reads. *)
Definition getattr (o : pyobject) (name : string) : result pyval :=
  match o with
  | Annotation a => AnnotationData.getattr a name
  | Plain _ => Raise (AttributeError name)
  end.

(** The dict that [save] builds for one element of the list. *)
Definition entry_of_object (ann : pyobject) : result pyval :=
  rect ← getattr ann "rect";
  kind ← getattr ann "kind";
  done_ ← getattr ann "done";
  ocr ← getattr ann "ocr";
  translation ← getattr ann "translation";
  mret (PDict [("rect", rect); ("kind", kind); ("done", done_);
               ("ocr", ocr); ("translation", translation)]).

(** [AnnotationController.save] on a list of any objects: the payload is
    built, and can fail, before the [try] block is entered. *)
Definition save (image_path : Path.t) (annotations : list pyobject)
  : M AnnotationController.t unit :=
  ann_file ← _annotation_file_for image_path;
  entries ← lift (mapM entry_of_object annotations);
  let payload := PDict [("bubbles", PList entries)] in
  try_except
    (c ← get;
     fs' ← lift (FS.write_text (fs c) ann_file (Json.dumps payload));
     modify (set_fs fs');;
     emit (annotations_saved image_path))
    (λ _, mret tt).

(** What Qt and the handlers of the property panel know about a rectangle
    item beyond [MoveableRectItem.t]: its bounding rectangle in the scene,
    and the attributes [ocr_text] and [trans] once something has assigned
    them. *)
Record rect_env := {
  sceneBoundingRect : rect_ref → Qt.QRectF;
  ocr_text : rect_ref → option pyval;
  trans : rect_ref → option pyval;
}.

(** The window as the Save action sees it. *)
Record t := {
  cur_img_path : option Path.t;
  registry : MainWindow.t;               (* _rect_list, items, _dirty *)
  annotations : AnnotationController.t;
}.

Definition on_annotations {A} (m : M AnnotationController.t A) : M t A :=
  λ s, let (r, c) := m (annotations s) in
       (r, {| cur_img_path := cur_img_path s; registry := registry s;
              annotations := c |}).

Definition set_clean (s : t) : t :=
  {| cur_img_path := cur_img_path s;
     registry := MainWindow.set_dirty false (registry s);
     annotations := annotations s |}.

(** The dict that [_on_save_clicked] builds for one rectangle. *)
Definition annotation_dict (env : rect_env) (w : MainWindow.t)
    (rect : rect_ref) : pyval :=
  let geo := sceneBoundingRect env rect in
  PDict [("rect", PList [PFloat (Qt.x geo); PFloat (Qt.y geo);
                         PFloat (Qt.width geo); PFloat (Qt.height geo)]);
         ("kind", PStr (MoveableRectItem.kind (MainWindow.rect_items w rect)));
         ("done",
          PBool (MoveableRectItem._done (MainWindow.rect_items w rect)));
         ("ocr", from_option id (PStr "") (ocr_text env rect));
         ("translation", from_option id (PStr "") (trans env rect))].

(** How [_on_save_clicked] ends: with the "No page loaded" warning, with
    the "Save Failed" box, or with the "Saved annotations" status. *)
Inductive outcome :=
| NoPageLoaded
| SaveFailed (e : exn)
| Saved.

Definition _on_save_clicked (env : rect_env) : M t outcome :=
  s ← get;
  (* 1. Ensure there's something to save *)
  match cur_img_path s with
  | None => mret NoPageLoaded
  | Some path =>
      (* 2. Build a list of annotation dicts from the UI state *)
      let ann_list :=
        (λ p, Plain (annotation_dict env (registry s) p.2))
        <$> MainWindow._rect_list (registry s) in
      (* 3. Delegate to controller *)
      try_except
        (on_annotations (save path ann_list);;
         (* 4. Mark clean and notify user *)
         modify set_clean;;
         mret Saved)
        (λ e, mret (SaveFailed e))
  end.

End SaveAction.

(* ====================================================================== *)
(** ** [PanelViewer]: image, zoom and point clamping
       ([src/gui/viewer/panel_viewer.py], [kara/gui/widgets.py]) *)
(* ====================================================================== *)

Module PanelView.

(** What the viewer asks of its [QGraphicsView] base class. *)
Inductive view_call :=
| FitInView
| Scale (sx sy : Q).

(** [a <= b] on finite floats. *)
Global Instance Qle_dec (a b : Q) : Decision (a <= b)%Q.
Proof. unfold Qle. apply _. Defined.

(** [round(x)] of a finite float: to the nearest integer, a tie to the even
    one. *)
Definition py_round (q : Q) : Z :=
  let f := Qnum q / Z.pos (Qden q) in  (* floor *)
  let r := (q - inject_Z f)%Q in
  if decide (r < 1 # 2)%Q then f
  else if decide ((1 # 2) < r)%Q then f + 1
  else if Z.even f then f else f + 1.

(** The image and zoom state of the viewer.  [viewer] holds [_orig_cv] and
    whether the pixmap of [_photo_item] is null; [pixmap_size] is the
    [width()] and [height()] of that pixmap; [_scale] and [_zoom] are the
    attributes that [_apply_zoom] creates; [view_calls] and [zoom_changed]
    log the calls on the base class and the emitted signal values, oldest
    first. *)
Record t := {
  viewer : PanelViewer.t;
  pixmap_size : Z * Z;
  _current_scale : Q;
  _zoom_percent : Z;
  _scale : option Q;
  _zoom : option Z;
  view_calls : list view_call;
  zoom_changed : list Z;
}.

(** The state after [__init__]. *)
Definition init : t :=
  {| viewer := {| PanelViewer._orig_cv := None;
                  PanelViewer.pixmap_isNull := true |};
     pixmap_size := (0, 0);
     _current_scale := 1; _zoom_percent := 100;
     _scale := None; _zoom := None;
     view_calls := []; zoom_changed := [] |}.

Definition MIN_SCALE : Q := 1 # 10.
Definition MAX_SCALE : Q := 5.
Definition ZOOM_IN_FACTOR : Q := 5 # 4.
Definition ZOOM_OUT_FACTOR : Q := 4 # 5.

Definition has_photo (v : t) : bool :=
  negb (PanelViewer.pixmap_isNull (viewer v)).

(** [zoom] (the property) *)
Definition zoom (v : t) : Z := _zoom_percent v.

(** [load_cv2_image]: a [QImage] without width or height is null, and so is
    the pixmap made from it. *)
Definition load_cv2_image (cv_img : PanelViewer.ndarray) (v : t) : t :=
  let '(h, w, _) := PanelViewer.shape cv_img in
  let null := bool_decide (h = 0 ∨ w = 0)%nat in
  {| viewer := {| PanelViewer._orig_cv := Some cv_img;
                  PanelViewer.pixmap_isNull := null |};
     pixmap_size := if null then (0, 0) else (Z.of_nat w, Z.of_nat h);
     (* Reset any transforms *)
     _current_scale := 1; _zoom_percent := 100;
     _scale := _scale v; _zoom := _zoom v;
     view_calls := view_calls v ++ [FitInView];
     zoom_changed := zoom_changed v ++ [100] |}.

(** [fit_to_window]; the pixmap cache is the pixmap of [_photo_item]. *)
Definition fit_to_window (v : t) : t :=
  if PanelViewer.pixmap_isNull (viewer v) then v else
  {| viewer := viewer v; pixmap_size := pixmap_size v;
     _current_scale := 1; _zoom_percent := 100;
     _scale := _scale v; _zoom := _zoom v;
     view_calls := view_calls v ++ [FitInView];
     zoom_changed := zoom_changed v ++ [100] |}.

Definition _apply_zoom (factor : Q) (v : t) : t :=
  let new_scale := (_current_scale v * factor)%Q in
  if negb (bool_decide (MIN_SCALE <= new_scale)%Q
           && bool_decide (new_scale <= MAX_SCALE)%Q) then v else
  (* Just scale the view *)
  let zoom_ := py_round (new_scale * 100)%Q in
  {| viewer := viewer v; pixmap_size := pixmap_size v;
     _current_scale := _current_scale v; _zoom_percent := _zoom_percent v;
     _scale := Some new_scale; _zoom := Some zoom_;
     view_calls := view_calls v ++ [Scale factor factor];
     zoom_changed := zoom_changed v ++ [zoom_] |}.

(** [wheelEvent] with the Ctrl key: zoom.  (Without it the event scrolls
    the view, which changes nothing here.) *)
Definition wheelEvent (angle : Z) (ctrl : bool) (v : t) : t :=
  if has_photo v && ctrl then
    _apply_zoom (if decide (angle > 0) then ZOOM_IN_FACTOR
                 else ZOOM_OUT_FACTOR) v
  else v.

(** [crop_region] *)
Definition crop_region (v : t) (rect : Qt.QRectF)
  : option PanelViewer.ndarray := PanelViewer.crop_region (viewer v) rect.



(** What happens to the viewer. *)
Inductive event :=
| Load (cv_img : PanelViewer.ndarray)
| Fit
| Wheel (angle : Z) (ctrl : bool).

Definition handle (e : event) (v : t) : t :=
  match e with
  | Load cv_img => load_cv2_image cv_img v
  | Fit => fit_to_window v
  | Wheel angle ctrl => wheelEvent angle ctrl v
  end.

Definition run (es : list event) (v : t) : t := foldl (flip handle) v es.

End PanelView.

(* ====================================================================== *)
(** ** Resizing a rectangle item
       ([MoveableRectItem.mouseMoveEvent],
        [src/gui/item/moveable_rect_item.py], [kara/gui/widgets.py]) *)
(* ====================================================================== *)

Module Resize.

(** [QRectF]: the edges, and the setters that the resize code uses.
    [setLeft] and [setTop] keep the opposite edge, [setRight], [setBottom],
    [setWidth] and [setHeight] keep the top left corner, [moveRight] and
    [moveBottom] keep the size. *)
Definition left (r : Qt.QRectF) : Q := Qt.x r.
Definition right (r : Qt.QRectF) : Q := (Qt.x r + Qt.width r)%Q.






End Resize.

(** Windows for the examples of the Save action. *)
Module DemoSave.

Definition env : SaveAction.rect_env :=
  {| SaveAction.sceneBoundingRect := λ _,
       {| Qt.x := 0; Qt.y := 0; Qt.width := 10; Qt.height := 10 |};
     SaveAction.ocr_text := λ _, None;
     SaveAction.trans := λ _, None |}.

(** The first page with one bubble drawn on it. *)
Definition window : SaveAction.t :=
  {| SaveAction.cur_img_path := Some (Ex.page "p1.jpg");
     SaveAction.registry :=
       MainWindow.set_dirty true
         (MainWindow._add_bubble (RectItem 1%nat)
            (MainWindow.init Ex.heap0)).2;
     SaveAction.annotations := AnnotationController.init Ex.fs0 |}.

(** The first page without bubbles, modified, with a folder at the
    sidecar path. *)
Definition blocked : SaveAction.t :=
  {| SaveAction.cur_img_path := Some (Ex.page "p1.jpg");
     SaveAction.registry :=
       MainWindow.set_dirty true (MainWindow.init Ex.heap0);
     SaveAction.annotations :=
       AnnotationController.init DemoFS.fs_sidecar_is_folder |}.

End DemoSave.

(* ====================================================================== *)
(** ** [MainWindow.on_tree_clicked] ([src/app/main_window.py]) *)
(* ====================================================================== *)

Module TreeView.
Import Navigation.

(** [str.lower()] on the letters A to Z; no other character becomes one of
    the letters of [".jpg"]. *)
Definition lower_char (c : ascii) : ascii :=
  let n := nat_of_ascii c in
  if decide (65 ≤ n ≤ 90)%nat then ascii_of_nat (n + 32) else c.

Fixpoint lower (s : string) : string :=
  match s with
  | EmptyString => EmptyString
  | String c s' => String (lower_char c) (lower s')
  end.

(** [PurePath.suffix]: the last suffix of the name with its dot; a leading
    or a trailing dot does not start a suffix. *)
Definition suffix (p : Path.t) : string :=
  let n := Path.name p in
  match Path.rfind "."%char n 0%nat with
  | Some i =>
      if decide (0 < i < String.length n - 1)%nat
      then substring i (String.length n - i) n else ""
  | None => ""
  end.

(** [on_tree_clicked] for the file at [path].  As in [load_page], the
    bubble registry and the viewer are written but never read and are left
    out, and the slot [on_annotations_loaded] resets [_dirty] when it runs
    to its end. *)
Definition on_tree_clicked (u : ui) (path : Path.t) : M t unit :=
  if decide (lower (suffix path) = ".jpg") then
    (* img = cv2.imread(str(path)); the image goes to the viewer *)
    modify (set_cur_img_path (Some path));;
    (* clear current bubbles & image *)
    (* ask controller to load json *)
    on_annotations (AnnotationController.load path);;
    modify (λ s, if annotations_rebuilt u then set_dirty false s else s);;
    (* now that cur_img_path is set, wire up page navigation *)
    modify (λ s, set_pages
      (sorted (FS.glob_jpg (AnnotationController.fs (annotations s))
                           (Path.parent path))) s);;
    s ← get;
    idx ← lift (index (pages s) path);
    let has_prev := bool_decide (idx > 0) in
    let has_next := bool_decide (idx < Z.of_nat (length (pages s)) - 1) in
    modify (set_index idx has_prev has_next)
  else mret tt.

(** The answers of a user who confirms every "Discard annotations?" box. *)
Definition confirming (u : ui) : ui :=
  {| discard_confirmed := true; annotations_rebuilt := annotations_rebuilt u |}.

End TreeView.
(* ====================================================================== *)
(** * Proofs *)
(* ====================================================================== *)

(** Unfolds the monad down to pairs of a result and a state. *)
Ltac unfold_monad :=
  unfold self, on_main, set_self in *;
  unfold mbind, mret, M_bind, M_ret, result_bind, result_ret,
    Py.bind, Py.ret, Py.get, Py.modify, Py.raise, Py.lift, Py.try_except
    in *.

Section list_facts.
Context {A : Type}.
Implicit Types l : list A.

Lemma insert_at_length i (a : A) l :
  length (insert_at i a l) = S (length l).
Proof.
  unfold insert_at. rewrite length_app. cbn [length].
  rewrite length_take, length_drop. lia.
Qed.

Lemma insert_at_lookup i (a : A) l :
  (i ≤ length l)%nat → insert_at i a l !! i = Some a.
Proof.
  intros Hi. unfold insert_at.
  rewrite lookup_app_r by (rewrite length_take; lia).
  rewrite length_take, Nat.min_l by lia. by rewrite Nat.sub_diag.
Qed.

Lemma insert_at_delete i (a : A) l :
  l !! i = Some a → insert_at i a (delete i l) = l.
Proof.
  intros Hi. unfold insert_at. rewrite delete_take_drop.
  assert (length (take i l) = i) as Hlen
    by (apply lookup_lt_Some in Hi; rewrite length_take; lia).
  rewrite take_app_length', drop_app_length' by done.
  by apply take_drop_middle.
Qed.

Lemma insert_at_fmap {B} (f : A → B) i (a : A) l :
  f <$> insert_at i a l = insert_at i (f a) (f <$> l).
Proof.
  unfold insert_at. by rewrite fmap_app, fmap_cons, fmap_take, fmap_drop.
Qed.

Lemma insert_at_elem_of i (a b : A) l :
  b ∈ insert_at i a l ↔ b = a ∨ b ∈ l.
Proof.
  unfold insert_at. rewrite elem_of_app, elem_of_cons.
  assert (b ∈ l ↔ b ∈ take i l ∨ b ∈ drop i l) as ->
    by (by rewrite <- elem_of_app, take_drop).
  tauto.
Qed.

Lemma insert_at_NoDup i (a : A) l :
  a ∉ l → NoDup l → NoDup (insert_at i a l).
Proof.
  intros Ha Hl. unfold insert_at.
  rewrite <- (take_drop i l) in Hl, Ha.
  apply NoDup_app in Hl as (H1 & H2 & H3).
  rewrite elem_of_app in Ha.
  apply NoDup_app. split_and!; [done| |].
  - intros b Hb [->|Hb']%elem_of_cons; [tauto|]. by eapply H2.
  - apply NoDup_cons. tauto.
Qed.

Lemma insert_at_lookup_clamped i (a : A) l :
  insert_at i a l !! (i `min` length l)%nat = Some a.
Proof.
  unfold insert_at.
  rewrite lookup_app_r by (rewrite length_take; lia).
  rewrite length_take. by rewrite Nat.sub_diag.
Qed.

End list_facts.

Section registry_invariant.
Import MainWindow Inv.

Lemma extends_refl w : extends w w.
Proof. by split. Qed.

Lemma extends_trans w1 w2 w3 : extends w1 w2 → extends w2 w3 → extends w1 w3.
Proof.
  intros [H1 H2] [H3 H4]. split; [lia|].
  intros li Hli. rewrite H4, H2 by lia. done.
Qed.

Lemma genuine_extends w w' c : extends w w' → genuine w c → genuine w' c.
Proof.
  intros [Hle Hsame]. unfold genuine.
  destruct (RemoveBubbleCommand._row c), (RemoveBubbleCommand._listitem c);
    try done.
  intros [Hlt Hdata]. split; [lia|]. by rewrite Hsame.
Qed.

Lemma insert_at_end {A} (a : A) (l : list A) :
  insert_at (length l) a l = l ++ [a].
Proof. unfold insert_at. by rewrite take_ge, drop_ge by lia. Qed.

Lemma wf_add_bubble o w :
  wf w → wf (_add_bubble o w).2 ∧ extends w (_add_bubble o w).2.
Proof.
  intros Hwf. destruct o as [r|]; [|split; [done|apply extends_refl]].
  unfold _add_bubble. unfold_monad.
  destruct (decide _) as [|Hr]; [split; [done|apply extends_refl]|].
  unfold new_list_item. cbn [set_rect_list _rect_list bubble_list next_item].
  unfold Qt.addItem, Qt.insertItem.
  destruct (decide (_ ∈ Qt.deleted _)) as [Hd|_].
  { apply (wf_deleted _ Hwf) in Hd. lia. }
  destruct (decide (_ ∈ Qt.rows _)) as [Hd|Hnew].
  { apply (wf_fresh _ Hwf) in Hd. lia. }
  unfold Qt.count. rewrite insert_at_end. cbn.
  split.
  - destruct Hwf as [H1 H2 H3 H4 H5 H6]. split; cbn.
    + rewrite fmap_app. by rewrite H1.
    + apply NoDup_app. split_and!; [done| |apply NoDup_singleton].
      intros li Hli ->%list_elem_of_singleton. done.
    + intros li [Hli| ->%list_elem_of_singleton]%elem_of_app; [|lia].
      apply H3 in Hli. lia.
    + intros li [Hli| ->%list_elem_of_singleton]%elem_of_app; [by apply H4|].
      intros Hd%H5. lia.
    + intros li Hli%H5. lia.
    + intros li r' [Hli| Heq%list_elem_of_singleton]%elem_of_app.
      * assert (li ≠ next_item w).
        { intros ->. apply Hnew. rewrite <- H1.
          by apply (list_elem_of_fmap_2 fst) in Hli. }
        rewrite fn_lookup_insert_ne by done. by apply H6.
      * simplify_eq. by rewrite fn_lookup_insert.
  - split; cbn; [lia|]. intros li Hli.
    rewrite fn_lookup_insert_ne by lia. done.
Qed.

Lemma list_find_NoDup {A} `{EqDecision A} (l : list A) k a :
  NoDup l → l !! k = Some a → list_find (a =.) l = Some (k, a).
Proof.
  intros Hnd Hk. apply list_find_Some. split_and!; [done..|].
  intros j y Hj Hlt <-. pose proof (NoDup_lookup _ _ _ _ Hnd Hk Hj). lia.
Qed.

Lemma NoDup_delete {A} (l : list A) k : NoDup l → NoDup (delete k l).
Proof. intros Hnd. eapply sublist_NoDup; [done|apply sublist_delete]. Qed.

Lemma wf_remove_bubble idx w :
  wf w → wf (_remove_bubble idx w).2 ∧ extends w (_remove_bubble idx w).2.
Proof.
  intros Hwf. unfold _remove_bubble. unfold_monad.
  unfold pop. destruct (norm_index _ _) as [k|]; [|by split; [|apply extends_refl]].
  destruct (_rect_list w !! k) as [[li rect]|] eqn:Hk;
    [|by split; [|apply extends_refl]].
  cbn. destruct Hwf as [H1 H2 H3 H4 H5 H6].
  assert (Qt.rows (bubble_list w) !! k = Some li) as Hrow.
  { rewrite <- H1, list_lookup_fmap, Hk. done. }
  assert (li ∈ Qt.rows (bubble_list w)) as Hin
    by (apply list_elem_of_lookup; eauto).
  unfold Qt.row. destruct (decide _) as [Hd|_]; [by apply H4 in Hin|].
  rewrite (list_find_NoDup _ k li) by done. cbn.
  unfold Qt.takeItem, Qt.count.
  apply lookup_lt_Some in Hrow as Hlt.
  destruct (decide (0 ≤ _ < _)) as [_|]; [|lia]. rewrite Nat2Z.id.
  split; [|by split].
  split; cbn.
  - by rewrite list_fmap_delete, H1.
  - by apply NoDup_delete.
  - intros li' Hli'%list_elem_of_delete_inv. by apply H3.
  - intros li' Hli'%list_elem_of_delete_inv. by apply H4.
  - done.
  - intros li' r' Hli'%list_elem_of_delete_inv. by apply H6.
Qed.

Lemma wf_remove_bubble_for rect w :
  wf w →
  wf (_remove_bubble_for rect w).2 ∧ extends w (_remove_bubble_for rect w).2.
Proof.
  intros Hwf. unfold _remove_bubble_for. unfold_monad.
  destruct (list_find _ _) as [[idx ?]|]; [|by split; [|apply extends_refl]].
  by apply wf_remove_bubble.
Qed.

Lemma wf_clear_bubbles w :
  wf w → wf (clear_bubbles w).2 ∧ extends w (clear_bubbles w).2.
Proof.
  intros [H1 H2 H3 H4 H5 H6]. split; [|by split].
  split; cbn; try done.
  - apply NoDup_nil_2.
  - intros li Hli. by apply elem_of_nil in Hli.
  - intros li Hli. by apply elem_of_nil in Hli.
  - intros li [Hli|Hli%elem_of_list_to_set]%elem_of_union; auto.
  - intros li r Hli. by apply elem_of_nil in Hli.
Qed.

Lemma genuine_init w rect_item description :
  wf w → genuine w (RemoveBubbleCommand.init w rect_item description).
Proof.
  intros Hwf. unfold genuine, RemoveBubbleCommand.init. cbn.
  destruct (list_find _ _) as [[row li]|] eqn:Hfind; cbn; [|done].
  apply list_find_Some in Hfind as (Hrow & Hdata & _).
  split; [|done]. apply (wf_fresh _ Hwf), list_elem_of_lookup. eauto.
Qed.

Lemma redo_keeps_command c w :
  (RemoveBubbleCommand.redo (c, w)).2.1 = c ∧
  (RemoveBubbleCommand.redo (c, w)).2.2
    = (_remove_bubble_for (RemoveBubbleCommand._rect_item c) w).2.
Proof.
  unfold RemoveBubbleCommand.redo. unfold_monad. cbn.
  by destruct (_remove_bubble_for _ w).
Qed.

Lemma undo_keeps_command c w : (RemoveBubbleCommand.undo (c, w)).2.1 = c.
Proof.
  unfold RemoveBubbleCommand.undo. unfold_monad. cbn.
  destruct (RemoveBubbleCommand._row c), (RemoveBubbleCommand._listitem c);
    cbn; try done.
  destruct (Qt.insertItem _ _ _); cbn; [|done].
  unfold viewer_add_graphics_item, scene_addItem, _mark_dirty.
  by unfold_monad.
Qed.

Lemma wf_undo c w :
  wf w → genuine w c → Registry.detached w c = true →
  wf (RemoveBubbleCommand.undo (c, w)).2.2 ∧
  extends w (RemoveBubbleCommand.undo (c, w)).2.2.
Proof.
  intros Hwf Hgen Hdet. unfold RemoveBubbleCommand.undo. unfold_monad. cbn.
  unfold genuine, Registry.detached in *.
  destruct (RemoveBubbleCommand._row c) as [row|],
    (RemoveBubbleCommand._listitem c) as [li|];
    cbn; try done; try (by split; [|apply extends_refl]).
  destruct Hgen as [Hlt Hdata].
  apply andb_prop in Hdet as [Hrows%bool_decide_eq_true Hdel%bool_decide_eq_true].
  unfold Qt.insertItem. cbn.
  destruct (decide _) as [|_]; [done|]. destruct (decide _) as [|_]; [done|].
  unfold viewer_add_graphics_item, scene_addItem, _mark_dirty.
  unfold_monad. cbn.
  match goal with |- wf ?w' ∧ _ => set (w1 := w') end.
  assert (_rect_list w1
            = insert_at row (li, RemoveBubbleCommand._rect_item c)
                (_rect_list w)
          ∧ bubble_list w1
            = {| Qt.rows := insert_at row li (Qt.rows (bubble_list w));
                 Qt.deleted := Qt.deleted (bubble_list w) |}
          ∧ next_item w1 = next_item w ∧ list_items w1 = list_items w)
    as (E1 & E2 & E3 & E4) by (subst w1; by destruct (_dirty w)).
  clearbody w1.
  split; [|split; [lia|by intros; rewrite E4]].
  destruct Hwf as [H1 H2 H3 H4 H5 H6].
  split; rewrite ?E1, ?E2, ?E3, ?E4; cbn.
  - by rewrite insert_at_fmap, H1.
  - by apply insert_at_NoDup.
  - intros li' [->|Hli']%insert_at_elem_of; auto.
  - intros li' [->|Hli']%insert_at_elem_of; auto.
  - done.
  - intros li' r' [?|Hli']%insert_at_elem_of; [by simplify_eq|auto].
Qed.

Lemma wf_world_step o s :
  wf_world s → Registry.undo_in_turn [o] s = true → wf_world (Registry.step o s).
Proof.
  intros [Hwf Hcmds] Hturn.
  assert (∀ w', wf w' ∧ extends (Registry.win s) w' →
    wf_world {| Registry.win := w'; Registry.cmds := Registry.cmds s |}) as Hkeep.
  { intros w' [Hwf' Hext]. split; [done|]. cbn.
    eapply Forall_impl; [done|]. intros c. by apply genuine_extends. }
  destruct o as [o|idx|rect| |rect|k|k]; cbn.
  - apply Hkeep, wf_add_bubble, Hwf.
  - apply Hkeep, wf_remove_bubble, Hwf.
  - apply Hkeep, wf_remove_bubble_for, Hwf.
  - apply Hkeep, wf_clear_bubbles, Hwf.
  - split; [done|]. cbn. apply Forall_app. split; [done|].
    apply Forall_singleton. by apply genuine_init.
  - destruct (Registry.cmds s !! k) as [c|] eqn:Hk; [|done].
    pose proof (redo_keeps_command c (Registry.win s)) as [Hc Hw].
    destruct (RemoveBubbleCommand.redo _) as [? [c' w']]. cbn in *. subst.
    rewrite list_insert_id by done.
    apply Hkeep, wf_remove_bubble_for, Hwf.
  - cbn in Hturn. destruct (Registry.cmds s !! k) as [c|] eqn:Hk; [|done].
    rewrite andb_true_r in Hturn.
    pose proof (undo_keeps_command c (Registry.win s)) as Hc.
    pose proof (wf_undo c (Registry.win s) Hwf) as Hw.
    destruct (RemoveBubbleCommand.undo _) as [? [c' w']]. cbn in *. subst.
    rewrite list_insert_id by done.
    apply Hkeep, Hw; [|done]. by eapply Forall_lookup_1 in Hcmds.
Qed.

Lemma wf_world_run ops s :
  wf_world s → Registry.undo_in_turn ops s = true →
  wf_world (Registry.run ops s).
Proof.
  revert s. induction ops as [|o ops IH]; intros s Hwf Hturn; [done|].
  cbn in Hturn. apply andb_prop in Hturn as [Ho Hops].
  cbn. apply IH; [|done]. apply wf_world_step; [done|].
  cbn. by rewrite Ho.
Qed.

Lemma wf_world_start heap : wf_world (Registry.start heap).
Proof.
  split; [|by apply Forall_nil].
  split; cbn; [done|apply NoDup_nil_2|set_solver..].
Qed.

Lemma wf_consistent w : wf w → Registry.consistent w.
Proof.
  intros Hwf. unfold Registry.consistent, Qt.count, Qt.item.
  rewrite <- (wf_rows _ Hwf). split; [by rewrite length_fmap|].
  intros i. by rewrite list_lookup_fmap.
Qed.

(** The effect of [_remove_bubble] on a row that exists. *)
Lemma remove_bubble_effect w idx k li rect :
  wf w → norm_index (length (_rect_list w)) idx = Some k →
  _rect_list w !! k = Some (li, rect) →
  ∃ w', _remove_bubble idx w = (Ok tt, w') ∧
    _rect_list w' = delete k (_rect_list w) ∧
    bubble_list w'
      = {| Qt.rows := delete k (Qt.rows (bubble_list w));
           Qt.deleted := Qt.deleted (bubble_list w) |} ∧
    scene_items w' = scene_items w ∖ {[ rect ]} ∧
    next_item w' = next_item w ∧ list_items w' = list_items w.
Proof.
  intros [H1 H2 H3 H4 H5 H6] Hidx Hk.
  unfold _remove_bubble. unfold_monad. unfold pop. rewrite Hidx, Hk. cbn.
  assert (Qt.rows (bubble_list w) !! k = Some li) as Hrow
    by (by rewrite <- H1, list_lookup_fmap, Hk).
  assert (li ∈ Qt.rows (bubble_list w)) as Hin
    by (apply list_elem_of_lookup; eauto).
  unfold Qt.row. destruct (decide _) as [Hd|_]; [by apply H4 in Hin|].
  rewrite (list_find_NoDup _ k li) by done. cbn.
  unfold Qt.takeItem, Qt.count.
  apply lookup_lt_Some in Hrow as Hlt.
  destruct (decide (0 ≤ _ < _)) as [_|]; [|lia]. rewrite Nat2Z.id.
  eexists. split; [done|]. by cbn.
Qed.

(** The row that the constructor of [RemoveBubbleCommand] captures is the
    one that [_remove_bubble_for] removes. *)
Lemma captured_row w rect_item description r li :
  wf w →
  let c := RemoveBubbleCommand.init w rect_item description in
  RemoveBubbleCommand._row c = Some r →
  RemoveBubbleCommand._listitem c = Some li →
  Qt.rows (bubble_list w) !! r = Some li ∧
  _rect_list w !! r = Some (li, rect_item) ∧
  list_find (λ p, p.2 = rect_item) (_rect_list w) = Some (r, (li, rect_item)).
Proof.
  intros Hwf c. unfold c, RemoveBubbleCommand.init. cbn.
  destruct (list_find _ (Qt.rows _)) as [[r' li']|] eqn:Hfind; [|done].
  cbn. intros [= ->] [= ->].
  apply list_find_Some in Hfind as (Hrow & Hdata & Hmin).
  assert (∀ j lj, Qt.rows (bubble_list w) !! j = Some lj →
            ∃ rj, _rect_list w !! j = Some (lj, rj) ∧
                  Qt.user_data (list_items w lj) = Some rj) as Hpair.
  { intros j lj Hj. rewrite <- (wf_rows _ Hwf), list_lookup_fmap in Hj.
    destruct (_rect_list w !! j) as [[lj' rj]|] eqn:Hj'; simplify_eq/=.
    exists rj. split; [done|]. apply (wf_data _ Hwf).
    apply list_elem_of_lookup. eauto. }
  destruct (Hpair _ _ Hrow) as (rj & Hr & Hd).
  assert (rj = rect_item) as -> by congruence.
  split_and!; [done..|].
  apply list_find_Some. split_and!; [done..|].
  intros j [lj rj] Hj Hlt. cbn. intros ->.
  assert (Qt.rows (bubble_list w) !! j = Some lj) as Hj'
    by (by rewrite <- (wf_rows _ Hwf), list_lookup_fmap, Hj).
  destruct (Hpair _ _ Hj') as (rj & Hr' & Hd'). simplify_eq.
  by eapply Hmin.
Qed.

(** The effect of [RemoveBubbleCommand.undo] when the captured list item is
    a live item outside the widget. *)
Lemma undo_effect c w row li :
  RemoveBubbleCommand._row c = Some row →
  RemoveBubbleCommand._listitem c = Some li →
  li ∉ Qt.rows (bubble_list w) → li ∉ Qt.deleted (bubble_list w) →
  ∃ w', RemoveBubbleCommand.undo (c, w) = (Ok tt, (c, w')) ∧
    _rect_list w'
      = insert_at row (li, RemoveBubbleCommand._rect_item c) (_rect_list w) ∧
    bubble_list w'
      = {| Qt.rows := insert_at row li (Qt.rows (bubble_list w));
           Qt.deleted := Qt.deleted (bubble_list w) |} ∧
    scene_items w' = scene_items w ∪ {[ RemoveBubbleCommand._rect_item c ]} ∧
    next_item w' = next_item w ∧ list_items w' = list_items w ∧
    _dirty w' = true.
Proof.
  intros Hrow Hli Hrows Hdel.
  unfold RemoveBubbleCommand.undo. unfold_monad. cbn. rewrite Hrow, Hli. cbn.
  unfold Qt.insertItem.
  destruct (decide _) as [|_]; [done|]. destruct (decide _) as [|_]; [done|].
  unfold viewer_add_graphics_item, scene_addItem, _mark_dirty.
  unfold_monad. cbn.
  eexists. split; [done|]. by destruct (_dirty w) eqn:E; cbn; rewrite ?E.
Qed.

(** At any later moment [undo] puts the list item and the rectangle into the
    same row of both lists: the captured row, or the end when the lists have
    become shorter than that. *)
Lemma undo_inserts_at_clamped_row c w row li :
  wf w →
  RemoveBubbleCommand._row c = Some row →
  RemoveBubbleCommand._listitem c = Some li →
  li ∉ Qt.rows (bubble_list w) → li ∉ Qt.deleted (bubble_list w) →
  ∃ w', RemoveBubbleCommand.undo (c, w) = (Ok tt, (c, w')) ∧
    let r := (row `min` length (_rect_list w))%nat in
    _rect_list w' !! r = Some (li, RemoveBubbleCommand._rect_item c) ∧
    Qt.item (bubble_list w') r = Some li.
Proof.
  intros Hwf Hrow Hli Hout Halive.
  destruct (undo_effect c w row li Hrow Hli Hout Halive)
    as (w' & Hrun & E1 & E2 & _).
  exists w'. split; [done|]. cbn. rewrite E1, E2. unfold Qt.item. cbn.
  split; [apply insert_at_lookup_clamped|].
  rewrite <- (length_fmap fst), (wf_rows _ Hwf).
  apply insert_at_lookup_clamped.
Qed.

(** C1, as the code has it.  After any sequence of calls of [_add_bubble],
    [_remove_bubble], [_remove_bubble_for], [clear_bubbles] and of the
    [redo] and [undo] of [RemoveBubbleCommand] objects created along the way,
    in which every [undo] finds the list item of its command alive and
    outside the list widget (as the command's [redo] leaves it), the pair
    list [_rect_list] and the widget [bubble_list] have the same length and
    the i-th row of the widget is the list item of the i-th pair. *)
Theorem registry_lists_stay_consistent heap ops :
  Registry.undo_in_turn ops (Registry.start heap) = true →
  Registry.consistent
    (Registry.win (Registry.run ops (Registry.start heap))).
Proof.
  intros Hturn. apply wf_consistent.
  by apply (wf_world_run ops (Registry.start heap) (wf_world_start heap)).
Qed.

Lemma registry_lists_stay_consistent_witness :
  Registry.undo_in_turn Ex.session (Registry.start Ex.heap0) = true ∧
  Registry.consistent
    (Registry.win (Registry.run Ex.session (Registry.start Ex.heap0))).
Proof.
  split; [reflexivity|].
  apply (registry_lists_stay_consistent Ex.heap0 Ex.session). reflexivity.
Defined.

(** C1 fails as stated: [undo] of a [RemoveBubbleCommand] whose rectangle is
    still registered puts a second pair into [_rect_list], while the list
    widget ignores an item that it already holds. *)
Lemma registry_lists_diverge :
  length (_rect_list
    (Registry.win (Registry.run Ex.undo_first (Registry.start Ex.heap0))))
  = 2%nat ∧
  Qt.count (bubble_list
    (Registry.win (Registry.run Ex.undo_first (Registry.start Ex.heap0))))
  = 1%nat ∧
  ¬ Registry.consistent
      (Registry.win (Registry.run Ex.undo_first (Registry.start Ex.heap0))).
Proof.
  split_and!; [reflexivity..|].
  intros [Hlen _]. vm_compute in Hlen. discriminate.
Qed.

(** The same divergence inside the redo/undo order of an undo stack: after
    [clear_bubbles] has destroyed the restored list item, the next [undo] of
    the command inserts its pair and then fails on the dead item. *)
Lemma registry_lists_diverge_after_clear :
  let s := Registry.run Ex.undo_after_clear (Registry.start Ex.heap0) in
  _rect_list (Registry.win s) = [(0%nat, 0%nat)] ∧
  Qt.rows (bubble_list (Registry.win s)) = [].
Proof. split; reflexivity. Qed.



End registry_invariant.

(* ---------------------------------------------------------------------- *)
(** *** The commands as objects *)

(** [redo] of an [AddBubbleCommand] stores what [_add_bubble] returned. *)
Lemma add_redo_stores_list_item a w :
  let w0 := (MainWindow.scene_addItem (AddBubbleCommand.rect a) w).2 in
  ∀ li w',
    MainWindow._add_bubble (RectItem (AddBubbleCommand.rect a)) w0
      = (Ok li, w') →
    AddBubbleCommand.redo (a, w)
    = (Ok tt, ({| AddBubbleCommand.rect := AddBubbleCommand.rect a;
                  AddBubbleCommand.list_item := li;
                  AddBubbleCommand.description :=
                    AddBubbleCommand.description a |}, w')).
Proof.
  intros w0 li w' Hadd. subst w0.
  unfold AddBubbleCommand.redo, MainWindow.scene_addItem in *.
  unfold_monad. cbn [fst snd] in *. by rewrite Hadd.
Qed.

Lemma call_keeps_fields m c w : fields_kept c (call m c w).2.1.
Proof.
  destruct c as [a|a|a], m; cbn.
  - unfold run_on, AddBubbleCommand.redo, MainWindow.scene_addItem.
    unfold_monad. cbn [fst snd].
    destruct (MainWindow._add_bubble _ _) as [[li|e] w']; by cbn.
  - unfold run_on, AddBubbleCommand.undo. unfold_monad. cbn [fst snd].
    destruct (MainWindow._remove_bubble_for _ _) as [[?|e] w']; by cbn.
  - unfold run_on.
    pose proof (redo_keeps_command a w) as [Ha _].
    destruct (RemoveBubbleCommand.redo _) as [? [a' w']]. by cbn in *.
  - unfold run_on.
    pose proof (undo_keeps_command a w) as Ha.
    destruct (RemoveBubbleCommand.undo _) as [? [a' w']]. by cbn in *.
  - done.
  - done.
Qed.

Lemma fields_kept_trans c1 c2 c3 :
  fields_kept c1 c2 → fields_kept c2 c3 → fields_kept c1 c3.
Proof.
  destruct c1, c2, c3; cbn; try done; try congruence.
  intros [] []. split; congruence.
Qed.

(** C2, as the code has it.  Whatever sequence of [redo] and [undo] calls is
    made on a command object: a [RemoveBubbleCommand] and a
    [MoveBubbleCommand] keep every field as the constructor left it; an
    [AddBubbleCommand] keeps its rectangle and its description, while its
    [list_item] is overwritten by each [redo]. *)
Theorem commands_keep_their_fields ms c w :
  fields_kept c (calls ms c w).1.
Proof.
  revert c w. induction ms as [|m ms IH]; intros c w.
  - destruct c; by cbn.
  - cbn [calls]. pose proof (call_keeps_fields m c w) as Hm.
    destruct (call m c w) as [? [c' w']]. cbn [fst snd] in Hm.
    eapply fields_kept_trans; [done|apply IH].
Qed.

(** C2 fails as stated: the first [redo] of an [AddBubbleCommand] replaces
    the [None] that the constructor stored in [list_item]. *)
Lemma add_command_is_mutated :
  let c := AddBubbleCommand.init 0%nat in
  AddBubbleCommand.list_item c = None ∧
  (calls [Redo] (CAdd c) (MainWindow.init Ex.heap0)).1
  = CAdd {| AddBubbleCommand.rect := 0%nat;
            AddBubbleCommand.list_item := Some 0%nat;
            AddBubbleCommand.description := "Add Bubble" |} ∧
  (calls [Redo] (CAdd c) (MainWindow.init Ex.heap0)).1 ≠ CAdd c.
Proof. split_and!; [reflexivity..|]. intros [=]. Qed.

(** C4.  [redo] of a [MoveBubbleCommand] puts the item at
    [(new.x, new.y)] with local rectangle [(0, 0, new.width, new.height)];
    [undo] does the same from the old geometry, in particular right after
    the [redo]. *)
Theorem move_command_inverts c w :
  let it := MoveBubbleCommand._item c in
  let old := MoveBubbleCommand._old c in
  let new := MoveBubbleCommand._new c in
  ∃ w1 w2 w3,
    MoveBubbleCommand.redo (c, w) = (Ok tt, (c, w1)) ∧
    MoveableRectItem.pos (MainWindow.rect_items w1 it)
      = {| Qt.px := Qt.x new; Qt.py := Qt.y new |} ∧
    MoveableRectItem.rect (MainWindow.rect_items w1 it)
      = {| Qt.x := 0; Qt.y := 0; Qt.width := Qt.width new;
           Qt.height := Qt.height new |} ∧
    MoveBubbleCommand.undo (c, w) = (Ok tt, (c, w3)) ∧
    MoveableRectItem.pos (MainWindow.rect_items w3 it)
      = {| Qt.px := Qt.x old; Qt.py := Qt.y old |} ∧
    MoveableRectItem.rect (MainWindow.rect_items w3 it)
      = {| Qt.x := 0; Qt.y := 0; Qt.width := Qt.width old;
           Qt.height := Qt.height old |} ∧
    MoveBubbleCommand.undo (c, w1) = (Ok tt, (c, w2)) ∧
    MoveableRectItem.pos (MainWindow.rect_items w2 it)
      = {| Qt.px := Qt.x old; Qt.py := Qt.y old |} ∧
    MoveableRectItem.rect (MainWindow.rect_items w2 it)
      = {| Qt.x := 0; Qt.y := 0; Qt.width := Qt.width old;
           Qt.height := Qt.height old |}.
Proof.
  intros it old new. 
  unfold MoveBubbleCommand.redo, MoveBubbleCommand.undo,
    MoveBubbleCommand._apply, MainWindow._on_programmatic_move.
  unfold_monad. cbn.
  do 3 eexists. split_and!; try reflexivity;
    cbn; rewrite !fn_lookup_insert; reflexivity.
Qed.

(* ---------------------------------------------------------------------- *)
(** *** The annotation controller *)

Section annotation_facts.
Import AnnotationController.

Lemma parent_joinpath d x : Path.parent (Path.joinpath d x) = d.
Proof.
  unfold Path.parent, Path.joinpath. rewrite length_app. cbn.
  rewrite Nat.add_sub. by rewrite take_app_length.
Qed.

Lemma mkdir_ok fs p fs' :
  FS.mkdir fs p = Ok fs' →
  p ∈ FS.dirs fs' ∧ FS.files fs' = FS.files fs ∧ FS.mkdir fs' p = Ok fs'.
Proof.
  unfold FS.mkdir. intros H.
  repeat (destruct (decide _) in H; simplify_eq).
  - split_and!; [done..|]. by destruct (decide _).
  - cbn. split_and!; [set_solver|done|].
    destruct (decide _) as [|[]]; [done|set_solver].
Qed.

Lemma annotation_file_for_ok image_path c fs' :
  FS.mkdir (fs c) (sidecar_dir image_path) = Ok fs' →
  _annotation_file_for image_path c = (Ok (sidecar image_path), set_fs fs' c).
Proof.
  intros Hmk. unfold _annotation_file_for. unfold_monad.
  fold (sidecar_dir image_path). by rewrite Hmk.
Qed.

(** An entry written by [save] reads back as the normalised annotation. *)
Lemma annotation_of_saved_entry a :
  annotation_of_entry (Json.normalise (entry_of_annotation a))
  = Ok (AnnotationData.normalise a).
Proof. reflexivity. Qed.

Lemma parse_saved_entries anns :
  mapM annotation_of_entry
    (map Json.normalise (entry_of_annotation <$> anns))
  = Ok (AnnotationData.normalise <$> anns).
Proof.
  induction anns as [|a anns IH]; [done|].
  cbn [fmap list_fmap map mapM]. rewrite annotation_of_saved_entry.
  cbn. cbn in IH. by rewrite IH.
Qed.

Lemma parse_saved fs f anns :
  FS.files fs !! f
  = Some (FS.TextFile (Json.dumps
      (PDict [("bubbles", PList (entry_of_annotation <$> anns))]))) →
  parse fs f = Ok (AnnotationData.normalise <$> anns).
Proof.
  intros Hf. unfold parse, FS.read_text. rewrite Hf.
  change (mapM annotation_of_entry
            (map Json.normalise (entry_of_annotation <$> anns))
          = Ok (AnnotationData.normalise <$> anns)).
  apply parse_saved_entries.
Qed.

(** Loading never raises once the sidecar folder is there: exactly one
    [annotations_loaded] signal is emitted. *)
Lemma load_emits_once image_path c fs' :
  FS.mkdir (fs c) (sidecar_dir image_path) = Ok fs' →
  ∃ l, load image_path c
       = (Ok tt, {| annotations := annotations c; fs := fs';
                    emitted := emitted c ++ [annotations_loaded image_path l]
                 |}) ∧
       l = (if FS.exists_ fs' (sidecar image_path)
            then match parse fs' (sidecar image_path) with
                 | Ok l => l
                 | Raise _ => []
                 end
            else []).
Proof.
  intros Hmk. unfold load. unfold_monad.
  rewrite (annotation_file_for_ok _ _ _ Hmk). cbn.
  destruct (FS.exists_ fs' _); cbn; [|by eexists].
  unfold emit. unfold_monad.
  destruct (parse fs' _); cbn; by eexists.
Qed.

Lemma write_text_ok fs p txt :
  p ∉ FS.dirs fs → Path.parent p ∈ FS.dirs fs →
  FS.write_text fs p txt
  = Ok (FS.set_files (<[p := FS.TextFile txt]> (FS.files fs)) fs).
Proof.
  intros Hp Hd. unfold FS.write_text.
  destruct (decide _); [done|]. by destruct (decide _).
Qed.




(** C5, as the code has it.  When the [.kara] folder exists or can be
    created and the sidecar path is not a folder, [save] followed by [load]
    on the same image path emits [annotations_saved] and then
    [annotations_loaded] with the saved annotations in order, every field
    as JSON gives it back: a tuple has become a list with the same
    elements.  The list is the saved one when no field holds a tuple; for
    an annotation typed as the dataclass declares, [kind], [done], [ocr] and
    [translation] are restored exactly and [rect] comes back as the list of
    its four numbers. *)
Theorem save_then_load_roundtrip image_path anns c fs1 :
  FS.mkdir (fs c) (sidecar_dir image_path) = Ok fs1 →
  sidecar image_path ∉ FS.dirs fs1 →
  ∃ c1 c2 loaded,
    save image_path anns c = (Ok tt, c1) ∧
    load image_path c1 = (Ok tt, c2) ∧
    emitted c2 = emitted c ++ [annotations_saved image_path;
                               annotations_loaded image_path loaded] ∧
    loaded = AnnotationData.normalise <$> anns ∧
    (Forall (λ a, AnnotationData.normalise a = a) anns → loaded = anns) ∧
    (∀ i a, anns !! i = Some a → AnnotationData.well_typed a →
       ∃ a' x y w h, loaded !! i = Some a' ∧
         AnnotationData.rect a
           = PTuple [PFloat x; PFloat y; PFloat w; PFloat h] ∧
         AnnotationData.rect a'
           = PList [PFloat x; PFloat y; PFloat w; PFloat h] ∧
         AnnotationData.kind a' = AnnotationData.kind a ∧
         AnnotationData.done_ a' = AnnotationData.done_ a ∧
         AnnotationData.ocr a' = AnnotationData.ocr a ∧
         AnnotationData.translation a' = AnnotationData.translation a).
Proof.
  intros Hmk Hfile.
  destruct (mkdir_ok _ _ _ Hmk) as (Hdir & Hfiles & Hagain).
  set (payload := PDict [("bubbles", PList (entry_of_annotation <$> anns))]).
  set (fs2 := FS.set_files
    (<[sidecar image_path := FS.TextFile (Json.dumps payload)]> (FS.files fs1))
    fs1).
  set (c1 := {| annotations := annotations c; fs := fs2;
                emitted := emitted c ++ [annotations_saved image_path] |}).
  assert (save image_path anns c = (Ok tt, c1)) as Hsave.
  { unfold save. unfold_monad.
    rewrite (annotation_file_for_ok _ _ _ Hmk). cbn.
    rewrite write_text_ok; [done|done|].
    unfold sidecar. by rewrite parent_joinpath. }
  assert (FS.mkdir (fs c1) (sidecar_dir image_path) = Ok fs2) as Hmk2.
  { cbn. unfold FS.mkdir. by destruct (decide _). }
  destruct (load_emits_once image_path c1 fs2 Hmk2) as (l & Hload & Hl).
  assert (l = AnnotationData.normalise <$> anns) as Hnorm.
  { rewrite Hl. unfold FS.exists_. 
    assert (FS.files fs2 !! sidecar image_path
            = Some (FS.TextFile (Json.dumps payload))) as Hread
      by apply lookup_insert_eq.
    rewrite Hread. 
    rewrite (bool_decide_eq_true_2 (is_Some _)) by done.
    rewrite orb_true_r. by rewrite (parse_saved _ _ anns). }
  eexists c1, _, l. split_and!; [done|done| |done| |].
  - cbn. by rewrite <- app_assoc.
  - intros Hall. rewrite Hnorm. clear -Hall.
    induction Hall as [|a anns' Ha _ IH]; [done|].
    cbn. f_equal; [done|apply IH].
  - intros i a Hi ((x & y & w & h & Hrect) & [k Hk] & [b Hb] & [o Ho] & [t Ht]).
    exists (AnnotationData.normalise a), x, y, w, h.
    rewrite Hnorm, list_lookup_fmap, Hi. cbn.
    rewrite Hrect, Hk, Hb, Ho, Ht. done.
Qed.

Lemma save_then_load_roundtrip_witness :
  let p := Ex.page "p1.jpg" in
  ∃ fs1 c1 c2,
    FS.mkdir Ex.fs0 (sidecar_dir p) = Ok fs1 ∧
    save p [Ex.ann0] (init Ex.fs0) = (Ok tt, c1) ∧
    load p c1 = (Ok tt, c2) ∧
    emitted c2 = [annotations_saved p; annotations_loaded p [Ex.ann0_loaded]].
Proof.
  intros p. eexists.
  destruct (save_then_load_roundtrip p [Ex.ann0] (init Ex.fs0) _ eq_refl)
    as (c1 & c2 & loaded & Hsave & Hload & Hem & -> & _).
  - vm_compute. intros H. discriminate H.
  - exists c1, c2. split_and!; [reflexivity|done|done|done].
Defined.

(** C5 fails as stated: an annotation whose [rect] is a tuple, as the
    dataclass declares it, comes back with a list, and Python does not take
    a list and a tuple for equal. *)
Lemma roundtrip_turns_tuple_into_list :
  let p := Ex.page "p1.jpg" in
  emitted (load p (save p [Ex.ann0] (init Ex.fs0)).2).2
  = [annotations_saved p; annotations_loaded p [Ex.ann0_loaded]] ∧
  AnnotationData.well_typed Ex.ann0 ∧
  [Ex.ann0_loaded] ≠ [Ex.ann0].
Proof.
  split_and!; [reflexivity| |intros [=]].
  unfold AnnotationData.well_typed, Ex.ann0. cbn. split_and!; eauto 6.
Qed.

(** [remove] raises on the first annotation it looks at: [AnnotationData]
    has no [id]. *)
Lemma remove_raises_on_nonempty bubble_id c a l :
  annotations c = a :: l →
  remove bubble_id c = (Raise (AttributeError "id"), c).
Proof. intros Hc. unfold remove. unfold_monad. by rewrite Hc. Qed.

Lemma remove_on_empty bubble_id c :
  annotations c = [] → remove bubble_id c = (Ok tt, c).
Proof. intros Hc. unfold remove. unfold_monad. by rewrite Hc. Qed.

(** C6 on the code: with one annotation in the collection, [remove] raises
    [AttributeError] for every id, deletes nothing and emits nothing. *)
Theorem remove_raises_attribute_error :
  let c := (add Ex.ann0 (init Ex.fs0)).2 in
  annotations c = [Ex.ann0] ∧
  ∀ bubble_id, remove bubble_id c = (Raise (AttributeError "id"), c).
Proof.
  intros c. split; [reflexivity|].
  intros bubble_id. by apply (remove_raises_on_nonempty _ _ Ex.ann0 []).
Qed.

End annotation_facts.

(* ---------------------------------------------------------------------- *)
(** *** Page navigation *)

Section navigation_facts.
Import Navigation.

Lemma path_compare_antisym p q : Path.compare q p = CompOpp (Path.compare p q).
Proof.
  revert q. induction p as [|a p IH]; intros [|b q]; try done.
  cbn. rewrite (String.compare_antisym a b).
  destruct (String.compare b a); cbn; [apply IH|done..].
Qed.

Global Instance path_le_total : Total Path.le.
Proof.
  intros p q. unfold Path.le. rewrite (path_compare_antisym p q).
  destruct (Path.compare p q); cbn; auto.
Qed.

Lemma string_compare_lt_trans a b c :
  String.compare a b = Lt → String.compare b c = Lt →
  String.compare a c = Lt.
Proof.
  intros Hab Hbc.
  assert (String.le a c) as Hac.
  { trans b; unfold String.le, String.leb; [by rewrite Hab|by rewrite Hbc]. }
  unfold String.le, String.leb in Hac.
  destruct (String.compare a c) eqn:Hc; [|done|done].
  apply String.compare_eq_iff in Hc as ->.
  rewrite String.compare_antisym, Hbc in Hab. done.
Qed.

Lemma path_compare_eq p q : Path.compare p q = Eq → p = q.
Proof.
  revert q. induction p as [|a p IH]; intros [|b q]; try done.
  cbn. destruct (String.compare a b) eqn:Hab; [|done..].
  apply String.compare_eq_iff in Hab as ->. intros ->%IH. done.
Qed.

Lemma path_compare_lt_trans p q r :
  Path.compare p q = Lt → Path.compare q r = Lt → Path.compare p r = Lt.
Proof.
  revert q r. induction p as [|a p IH]; intros [|b q] [|c r]; try done.
  cbn. destruct (String.compare a b) eqn:Hab; [|clear IH|done].
  - apply String.compare_eq_iff in Hab as ->.
    destruct (String.compare b c); [apply IH|done..].
  - intros _. destruct (String.compare b c) eqn:Hbc; [| |done].
    + apply String.compare_eq_iff in Hbc as <-. by rewrite Hab.
    + by rewrite (string_compare_lt_trans a b c).
Qed.

Global Instance path_le_trans : Transitive Path.le.
Proof.
  intros p q r Hpq Hqr. unfold Path.le in *.
  destruct (Path.compare p q) eqn:H1; [|clear Hpq|done].
  - by apply path_compare_eq in H1 as ->.
  - destruct (Path.compare q r) eqn:H2; [| |done].
    + apply path_compare_eq in H2 as <-. by rewrite H1.
    + by rewrite (path_compare_lt_trans p q r).
Qed.

Lemma path_le_antisym p q : Path.le p q → Path.le q p → p = q.
Proof.
  unfold Path.le. rewrite (path_compare_antisym p q).
  destruct (Path.compare p q) eqn:Hc; cbn; [|done..].
  intros _ _. by apply path_compare_eq.
Qed.

Lemma sorted_StronglySorted l : StronglySorted Path.le (sorted l).
Proof. apply StronglySorted_merge_sort; apply _. Qed.

Lemma sorted_Permutation l : sorted l ≡ₚ l.
Proof. apply merge_sort_Permutation. Qed.

Lemma glob_jpg_NoDup fs d : NoDup (FS.glob_jpg fs d).
Proof.
  unfold FS.glob_jpg. destruct (decide _); [|apply NoDup_nil_2].
  apply NoDup_filter, NoDup_elements.
Qed.

Lemma glob_jpg_spec fs d p :
  p ∈ FS.glob_jpg fs d ↔
  d ∈ FS.dirs fs ∧ (p ∈ FS.dirs fs ∨ is_Some (FS.files fs !! p)) ∧
  p ≠ [] ∧ Path.parent p = d ∧ Path.is_jpg (Path.name p).
Proof.
  unfold FS.glob_jpg. destruct (decide _) as [Hd|Hd].
  - rewrite list_elem_of_filter, elem_of_elements, elem_of_union, elem_of_dom.
    tauto.
  - rewrite elem_of_nil. tauto.
Qed.

Lemma index_found (l : list Path.t) (p : Path.t) i :
  index l p = Ok i →
  0 ≤ i ∧ l !! Z.to_nat i = Some p ∧
  ∀ j, (j < Z.to_nat i)%nat → l !! j ≠ Some p.
Proof.
  unfold index. destruct (list_find _ _) as [[k q]|] eqn:Hfind; [|done].
  intros [= <-]. apply list_find_Some in Hfind as (Hk & <- & Hmin).
  rewrite Nat2Z.id. split_and!; [lia|done|].
  intros j Hj Hjp. by eapply Hmin.
Qed.

Lemma index_elem_of (l : list Path.t) (p : Path.t) :
  p ∈ l → ∃ i, index l p = Ok i.
Proof.
  intros Hp. unfold index.
  destruct (list_find_elem_of (p =.) l p Hp eq_refl) as [[k q] ->]. eauto.
Qed.

Lemma mkdir_dirs fs p fs' :
  FS.mkdir fs p = Ok fs' → FS.dirs fs ⊆ FS.dirs fs'.
Proof.
  unfold FS.mkdir. intros H.
  repeat (destruct (decide _) in H; simplify_eq); [done|]. cbn. set_solver.
Qed.

(** What [load_page] leaves behind when it runs to its end. *)
Lemma load_page_loaded u path s s' :
  load_page u path s = (Ok Loaded, s') →
  let fs' := AnnotationController.fs (annotations s') in
  cur_img_path s' = Some path ∧
  pages s' = sorted (FS.glob_jpg fs' (Path.parent path)) ∧
  0 ≤ current_page_idx s' ∧
  pages s' !! Z.to_nat (current_page_idx s') = Some path ∧
  (∀ j, (j < Z.to_nat (current_page_idx s'))%nat → pages s' !! j ≠ Some path) ∧
  action_prev_page_enabled s' = bool_decide (current_page_idx s' > 0) ∧
  action_next_page_enabled s'
  = bool_decide (current_page_idx s' < Z.of_nat (length (pages s')) - 1).
Proof.
  unfold load_page. unfold_monad.
  destruct (_dirty s && negb (discard_confirmed u)); [done|].
  destruct (FS.imread _ path); [|done]. cbn.
  unfold on_annotations. cbn.
  destruct (AnnotationController.load path (annotations s)) as [[[]|e] c'];
    [|done]. cbn.
  destruct (index _ path) as [i|e] eqn:Hidx; [|done].
  intros [= <-].
  apply index_found in Hidx as (H0 & Hi & Hmin).
  destruct (annotations_rebuilt u); cbn in *; done.
Qed.

(** [load_page] runs to its end when the user does not object, the file is
    a readable image named [*.jpg] in an existing folder, and the [.kara]
    folder is there or can be made. *)
Lemma load_page_succeeds u path s fs1 :
  _dirty s && negb (discard_confirmed u) = false →
  let fs0 := AnnotationController.fs (annotations s) in
  FS.files fs0 !! path = Some FS.ImageFile →
  path ≠ [] → Path.parent path ∈ FS.dirs fs0 →
  Path.is_jpg (Path.name path) →
  FS.mkdir fs0 (AnnotationController.sidecar_dir path) = Ok fs1 →
  ∃ s', load_page u path s = (Ok Loaded, s') ∧
        AnnotationController.fs (annotations s') = fs1 ∧
        _dirty s' = (if annotations_rebuilt u then false else _dirty s).
Proof.
  intros Hgate fs0 Hfile Hne Hdir Hjpg Hmk. subst fs0.
  unfold load_page. unfold_monad. rewrite Hgate.
  unfold FS.imread. rewrite Hfile. cbn.
  unfold on_annotations. cbn.
  destruct (load_emits_once path (annotations s) fs1 Hmk) as (l & -> & _).
  cbn.
  destruct (index_elem_of
    (sorted (FS.glob_jpg fs1 (Path.parent path))) path) as [i Hi].
  { rewrite sorted_Permutation. apply glob_jpg_spec.
    destruct (mkdir_ok _ _ _ Hmk) as (_ & Hfiles & _).
    pose proof (mkdir_dirs _ _ _ Hmk) as Hsub.
    split_and!; [set_solver| |done..].
    right. by rewrite Hfiles, Hfile. }
  destruct (annotations_rebuilt u); cbn; rewrite Hi; cbn; eauto.
Qed.

Lemma getitem_nonneg {A} (l : list A) i a :
  0 ≤ i → l !! Z.to_nat i = Some a → getitem l i = Ok a.
Proof.
  intros Hi Ha. unfold getitem, norm_index.
  apply lookup_lt_Some in Ha as Hlt.
  destruct (decide _); [|lia]. cbn. by rewrite Ha.
Qed.

Lemma next_page_unfold u s p :
  current_page_idx s < Z.of_nat (length (pages s)) - 1 →
  getitem (pages s) (current_page_idx s + 1) = Ok p →
  next_page u s = discard (load_page u p s).
Proof.
  intros Hlt Hp. unfold next_page, discard. unfold_monad.
  destruct (decide _); [|done]. rewrite Hp.
  by destruct (load_page u p s) as [[]].
Qed.

Lemma prev_page_unfold u s p :
  current_page_idx s > 0 →
  getitem (pages s) (current_page_idx s - 1) = Ok p →
  prev_page u s = discard (load_page u p s).
Proof.
  intros Hlt Hp. unfold prev_page, discard. unfold_monad.
  destruct (decide _); [|done]. rewrite Hp.
  by destruct (load_page u p s) as [[]].
Qed.

Lemma next_page_at_end u s :
  ¬ current_page_idx s < Z.of_nat (length (pages s)) - 1 →
  next_page u s = (Ok tt, s).
Proof. intros H. unfold next_page. unfold_monad. by destruct (decide _). Qed.

Lemma prev_page_at_start u s :
  ¬ current_page_idx s > 0 → prev_page u s = (Ok tt, s).
Proof. intros H. unfold prev_page. unfold_monad. by destruct (decide _). Qed.

(** One step forward: at a loaded page whose next sibling is a readable
    image, [next_page] shows that sibling and moves the index by one. *)
Lemma next_page_advances u s path p :
  at_page s path →
  _dirty s && negb (discard_confirmed u) = false →
  let fs0 := AnnotationController.fs (annotations s) in
  AnnotationController.sidecar_dir path ∈ FS.dirs fs0 →
  pages s !! Z.to_nat (current_page_idx s + 1) = Some p →
  FS.files fs0 !! p = Some FS.ImageFile →
  ∃ s', next_page u s = (Ok tt, s') ∧ at_page s' p ∧
        pages s' = pages s ∧
        current_page_idx s' = current_page_idx s + 1.
Proof.
  intros (Hcur & Hpages & H0 & Hidx) Hgate fs0 Hkara Hp Hfile. subst fs0.
  assert (p ∈ pages s) as Hin by (apply list_elem_of_lookup; eauto).
  rewrite Hpages, sorted_Permutation in Hin.
  apply glob_jpg_spec in Hin as (Hdir & _ & Hne & Hparent & Hjpg).
  assert (AnnotationController.sidecar_dir p
          = AnnotationController.sidecar_dir path) as Hside
    by (unfold AnnotationController.sidecar_dir; by rewrite Hparent).
  assert (FS.mkdir (AnnotationController.fs (annotations s))
            (AnnotationController.sidecar_dir p)
          = Ok (AnnotationController.fs (annotations s))) as Hmk.
  { rewrite Hside. unfold FS.mkdir. by destruct (decide _). }
  destruct (load_page_succeeds u p s
              (AnnotationController.fs (annotations s)) Hgate Hfile Hne)
    as (s' & Hload & Hfs & _); [by rewrite Hparent|done|done|].
  apply lookup_lt_Some in Hp as Hlt.
  assert (current_page_idx s < Z.of_nat (length (pages s)) - 1) by lia.
  assert (getitem (pages s) (current_page_idx s + 1) = Ok p) as Hget
    by (apply getitem_nonneg; [lia|done]).
  exists s'. rewrite (next_page_unfold u s p) by done. rewrite Hload.
  unfold discard. cbn [fst snd].
  destruct (load_page_loaded _ _ _ _ Hload)
    as (Hcur' & Hpages' & H0' & Hidx' & Hmin & _).
  rewrite Hfs, Hparent, <- Hpages in Hpages'.
  assert (NoDup (pages s)) as Hnd.
  { rewrite Hpages, sorted_Permutation. apply glob_jpg_NoDup. }
  rewrite Hpages' in Hidx'.
  pose proof (NoDup_lookup _ _ _ _ Hnd Hp Hidx').
  split_and!; [done| |done|lia].
  split_and!; [done| |done|by rewrite Hpages'].
  by rewrite Hpages', Hfs, Hparent.
Qed.

(** C8.  [load_page] that runs to its end leaves [pages] equal to the sorted
    [*.jpg] entries of the folder of the page and [current_page_idx] equal
    to the position of the page there; it does run to its end for a
    readable image named [*.jpg] when the user does not object and the
    [.kara] folder is there or can be made.  [next_page] calls [load_page] on
    [pages[current_page_idx + 1]] when [current_page_idx < len(pages) - 1]
    and [prev_page] on [pages[current_page_idx - 1]] when
    [current_page_idx > 0]; otherwise, at the last or first page in
    particular, they change nothing.  From a loaded page whose next sibling
    is a readable image, [next_page] moves the index forward by one. *)
Theorem page_navigation_is_sequential u s :
  let n := Z.of_nat (length (pages s)) in
  let i := current_page_idx s in
  (∀ path s', load_page u path s = (Ok Loaded, s') →
     at_page s' path ∧ StronglySorted Path.le (pages s') ∧
     pages s' ≡ₚ FS.glob_jpg (AnnotationController.fs (annotations s'))
                             (Path.parent path) ∧
     index (pages s') path = Ok (current_page_idx s')) ∧
  (∀ path fs1,
     _dirty s && negb (discard_confirmed u) = false →
     FS.files (AnnotationController.fs (annotations s)) !! path
       = Some FS.ImageFile →
     path ≠ [] →
     Path.parent path ∈ FS.dirs (AnnotationController.fs (annotations s)) →
     Path.is_jpg (Path.name path) →
     FS.mkdir (AnnotationController.fs (annotations s))
       (AnnotationController.sidecar_dir path) = Ok fs1 →
     ∃ s', load_page u path s = (Ok Loaded, s')) ∧
  (i < n - 1 → ∀ p, getitem (pages s) (i + 1) = Ok p →
     next_page u s = discard (load_page u p s)) ∧
  (i < n - 1 → 0 ≤ i + 1 →
     ∃ p, pages s !! Z.to_nat (i + 1) = Some p ∧
          getitem (pages s) (i + 1) = Ok p) ∧
  (¬ i < n - 1 → next_page u s = (Ok tt, s)) ∧
  (i = n - 1 → next_page u s = (Ok tt, s)) ∧
  (i > 0 → ∀ p, getitem (pages s) (i - 1) = Ok p →
     prev_page u s = discard (load_page u p s)) ∧
  (i > 0 → i ≤ n →
     ∃ p, pages s !! Z.to_nat (i - 1) = Some p ∧
          getitem (pages s) (i - 1) = Ok p) ∧
  (¬ i > 0 → prev_page u s = (Ok tt, s)) ∧
  (i = 0 → prev_page u s = (Ok tt, s)) ∧
  (∀ path p,
     at_page s path →
     _dirty s && negb (discard_confirmed u) = false →
     AnnotationController.sidecar_dir path
       ∈ FS.dirs (AnnotationController.fs (annotations s)) →
     pages s !! Z.to_nat (i + 1) = Some p →
     FS.files (AnnotationController.fs (annotations s)) !! p
       = Some FS.ImageFile →
     ∃ s', next_page u s = (Ok tt, s') ∧ at_page s' p ∧
           pages s' = pages s ∧ current_page_idx s' = i + 1).
Proof.
  intros n i. subst n i. split_and!.
  - intros path s' Hload.
    destruct (load_page_loaded _ _ _ _ Hload)
      as (Hcur & Hpages & H0 & Hidx & Hmin & _).
    split_and!; [done| | |].
    + rewrite Hpages. apply sorted_StronglySorted.
    + rewrite Hpages. apply sorted_Permutation.
    + unfold index.
      assert (list_find (path =.) (pages s')
              = Some (Z.to_nat (current_page_idx s'), path)) as ->.
      { apply list_find_Some. split_and!; [done..|].
        intros j y Hj Hlt <-. by eapply Hmin. }
      f_equal. lia.
  - intros path fs1 Hgate Hfile Hne Hdir Hjpg Hmk.
    destruct (load_page_succeeds u path s fs1) as (s' & Hload & _);
      [done..|]. by exists s'.
  - intros. by apply next_page_unfold.
  - intros Hlt H0.
    destruct (pages s !! Z.to_nat (current_page_idx s + 1)) as [p|] eqn:Hp.
    + exists p. split; [done|]. by apply getitem_nonneg.
    + apply lookup_ge_None in Hp. lia.
  - apply next_page_at_end.
  - intros Hi. apply next_page_at_end. lia.
  - intros. by apply prev_page_unfold.
  - intros Hlt Hn.
    destruct (pages s !! Z.to_nat (current_page_idx s - 1)) as [p|] eqn:Hp.
    + exists p. split; [done|]. apply getitem_nonneg; [lia|done].
    + apply lookup_ge_None in Hp. lia.
  - apply prev_page_at_start.
  - intros Hi. apply prev_page_at_start. lia.
  - intros path p. apply next_page_advances.
Qed.

Lemma page_navigation_is_sequential_witness :
  at_page Ex.at_p1 (Ex.page "p1.jpg") ∧
  current_page_idx Ex.at_p1 = 0 ∧
  prev_page Ex.quiet Ex.at_p1 = (Ok tt, Ex.at_p1) ∧
  ∃ s', next_page Ex.quiet Ex.at_p1 = (Ok tt, s') ∧
        at_page s' (Ex.page "p2.jpg") ∧ current_page_idx s' = 1.
Proof.
  destruct (page_navigation_is_sequential Ex.quiet (Navigation.init Ex.fs0))
    as (Hload & _).
  destruct (Hload (Ex.page "p1.jpg") Ex.at_p1) as (Hat & _); [reflexivity|].
  destruct (page_navigation_is_sequential Ex.quiet Ex.at_p1)
    as (_ & _ & _ & _ & _ & _ & _ & _ & _ & Hprev & Hnext).
  split_and!; [done|reflexivity|by apply Hprev|].
  destruct (Hnext (Ex.page "p1.jpg") (Ex.page "p2.jpg"))
    as (s' & Hrun & Hat' & _ & Hi); [done|reflexivity| |reflexivity..|].
  - vm_compute. reflexivity.
  - exists s'. by split_and!.
Defined.
End navigation_facts.

(* ---------------------------------------------------------------------- *)
(** *** Cropping *)

Section crop_facts.
Import PanelViewer.

Lemma slice_bound_in_range (n : nat) (i : Z) :
  0 ≤ i ≤ Z.of_nat n → slice_bound n i = Z.to_nat i.
Proof.
  intros Hi. unfold slice_bound. destruct (decide _); [lia|].
  f_equal. lia.
Qed.


End crop_facts.

(* ---------------------------------------------------------------------- *)
(** *** The ready gate *)

Lemma detect_gate d image_path min_conf :
  SpeechBubbleDetector.detect d image_path min_conf
  = Raise (RuntimeError SpeechBubbleDetector.not_ready_msg)
  ↔ SpeechBubbleDetector.ready d = false.
Proof.
  unfold SpeechBubbleDetector.detect.
  destruct (SpeechBubbleDetector.ready d); cbn; [|done].
  split; [|done]. destruct (SpeechBubbleDetector._model d) as [m|]; [|done].
  by destruct (m image_path).
Qed.

Lemma detect_no_RuntimeError d image_path min_conf msg :
  SpeechBubbleDetector.ready d = true →
  SpeechBubbleDetector.detect d image_path min_conf ≠ Raise (RuntimeError msg).
Proof.
  intros Hr. unfold SpeechBubbleDetector.detect. rewrite Hr. cbn.
  destruct (SpeechBubbleDetector._model d) as [m|]; [|done].
  by destruct (m image_path).
Qed.

Lemma recognize_no_RuntimeError pil e x msg :
  OCREngine.ready e = true →
  OCREngine.recognize pil e x ≠ Raise (RuntimeError msg).
Proof.
  intros Hr. unfold OCREngine.recognize. rewrite Hr. cbn.
  unfold OCREngine.from_library.
  destruct x as [s|s|a|im|]; cbn;
    try destruct (OCREngine.Image_open pil s);
    try destruct (OCREngine.Image_fromarray pil _);
    cbn; try done;
    (destruct (OCREngine._ocr e) as [m|]; [|done]); by destruct (m _).
Qed.

Lemma recognize_gate pil e x :
  OCREngine.recognize pil e x = Raise (RuntimeError OCREngine.not_ready_msg)
  ↔ OCREngine.ready e = false.
Proof.
  split.
  - intros Hraise. destruct (OCREngine.ready e) eqn:Hr; [|done].
    by apply recognize_no_RuntimeError in Hraise.
  - intros Hr. unfold OCREngine.recognize. by rewrite Hr.
Qed.

(** C7.  [detect] and [recognize] raise their "not ready" [RuntimeError]
    exactly when [ready()] is false, and no [RuntimeError] of their own once
    it is true.  [ready()] is false after the constructor and true once the
    loader thread has run to its end, at which point the model is set. *)
Theorem model_calls_are_gated :
  (∀ d image_path min_conf,
     SpeechBubbleDetector.detect d image_path min_conf
     = Raise (RuntimeError SpeechBubbleDetector.not_ready_msg)
     ↔ SpeechBubbleDetector.ready d = false) ∧
  (∀ d image_path min_conf msg,
     SpeechBubbleDetector.ready d = true →
     SpeechBubbleDetector.detect d image_path min_conf
     ≠ Raise (RuntimeError msg)) ∧
  (∀ pil e x,
     OCREngine.recognize pil e x
     = Raise (RuntimeError OCREngine.not_ready_msg)
     ↔ OCREngine.ready e = false) ∧
  (∀ pil e x msg,
     OCREngine.ready e = true →
     OCREngine.recognize pil e x ≠ Raise (RuntimeError msg)) ∧
  (∀ model_path,
     SpeechBubbleDetector.ready (SpeechBubbleDetector.init model_path)
     = false) ∧
  (∀ load model_path m,
     load model_path = Some m →
     let d := SpeechBubbleDetector._load_model load
                (SpeechBubbleDetector.init model_path) in
     SpeechBubbleDetector.ready d = true ∧
     SpeechBubbleDetector._model d = Some m) ∧
  OCREngine.ready OCREngine.init = false ∧
  (∀ m, let e := OCREngine._load (Some m) OCREngine.init in
        OCREngine.ready e = true ∧ OCREngine._ocr e = Some m).
Proof.
  split_and!.
  - apply detect_gate.
  - apply detect_no_RuntimeError.
  - apply recognize_gate.
  - apply recognize_no_RuntimeError.
  - done.
  - intros load model_path m Hload d. subst d.
    unfold SpeechBubbleDetector._load_model. cbn. by rewrite Hload.
  - done.
  - done.
Qed.

Lemma model_calls_are_gated_witness :
  SpeechBubbleDetector.detect (SpeechBubbleDetector.init "m.pt") "p.jpg" 0
  = Raise (RuntimeError SpeechBubbleDetector.not_ready_msg) ∧
  SpeechBubbleDetector.detect
    (SpeechBubbleDetector._load_model (λ _, Some Ex.yolo0)
       (SpeechBubbleDetector.init "m.pt")) "p.jpg" 0
  ≠ Raise (RuntimeError SpeechBubbleDetector.not_ready_msg) ∧
  OCREngine.recognize Ex.pil0 OCREngine.init (OCREngine.InStr "p.jpg")
  = Raise (RuntimeError OCREngine.not_ready_msg) ∧
  OCREngine.recognize Ex.pil0 (OCREngine._load (Some Ex.ocr0) OCREngine.init)
    (OCREngine.InNdarray Ex.img0)
  = Ok "text".
Proof.
  destruct model_calls_are_gated as (Hd & Hd' & Ho & _).
  split_and!.
  - apply Hd. reflexivity.
  - apply Hd'. reflexivity.
  - apply Ho. reflexivity.
  - reflexivity.
Defined.

(* ====================================================================== *)
(** ** The registry operations, one by one *)
(* ====================================================================== *)

Section registry_effects.
Import MainWindow Inv.

(** [_add_bubble] on a rectangle that is registered, or on anything that is
    not a rectangle item, returns [None] and changes nothing. *)
Lemma add_bubble_registered w r :
  r ∈ (_rect_list w).*2 → _add_bubble (RectItem r) w = (Ok None, w).
Proof.
  intros Hr. unfold _add_bubble. unfold_monad.
  by destruct (decide _).
Qed.

(** [_add_bubble] on a rectangle that is not registered: a new list item
    goes to the end of both lists. *)
Lemma add_bubble_new w r :
  wf w → r ∉ (_rect_list w).*2 →
  ∃ w', _add_bubble (RectItem r) w = (Ok (Some (next_item w)), w') ∧
    _rect_list w' = _rect_list w ++ [(next_item w, r)] ∧
    bubble_list w'
      = {| Qt.rows := Qt.rows (bubble_list w) ++ [next_item w];
           Qt.deleted := Qt.deleted (bubble_list w) |} ∧
    scene_items w' = scene_items w ∧ _cur_rects w' = _cur_rects w ∧
    _dirty w' = _dirty w ∧ rect_items w' = rect_items w ∧
    next_item w' = S (next_item w) ∧
    Qt.user_data (list_items w' (next_item w)) = Some r ∧
    Qt.checked (list_items w' (next_item w))
      = MoveableRectItem._done (rect_items w r) ∧
    progress w' = (S (length (_rect_list w)),
                   length (filter
                     (λ p, MoveableRectItem._done (rect_items w p.2) = true)
                     (_rect_list w ++ [(next_item w, r)]))).
Proof.
  intros Hwf Hr. unfold _add_bubble. unfold_monad.
  destruct (decide _) as [|_]; [done|].
  unfold new_list_item. cbn [set_rect_list _rect_list bubble_list next_item].
  unfold Qt.addItem, Qt.insertItem.
  destruct (decide (_ ∈ Qt.deleted _)) as [Hd|_].
  { apply (wf_deleted _ Hwf) in Hd. lia. }
  destruct (decide (_ ∈ Qt.rows _)) as [Hd|_].
  { apply (wf_fresh _ Hwf) in Hd. lia. }
  unfold Qt.count. rewrite insert_at_end. cbn.
  eexists. split; [done|]. cbn. rewrite !fn_lookup_insert.
  split_and!; try done.
  rewrite length_app. cbn. destruct (decide _) as [|_]; [lia|].
  f_equal. lia.
Qed.

(** [_remove_bubble_for] on a rectangle that is not registered does
    nothing. *)
Lemma remove_bubble_for_absent w r :
  r ∉ (_rect_list w).*2 → _remove_bubble_for r w = (Ok tt, w).
Proof.
  intros Hr. unfold _remove_bubble_for. unfold_monad.
  destruct (list_find _ _) as [[k [li r']]|] eqn:Hfind; [|done].
  apply list_find_Some in Hfind as (Hk & Heq & _). cbn in Heq. subst r'.
  destruct Hr. apply list_elem_of_fmap. exists (li, r). split; [done|].
  apply list_elem_of_lookup. eauto.
Qed.

(** [_remove_bubble_for] on a registered rectangle removes its first pair,
    the row of that pair, and the rectangle from the scene. *)
Lemma remove_bubble_for_present w r :
  wf w → r ∈ (_rect_list w).*2 →
  ∃ k li w', _rect_list w !! k = Some (li, r) ∧
    (∀ j p, _rect_list w !! j = Some p → (j < k)%nat → p.2 ≠ r) ∧
    _remove_bubble_for r w = (Ok tt, w') ∧
    _rect_list w' = delete k (_rect_list w) ∧
    bubble_list w'
      = {| Qt.rows := delete k (Qt.rows (bubble_list w));
           Qt.deleted := Qt.deleted (bubble_list w) |} ∧
    scene_items w' = scene_items w ∖ {[ r ]} ∧
    next_item w' = next_item w ∧ list_items w' = list_items w.
Proof.
  intros Hwf Hr. unfold _remove_bubble_for. unfold_monad.
  destruct (list_find (λ p, p.2 = r) (_rect_list w)) as [[k [li r']]|] eqn:Hfind.
  - apply list_find_Some in Hfind as (Hk & Heq & Hmin). cbn in Heq. subst r'.
    destruct (remove_bubble_effect w (Z.of_nat k) k li r Hwf)
      as (w' & Hrun & E); [|done|].
    { apply lookup_lt_Some in Hk. unfold norm_index.
      destruct (decide _); [|lia]. by rewrite Nat2Z.id. }
    exists k, li, w'. destruct E as (E1 & E2 & E3 & E4 & E5).
    split_and!; try done.
  - apply list_find_None in Hfind.
    apply list_elem_of_fmap in Hr as ([li r'] & -> & Hin).
    rewrite Forall_forall in Hfind. by apply Hfind in Hin.
Qed.

(** No rectangle is left behind: once its first pair is gone, a rectangle
    that was registered once is not registered. *)
Lemma delete_first_not_elem_of {A B} (l : list (A * B)) k a b :
  NoDup l.*2 → l !! k = Some (a, b) → b ∉ (delete k l).*2.
Proof.
  intros Hnd Hk (j & Hj)%list_elem_of_lookup.
  rewrite list_fmap_delete, list_lookup_delete in Hj.
  assert (l.*2 !! k = Some b) as Hk' by (by rewrite list_lookup_fmap, Hk).
  destruct (decide (j < k)%nat).
  - pose proof (NoDup_lookup _ _ _ _ Hnd Hk' Hj). lia.
  - pose proof (NoDup_lookup _ _ _ _ Hnd Hk' Hj). lia.
Qed.

End registry_effects.

(* ====================================================================== *)
(** ** The undo stack and the registry *)
(* ====================================================================== *)

Section session_facts.
Import MainWindow Inv.

(** A window that holds the same lists, list items and counter is as well
    formed as the one it came from. *)
Lemma wf_same_registry w w' :
  _rect_list w' = _rect_list w → bubble_list w' = bubble_list w →
  next_item w' = next_item w → list_items w' = list_items w →
  wf w → wf w' ∧ extends w w'.
Proof.
  intros E1 E2 E3 E4 [H1 H2 H3 H4 H5 H6].
  split; [split; rewrite ?E1, ?E2, ?E3, ?E4; done|].
  split; [lia|]. intros li _. by rewrite E4.
Qed.

Lemma fields_kept_refl c : fields_kept c c.
Proof. by destruct c. Qed.

Lemma fields_kept_remove c d : fields_kept c (CRemove d) → c = CRemove d.
Proof. destruct c; cbn; try done. by intros ->. Qed.

Lemma fields_kept_add c a :
  fields_kept c (CAdd a) →
  ∃ a0, c = CAdd a0 ∧ AddBubbleCommand.rect a = AddBubbleCommand.rect a0.
Proof. destruct c as [a0| |]; cbn; try done. intros [? _]. eauto. Qed.

(** What each method of each command does to the command and the window. *)
Lemma call_redo_add a w :
  ∃ res li,
    call Redo (CAdd a) w
    = (res,
       (CAdd {| AddBubbleCommand.rect := AddBubbleCommand.rect a;
                AddBubbleCommand.list_item := li;
                AddBubbleCommand.description :=
                  AddBubbleCommand.description a |},
        (_add_bubble (RectItem (AddBubbleCommand.rect a))
           (set_scene_items
              (scene_items w ∪ {[ AddBubbleCommand.rect a ]}) w)).2)).
Proof.
  unfold call, run_on, AddBubbleCommand.redo, scene_addItem.
  unfold_monad. cbn [fst snd].
  destruct (_add_bubble _ _) as [[li|e] w']; cbn [fst snd]; [by eauto|].
  exists (Raise e), (AddBubbleCommand.list_item a). by destruct a.
Qed.

Lemma call_undo_add a w :
  call Undo (CAdd a) w
  = ((_remove_bubble_for (AddBubbleCommand.rect a) w).1,
     (CAdd a, (_remove_bubble_for (AddBubbleCommand.rect a) w).2)).
Proof.
  unfold call, run_on, AddBubbleCommand.undo. unfold_monad. cbn.
  by destruct (_remove_bubble_for _ _).
Qed.

Lemma call_redo_remove d w :
  call Redo (CRemove d) w
  = ((_remove_bubble_for (RemoveBubbleCommand._rect_item d) w).1,
     (CRemove d, (_remove_bubble_for (RemoveBubbleCommand._rect_item d) w).2)).
Proof.
  unfold call, run_on, RemoveBubbleCommand.redo. unfold_monad. cbn.
  by destruct (_remove_bubble_for _ _).
Qed.

Lemma call_undo_remove d w :
  call Undo (CRemove d) w
  = ((RemoveBubbleCommand.undo (d, w)).1,
     (CRemove d, (RemoveBubbleCommand.undo (d, w)).2.2)).
Proof.
  unfold call, run_on. pose proof (undo_keeps_command d w) as Hd.
  destruct (RemoveBubbleCommand.undo (d, w)) as [res [d' w']].
  cbn in *. by subst.
Qed.

Lemma call_move m c w :
  ∃ w', call m (CMove c) w = (Ok tt, (CMove c, w')) ∧
    _rect_list w' = _rect_list w ∧ bubble_list w' = bubble_list w ∧
    next_item w' = next_item w ∧ list_items w' = list_items w ∧
    scene_items w' = scene_items w.
Proof.
  destruct m; unfold call, run_on, MoveBubbleCommand.redo,
    MoveBubbleCommand.undo, MoveBubbleCommand._apply, _on_programmatic_move;
    unfold_monad; cbn; eexists; (split; [done|]); done.
Qed.

(** [_remove_bubble_for], whether or not the rectangle is registered. *)
Lemma remove_bubble_for_summary w r :
  wf w →
  let w' := (_remove_bubble_for r w).2 in
  wf w' ∧ extends w w' ∧
  Qt.deleted (bubble_list w') = Qt.deleted (bubble_list w) ∧
  (∀ r', r' ∈ (_rect_list w').*2 → r' ∈ (_rect_list w).*2) ∧
  (NoDup (_rect_list w).*2 →
     NoDup (_rect_list w').*2 ∧ r ∉ (_rect_list w').*2).
Proof.
  intros Hwf w'.
  destruct (wf_remove_bubble_for r w Hwf) as [Hwf' Hext].
  split; [done|]. split; [done|]. subst w'.
  destruct (decide (r ∈ (_rect_list w).*2)) as [Hr|Hr].
  - destruct (remove_bubble_for_present w r Hwf Hr)
      as (k & li & w1 & Hk & _ & Hrun & E1 & E2 & _).
    rewrite Hrun. cbn. rewrite E1, E2. cbn. split; [done|].
    rewrite list_fmap_delete. split.
    + intros r'. apply list_elem_of_delete_inv.
    + intros Hnd. split; [by apply NoDup_delete|].
      rewrite <- list_fmap_delete. by eapply delete_first_not_elem_of.
  - rewrite remove_bubble_for_absent by done. cbn. done.
Qed.

(** [_add_bubble] of a rectangle, whether or not it is registered. *)
Lemma add_bubble_summary w r :
  wf w →
  let w' := (_add_bubble (RectItem r) w).2 in
  wf w' ∧ extends w w' ∧
  Qt.deleted (bubble_list w') = Qt.deleted (bubble_list w) ∧
  (∀ r', r' ∈ (_rect_list w').*2 → r' = r ∨ r' ∈ (_rect_list w).*2) ∧
  (NoDup (_rect_list w).*2 → NoDup (_rect_list w').*2).
Proof.
  intros Hwf w'.
  destruct (wf_add_bubble (RectItem r) w Hwf) as [Hwf' Hext].
  split; [done|]. split; [done|]. subst w'.
  destruct (decide (r ∈ (_rect_list w).*2)) as [Hr|Hr].
  - rewrite add_bubble_registered by done. cbn. split_and!; auto.
  - destruct (add_bubble_new w r Hwf Hr) as (w1 & Hrun & E1 & E2 & _).
    rewrite Hrun. cbn. rewrite E1, E2, fmap_app. cbn. split; [done|]. split.
    + intros r' [?| ->%list_elem_of_singleton]%elem_of_app; auto.
    + intros Hnd. apply NoDup_app. split_and!; [done| |apply NoDup_singleton].
      intros r' Hr' ->%list_elem_of_singleton. done.
Qed.

Lemma wf_set_scene_items sc w :
  wf w → wf (set_scene_items sc w) ∧ extends w (set_scene_items sc w).
Proof. by apply wf_same_registry. Qed.

(** The same from a window that differs outside the registry. *)
Lemma add_bubble_elsewhere_summary w w0 r :
  _rect_list w0 = _rect_list w → bubble_list w0 = bubble_list w →
  next_item w0 = next_item w → list_items w0 = list_items w →
  wf w →
  let w' := (_add_bubble (RectItem r) w0).2 in
  wf w' ∧ extends w w' ∧
  Qt.deleted (bubble_list w') = Qt.deleted (bubble_list w) ∧
  (∀ r', r' ∈ (_rect_list w').*2 → r' = r ∨ r' ∈ (_rect_list w).*2) ∧
  (NoDup (_rect_list w).*2 → NoDup (_rect_list w').*2).
Proof.
  intros E1 E2 E3 E4 Hwf w'.
  destruct (wf_same_registry w w0 E1 E2 E3 E4 Hwf) as [Hwf0 Hext0].
  destruct (add_bubble_summary _ r Hwf0) as (Hwf' & Hext & Hdel & Hin & Hnd).
  rewrite E1 in Hin, Hnd. rewrite E2 in Hdel.
  split_and!; [done|by eapply extends_trans|done..].
Qed.

(** The same after the scene has changed. *)
Lemma register_summary w r sc :
  wf w →
  let w' := (_add_bubble (RectItem r) (set_scene_items sc w)).2 in
  wf w' ∧ extends w w' ∧
  Qt.deleted (bubble_list w') = Qt.deleted (bubble_list w) ∧
  (∀ r', r' ∈ (_rect_list w').*2 → r' = r ∨ r' ∈ (_rect_list w).*2) ∧
  (NoDup (_rect_list w).*2 → NoDup (_rect_list w').*2).
Proof.
  intros Hwf w'.
  destruct (wf_set_scene_items sc w Hwf) as [Hwf0 Hext0].
  destruct (add_bubble_summary _ r Hwf0) as (Hwf' & Hext & Hdel & Hin & Hnd).
  split_and!; [done|by eapply extends_trans|done..].
Qed.

End session_facts.

Section session_invariant.
Import MainWindow Inv QUndoStack Session.

(** The invariant survives a change of the window that registers no
    rectangle of an applied [RemoveBubbleCommand], with the stack holding
    the same commands up to the [list_item] of an [AddBubbleCommand]. *)
Lemma ok_update s w' cmds' i' :
  ok s → wf w' → extends (main s) w' →
  Qt.deleted (bubble_list w') = Qt.deleted (bubble_list (main s)) →
  NoDup (_rect_list w').*2 →
  Forall2 fields_kept (command_list (undo_ctrl s)) cmds' →
  (i' ≤ length cmds')%nat →
  (∀ k d, (k < i')%nat → cmds' !! k = Some (CRemove d) →
          RemoveBubbleCommand._rect_item d ∉ (_rect_list w').*2) →
  ok {| main := w';
        undo_ctrl := {| command_list := cmds'; index := i' |} |}.
Proof.
  intros [H1 H2 H3 H4 H5 H6 H7 H8] Hwf Hext Hdel Hnd Hkept Hi Happlied.
  assert (∀ k d, cmds' !! k = Some (CRemove d) →
            command_list (undo_ctrl s) !! k = Some (CRemove d)) as Hrem.
  { intros k d Hk.
    destruct (Forall2_lookup_r _ _ _ _ _ Hkept Hk) as (c & Hc & Hf).
    by apply fields_kept_remove in Hf as ->. }
  assert (∀ k a, cmds' !! k = Some (CAdd a) →
            ∃ a0, command_list (undo_ctrl s) !! k = Some (CAdd a0) ∧
                  AddBubbleCommand.rect a = AddBubbleCommand.rect a0) as Hadd.
  { intros k a Hk.
    destruct (Forall2_lookup_r _ _ _ _ _ Hkept Hk) as (c & Hc & Hf).
    apply fields_kept_add in Hf as (a0 & -> & ?). eauto. }
  split; cbn.
  - done.
  - done.
  - by rewrite Hdel.
  - done.
  - intros k d Hk%Hrem. eapply genuine_extends; [done|]. by eapply H5.
  - done.
  - intros k k' d d' Hk%Hrem Hk'%Hrem. by eapply H7.
  - intros k k' d a Hlt Hk%Hrem (a0 & Hk' & ->)%Hadd. by eapply H8.
Qed.

(** Dropping the undone commands keeps the invariant. *)
Lemma ok_truncate s :
  ok s →
  ok {| main := main s;
        undo_ctrl :=
          {| command_list := take (index (undo_ctrl s))
                                  (command_list (undo_ctrl s));
             index := index (undo_ctrl s) |} |}.
Proof.
  intros [H1 H2 H3 H4 H5 H6 H7 H8]. unfold count in *.
  split; cbn; unfold count; cbn; try done.
  - rewrite length_take. lia.
  - intros k d [Hk _]%lookup_take_Some. by eapply H5.
  - intros k d _ [Hk Hlt]%lookup_take_Some. by eapply H6.
  - intros k k' d d' [Hk _]%lookup_take_Some [Hk' _]%lookup_take_Some.
    by eapply H7.
  - intros k k' d a Hlt [Hk _]%lookup_take_Some [Hk' _]%lookup_take_Some.
    by eapply H8.
Qed.

(** A command pushed on a stack without undone commands. *)
Lemma ok_append s w' c' :
  ok s → index (undo_ctrl s) = length (command_list (undo_ctrl s)) →
  wf w' → extends (main s) w' →
  Qt.deleted (bubble_list w') = Qt.deleted (bubble_list (main s)) →
  NoDup (_rect_list w').*2 →
  (∀ k d, command_list (undo_ctrl s) !! k = Some (CRemove d) →
          RemoveBubbleCommand._rect_item d ∉ (_rect_list w').*2) →
  match c' with
  | CAdd a =>
      ∀ k d, command_list (undo_ctrl s) !! k = Some (CRemove d) →
             AddBubbleCommand.rect a ≠ RemoveBubbleCommand._rect_item d
  | CRemove d' =>
      genuine w' d' ∧
      (RemoveBubbleCommand._rect_item d' ∉ (_rect_list w').*2) ∧
      ∀ k d, command_list (undo_ctrl s) !! k = Some (CRemove d) →
             RemoveBubbleCommand._rect_item d
             ≠ RemoveBubbleCommand._rect_item d'
  | CMove _ => True
  end →
  ok {| main := w';
        undo_ctrl :=
          {| command_list := command_list (undo_ctrl s) ++ [c'];
             index := S (index (undo_ctrl s)) |} |}.
Proof.
  intros [H1 H2 H3 H4 H5 H6 H7 H8] Hfull Hwf Hext Hdel Hnd Happlied Hc.
  set (cmds := command_list (undo_ctrl s)) in *.
  assert (∀ k c, (cmds ++ [c']) !! k = Some c →
            cmds !! k = Some c ∨ (k = length cmds ∧ c = c')) as Hlook.
  { intros k c [?|[? Hk]]%lookup_app_Some; [by left|right].
    apply list_lookup_singleton_Some in Hk as [? ?]. split; [lia|done]. }
  split; cbn; unfold count; cbn.
  - done.
  - done.
  - by rewrite Hdel.
  - rewrite length_app. cbn. lia.
  - intros k d [Hk|[-> <-]]%Hlook.
    + eapply genuine_extends; [done|]. by eapply H5.
    + tauto.
  - intros k d _ [Hk|[-> <-]]%Hlook; [by eapply Happlied|tauto].
  - intros k k' d d' [Hk|[-> Ec]]%Hlook [Hk'|[-> Ec']]%Hlook Heq.
    + by eapply H7.
    + subst c'. destruct Hc as (_ & _ & Hc). by apply Hc in Hk.
    + subst c'. destruct Hc as (_ & _ & Hc). by apply Hc in Hk'.
    + done.
  - intros k k' d a Hlt [Hk|[-> Ec]]%Hlook [Hk'|[-> Ec']]%Hlook.
    + by eapply H8.
    + subst c'. by eapply Hc.
    + apply lookup_lt_Some in Hk'. lia.
    + lia.
Qed.

(** [push] is truncation followed by the command's [redo]. *)
Lemma push_unfold cmd s :
  on_ctrl (UndoRedoController.push cmd) s
  = {| main := (call Redo cmd (main s)).2.2;
       undo_ctrl :=
         {| command_list := take (index (undo_ctrl s))
                              (command_list (undo_ctrl s))
                            ++ [(call Redo cmd (main s)).2.1];
            index := S (index (undo_ctrl s)) |} |}.
Proof.
  unfold on_ctrl, UndoRedoController.push, push.
  by destruct (call Redo cmd (main s)) as [res [c' w']].
Qed.

Lemma ok_push s w' c' :
  ok s → wf w' → extends (main s) w' →
  Qt.deleted (bubble_list w') = Qt.deleted (bubble_list (main s)) →
  NoDup (_rect_list w').*2 →
  (∀ r, r ∈ (_rect_list w').*2 →
        r ∈ (_rect_list (main s)).*2 ∨
        r ∉ omap command_rect (command_list (undo_ctrl s))) →
  match c' with
  | CAdd a =>
      AddBubbleCommand.rect a
      ∉ omap command_rect (command_list (undo_ctrl s))
  | CRemove d' =>
      genuine w' d' ∧
      (RemoveBubbleCommand._rect_item d' ∉ (_rect_list w').*2) ∧
      RemoveBubbleCommand._rect_item d' ∈ (_rect_list (main s)).*2
  | CMove _ => True
  end →
  ok {| main := w';
        undo_ctrl :=
          {| command_list := take (index (undo_ctrl s))
                               (command_list (undo_ctrl s)) ++ [c'];
             index := S (index (undo_ctrl s)) |} |}.
Proof.
  intros Hok Hwf Hext Hdel Hnd Hrects Hc.
  pose proof (ok_truncate s Hok) as Hok'.
  assert (∀ k d, take (index (undo_ctrl s)) (command_list (undo_ctrl s)) !! k
                   = Some (CRemove d) →
            (RemoveBubbleCommand._rect_item d ∉ (_rect_list (main s)).*2) ∧
            RemoveBubbleCommand._rect_item d
            ∈ omap command_rect (command_list (undo_ctrl s))) as Hold.
  { intros k d [Hk Hlt]%lookup_take_Some. split.
    - by eapply (ok_applied _ Hok).
    - apply list_elem_of_omap. exists (CRemove d). split; [|done].
      apply list_elem_of_lookup. eauto. }
  apply (ok_append _ w' c') in Hok'; cbn in *; try done.
  - rewrite length_take. pose proof (ok_index _ Hok). unfold count in *. lia.
  - intros k d [Hout Hin]%Hold Hr. apply Hrects in Hr as [?|?]; done.
  - destruct c' as [a|d'|]; [| |done].
    + intros k d [_ Hin]%Hold Heq. rewrite Heq in Hc. done.
    + destruct Hc as (? & ? & Hreg). split_and!; [done..|].
      intros k d [Hout _]%Hold Heq. rewrite Heq in Hout. done.
Qed.

End session_invariant.

Section session_steps.
Import MainWindow Inv QUndoStack Session.

Lemma is_new_spec s r :
  is_new s r = true →
  (r ∉ (_rect_list (main s)).*2) ∧
  r ∉ omap command_rect (command_list (undo_ctrl s)).
Proof.
  unfold is_new. intros [H1 H2]%andb_prop.
  by apply bool_decide_eq_true in H1, H2.
Qed.

(** Registering a new rectangle in a window that differs from the one of
    the session outside the registry. *)
Lemma ok_register_elsewhere s r w0 :
  ok s → is_new s r = true →
  _rect_list w0 = _rect_list (main s) →
  bubble_list w0 = bubble_list (main s) →
  next_item w0 = next_item (main s) →
  list_items w0 = list_items (main s) →
  let w' := (_add_bubble (RectItem r) w0).2 in
  wf w' ∧ extends (main s) w' ∧
  Qt.deleted (bubble_list w') = Qt.deleted (bubble_list (main s)) ∧
  NoDup (_rect_list w').*2 ∧
  (∀ r', r' ∈ (_rect_list w').*2 →
         r' ∈ (_rect_list (main s)).*2 ∨
         r' ∉ omap command_rect (command_list (undo_ctrl s))).
Proof.
  intros Hok [Hr Hcmd]%is_new_spec E1 E2 E3 E4 w'.
  destruct (add_bubble_elsewhere_summary (main s) w0 r E1 E2 E3 E4
              (ok_wf _ Hok)) as (Hwf & Hext & Hdel & Hin & Hnd).
  split_and!; [done..| |].
  - apply Hnd, (ok_rects _ Hok).
  - intros r' [->|?]%Hin; auto.
Qed.

(** Registering a new rectangle, as [_add_bubble] does after the
    rectangle went into the scene. *)
Lemma ok_register s r sc :
  ok s → is_new s r = true →
  let w' := (_add_bubble (RectItem r) (set_scene_items sc (main s))).2 in
  wf w' ∧ extends (main s) w' ∧
  Qt.deleted (bubble_list w') = Qt.deleted (bubble_list (main s)) ∧
  NoDup (_rect_list w').*2 ∧
  (∀ r', r' ∈ (_rect_list w').*2 →
         r' ∈ (_rect_list (main s)).*2 ∨
         r' ∉ omap command_rect (command_list (undo_ctrl s))).
Proof. intros Hok Hnew. by apply ok_register_elsewhere. Qed.

(** One round of [_apply_detections] leaves the window that [_add_bubble]
    leaves. *)
Lemma detected_rect_window r det w :
  (detected_rect r det w).2
  = (_add_bubble (RectItem r)
       (set_scene_items (scene_items w ∪ {[ r ]})
          (update_rect r (λ _, rect_of_detection det) w))).2.
Proof.
  unfold detected_rect, scene_addItem. unfold_monad. cbn [fst snd].
  change (scene_items (update_rect r (λ _, rect_of_detection det) w))
    with (scene_items w).
  by destruct (_add_bubble _ _) as [[]].
Qed.

Lemma ok_draw s r : ok s → is_new s r = true → ok (_on_new_rect r s).
Proof.
  intros Hok Hnew. unfold _on_new_rect. rewrite push_unfold.
  destruct (call_redo_add (AddBubbleCommand.init r) (main s))
    as (res & li & ->). cbn [fst snd AddBubbleCommand.rect AddBubbleCommand.init].
  destruct (ok_register s r (scene_items (main s) ∪ {[ r ]}) Hok Hnew)
    as (? & ? & ? & ? & ?).
  apply ok_push; try done. cbn. by apply is_new_spec in Hnew as [_ ?].
Qed.

Lemma ok_window s w' :
  ok s → wf w' → extends (main s) w' →
  Qt.deleted (bubble_list w') = Qt.deleted (bubble_list (main s)) →
  NoDup (_rect_list w').*2 →
  (∀ r, r ∈ (_rect_list w').*2 →
        r ∈ (_rect_list (main s)).*2 ∨
        r ∉ omap command_rect (command_list (undo_ctrl s))) →
  ok {| main := w'; undo_ctrl := undo_ctrl s |}.
Proof.
  intros Hok Hwf Hext Hdel Hnd Hrects.
  destruct (undo_ctrl s) as [cmds i] eqn:Hctrl.
  pose proof (ok_index _ Hok) as Hi. pose proof (ok_applied _ Hok) as Happ.
  rewrite Hctrl in Hi, Happ. unfold count in Hi. cbn in Hi, Happ, Hrects.
  apply (ok_update s); try done.
  - rewrite Hctrl. cbn. apply Forall2_same_length_lookup. split; [done|].
    intros k c c' Hc Hc'. simplify_eq. apply fields_kept_refl.
  - intros k d Hlt Hk Hr. apply Hrects in Hr as [Hr|Hr].
    + by eapply Happ.
    + apply Hr, list_elem_of_omap. exists (CRemove d). split; [|done].
      apply list_elem_of_lookup. eauto.
Qed.

Lemma ok_same_registry s w' :
  ok s →
  _rect_list w' = _rect_list (main s) → bubble_list w' = bubble_list (main s) →
  next_item w' = next_item (main s) → list_items w' = list_items (main s) →
  ok {| main := w'; undo_ctrl := undo_ctrl s |}.
Proof.
  intros Hok E1 E2 E3 E4.
  destruct (wf_same_registry _ w' E1 E2 E3 E4 (ok_wf _ Hok)) as [Hwf Hext].
  apply ok_window; try done.
  - by rewrite E2.
  - rewrite E1. apply (ok_rects _ Hok).
  - intros r. rewrite E1. auto.
Qed.

Lemma ok_mark_dirty s : ok s → ok (on_window _mark_dirty s).
Proof.
  intros Hok. unfold on_window. apply ok_same_registry; [done|..];
    unfold _mark_dirty; unfold_monad; cbn; by destruct (_dirty (main s)).
Qed.

Lemma ok_delete_selected s current :
  ok s → ok (delete_selected_bubble current s).
Proof.
  intros Hok. unfold delete_selected_bubble.
  destruct current as [li|]; [|done].
  destruct (list_find _ _) as [[k [li' r]]|] eqn:Hfind; [|done].
  apply list_find_Some in Hfind as (Hk & _ & _).
  apply ok_mark_dirty. rewrite push_unfold, call_redo_remove.
  cbn [fst snd].
  assert (r ∈ (_rect_list (main s)).*2) as Hr.
  { apply list_elem_of_fmap. exists (li', r). split; [done|].
    apply list_elem_of_lookup. eauto. }
  set (d := RemoveBubbleCommand.init (main s) r "Delete Bubble").
  assert (RemoveBubbleCommand._rect_item d = r) as Hd by done.
  rewrite Hd.
  destruct (remove_bubble_for_summary (main s) r (ok_wf _ Hok))
    as (Hwf & Hext & Hdel & Hsub & Hnd).
  destruct (Hnd (ok_rects _ Hok)) as [Hnd' Hout].
  apply ok_push; try done.
  - intros r' Hr'. left. by apply Hsub.
  - rewrite Hd. split_and!; [|done..].
    eapply genuine_extends; [done|]. apply genuine_init, (ok_wf _ Hok).
Qed.

Lemma ok_move s r old new :
  ok s →
  ok (on_ctrl (UndoRedoController.push
                 (CMove (MoveBubbleCommand.init r old new))) s).
Proof.
  intros Hok. rewrite push_unfold.
  destruct (call_move Redo (MoveBubbleCommand.init r old new) (main s))
    as (w' & -> & E1 & E2 & E3 & E4 & _). cbn [fst snd].
  destruct (wf_same_registry _ w' E1 E2 E3 E4 (ok_wf _ Hok)) as [Hwf Hext].
  apply ok_push; try done.
  - by rewrite E2.
  - rewrite E1. apply (ok_rects _ Hok).
  - intros r'. rewrite E1. auto.
Qed.

End session_steps.

Section session_undo_redo.
Import MainWindow Inv QUndoStack Session.

Lemma fields_kept_insert cmds k c c' :
  cmds !! k = Some c → fields_kept c c' →
  Forall2 fields_kept cmds (<[k := c']> cmds).
Proof.
  intros Hk Hc. rewrite <- (list_insert_id cmds k c) at 1 by done.
  apply Forall2_insert; [|done].
  apply Forall2_same_length_lookup. split; [done|].
  intros j x y Hx Hy. simplify_eq. apply fields_kept_refl.
Qed.

(** The list item that a [RemoveBubbleCommand] captured is outside the
    widget while the rectangle of the command is not registered. *)
Lemma captured_item_detached w d li :
  wf w → genuine w d → RemoveBubbleCommand._listitem d = Some li →
  RemoveBubbleCommand._rect_item d ∉ (_rect_list w).*2 →
  li ∉ Qt.rows (bubble_list w).
Proof.
  intros Hwf Hgen Hli Hout Hin. unfold genuine in Hgen. rewrite Hli in Hgen.
  destruct (RemoveBubbleCommand._row d); [|done]. destruct Hgen as [_ Hdata].
  rewrite <- (wf_rows _ Hwf) in Hin.
  apply list_elem_of_fmap in Hin as ([li' r] & -> & Hpair). cbn in *.
  apply (wf_data _ Hwf) in Hpair as Hdata'. rewrite Hdata in Hdata'.
  injection Hdata' as <-. apply Hout, list_elem_of_fmap.
  by exists (li', RemoveBubbleCommand._rect_item d).
Qed.

Lemma ok_undo s : ok s → ok (on_ctrl UndoRedoController.undo s).
Proof.
  intros Hok. unfold on_ctrl, UndoRedoController.undo, canUndo, undo.
  destruct s as [w [cmds i]]. cbn.
  case_bool_decide as Hi; [|done].
  destruct i as [|idx]; [lia|].
  destruct (cmds !! idx) as [c|] eqn:Hc; [|done].
  pose proof (ok_wf _ Hok) as Hwf. pose proof (ok_rects _ Hok) as Hnd.
  pose proof (ok_index _ Hok) as Hlen.
  pose proof (ok_applied _ Hok) as Happ.
  unfold count in Hlen. cbn in Hwf, Hnd, Hlen, Happ.
  destruct c as [a|d|m].
  - (* AddBubbleCommand.undo *)
    rewrite call_undo_add. rewrite list_insert_id by done.
    destruct (remove_bubble_for_summary w (AddBubbleCommand.rect a) Hwf)
      as (Hwf' & Hext & Hdel & Hsub & Hnd').
    eapply (ok_update _ _ _ _ Hok); cbn; try done.
    + by apply Hnd'.
    + apply Forall2_same_length_lookup. split; [done|].
      intros j x y Hx Hy. simplify_eq. apply fields_kept_refl.
    + lia.
    + intros k d Hlt Hk Hin%Hsub. eapply Happ; [|done..]. lia.
  - (* RemoveBubbleCommand.undo *)
    rewrite call_undo_remove. rewrite list_insert_id by done.
    pose proof (ok_genuine _ Hok idx d Hc) as Hgen. cbn in Hgen.
    assert (RemoveBubbleCommand._rect_item d ∉ (_rect_list w).*2) as Hout
      by (eapply Happ; [|done]; lia).
    assert (∀ k d', (k < idx)%nat → cmds !! k = Some (CRemove d') →
              RemoveBubbleCommand._rect_item d'
              ≠ RemoveBubbleCommand._rect_item d) as Hother.
    { intros k d' Hlt Hk Heq.
      pose proof (ok_removed _ Hok k idx d' d Hk Hc Heq). lia. }
    destruct (RemoveBubbleCommand._row d) as [row|] eqn:Hrow,
      (RemoveBubbleCommand._listitem d) as [li|] eqn:Hli.
    + assert (li ∉ Qt.rows (bubble_list w)) as Hrows
        by by eapply captured_item_detached.
      assert (li ∉ Qt.deleted (bubble_list w)) as Halive
        by (pose proof (ok_alive _ Hok) as E; cbn in E; rewrite E;
            apply not_elem_of_empty).
      destruct (undo_effect d w row li Hrow Hli Hrows Halive)
        as (w' & Hrun & E1 & E2 & _).
      destruct (wf_undo d w Hwf Hgen) as [Hwf' Hext].
      { unfold Registry.detached. rewrite Hli.
        apply andb_true_intro. split; by apply bool_decide_eq_true. }
      rewrite Hrun in Hwf', Hext |- *. cbn in Hwf', Hext |- *.
      eapply (ok_update _ _ _ _ Hok); cbn; try done.
      * by rewrite E2.
      * rewrite E1, insert_at_fmap. cbn. by apply insert_at_NoDup.
      * apply Forall2_same_length_lookup. split; [done|].
        intros j x y Hx Hy. simplify_eq. apply fields_kept_refl.
      * lia.
      * intros k d' Hlt Hk. rewrite E1, insert_at_fmap. cbn.
        intros [Heq|Hin]%insert_at_elem_of.
        -- by eapply Hother.
        -- eapply Happ; [|done..]. lia.
    + unfold genuine in Hgen. by rewrite Hrow, Hli in Hgen.
    + unfold genuine in Hgen. by rewrite Hrow, Hli in Hgen.
    + assert (RemoveBubbleCommand.undo (d, w)
              = (Raise (AttributeError "_row"), (d, w))) as ->.
      { unfold RemoveBubbleCommand.undo. unfold_monad. cbn.
        by rewrite Hrow. }
      cbn.
      refine (ok_update _ _ _ _ Hok Hwf (extends_refl _) eq_refl Hnd _ _ _);
        cbn.
      * apply Forall2_same_length_lookup. split; [done|].
        intros j x y Hx Hy. simplify_eq. apply fields_kept_refl.
      * lia.
      * intros k d' Hlt Hk. eapply Happ; [|done]. lia.
  - (* MoveBubbleCommand.undo *)
    destruct (call_move Undo m w) as (w' & -> & E1 & E2 & E3 & E4 & _).
    rewrite list_insert_id by done.
    destruct (wf_same_registry _ w' E1 E2 E3 E4 Hwf) as [Hwf' Hext].
    eapply (ok_update _ _ _ _ Hok); cbn; try done.
    + by rewrite E2.
    + by rewrite E1.
    + apply Forall2_same_length_lookup. split; [done|].
      intros j x y Hx Hy. simplify_eq. apply fields_kept_refl.
    + lia.
    + intros k d' Hlt Hk. rewrite E1. eapply Happ; [|done]. lia.
Qed.

End session_undo_redo.

Section session_redo.
Import MainWindow Inv QUndoStack Session.

Lemma ok_redo s : ok s → ok (on_ctrl UndoRedoController.redo s).
Proof.
  intros Hok. unfold on_ctrl, UndoRedoController.redo, canRedo, redo, count.
  destruct s as [w [cmds i]]. cbn.
  case_bool_decide as Hi; [|done].
  destruct (cmds !! i) as [c|] eqn:Hc; [|done].
  pose proof (ok_wf _ Hok) as Hwf. pose proof (ok_rects _ Hok) as Hnd.
  pose proof (ok_applied _ Hok) as Happ. cbn in Hwf, Hnd, Happ.
  destruct c as [a|d|m].
  - (* AddBubbleCommand.redo *)
    destruct (call_redo_add a w) as (res & li & ->). cbn [fst snd].
    set (r := AddBubbleCommand.rect a).
    destruct (register_summary w r (scene_items w ∪ {[ r ]}) Hwf)
      as (Hwf' & Hext & Hdel & Hin & Hnd').
    eapply (ok_update _ _ _ _ Hok); cbn [main undo_ctrl command_list index];
      try done.
    + by apply Hnd'.
    + by apply (fields_kept_insert _ _ (CAdd a)).
    + rewrite length_insert. lia.
    + intros k d Hlt Hk.
      apply list_lookup_insert_Some in Hk as [(_ & ? & _)|[Hne Hk]]; [done|].
      intros [Heq|Hr]%Hin.
      * assert (k < i)%nat as Hlt' by lia.
        pose proof (ok_order _ Hok k i d a Hlt' Hk Hc) as Hneq. cbn in Hneq.
        by rewrite Heq in Hneq.
      * eapply Happ; [|done..]. lia.
  - (* RemoveBubbleCommand.redo *)
    rewrite call_redo_remove. rewrite list_insert_id by done. cbn [fst snd].
    destruct (remove_bubble_for_summary w (RemoveBubbleCommand._rect_item d)
                Hwf) as (Hwf' & Hext & Hdel & Hsub & Hnd').
    destruct (Hnd' Hnd) as [Hnd2 Hout].
    eapply (ok_update _ _ _ _ Hok); cbn; try done.
    + apply Forall2_same_length_lookup. split; [done|].
      intros j x y Hx Hy. simplify_eq. apply fields_kept_refl.
    + intros k d' Hlt Hk. destruct (decide (k = i)) as [->|Hne].
      * by simplify_eq.
      * intros Hr%Hsub. eapply Happ; [|done..]. lia.
  - (* MoveBubbleCommand.redo *)
    destruct (call_move Redo m w) as (w' & -> & E1 & E2 & E3 & E4 & _).
    rewrite list_insert_id by done. cbn [fst snd].
    destruct (wf_same_registry _ w' E1 E2 E3 E4 Hwf) as [Hwf' Hext].
    eapply (ok_update _ _ _ _ Hok); cbn; try done.
    + by rewrite E2.
    + by rewrite E1.
    + apply Forall2_same_length_lookup. split; [done|].
      intros j x y Hx Hy. simplify_eq. apply fields_kept_refl.
    + intros k d' Hlt Hk. rewrite E1. destruct (decide (k = i)) as [->|Hne].
      * by simplify_eq.
      * eapply Happ; [|done..]. lia.
Qed.

Lemma ok_step a s : ok s → new_rects [a] s = true → ok (step a s).
Proof.
  intros Hok Hnew. cbn in Hnew. rewrite andb_true_r in Hnew.
  destruct a as [r|current|r old new| | |r det|r|r]; cbn.
  - by apply ok_draw.
  - by apply ok_delete_selected.
  - by apply ok_move.
  - by apply ok_undo.
  - by apply ok_redo.
  - unfold on_window.
    rewrite detected_rect_window.
    destruct (ok_register_elsewhere s r
                (set_scene_items (scene_items (main s) ∪ {[ r ]})
                   (update_rect r (λ _, rect_of_detection det) (main s)))
                Hok Hnew) as (? & ? & ? & ? & ?); [done..|].
    by apply ok_window.
  - unfold _on_rect_created. destruct (decide _); [done|].
    unfold on_window.
    destruct (ok_register s r (scene_items (main s)) Hok Hnew)
      as (Hwf & Hext & Hdel & Hnd & Hin).
    assert (set_scene_items (scene_items (main s)) (main s) = main s) as E
      by by destruct (main s).
    rewrite E in *. by apply ok_window.
  - unfold on_window.
    destruct (remove_bubble_for_summary (main s) r (ok_wf _ Hok))
      as (Hwf & Hext & Hdel & Hsub & Hnd).
    apply ok_window; try done.
    + by apply Hnd, (ok_rects _ Hok).
    + intros r' Hr'. left. by apply Hsub.
Qed.

Lemma ok_run acts s : ok s → new_rects acts s = true → ok (run acts s).
Proof.
  revert s. induction acts as [|a acts IH]; intros s Hok Hnew; [done|].
  cbn in Hnew. apply andb_prop in Hnew as [Ha Hacts].
  cbn. apply IH; [|done]. apply ok_step; [done|].
  cbn. by rewrite Ha.
Qed.

Lemma ok_init heap : ok (Session.init heap).
Proof.
  split; cbn; try done.
  - apply (wf_world_start heap).
  - apply NoDup_nil_2.
Qed.

End session_redo.

Section session_theorems.
Import MainWindow Inv QUndoStack Session.

(** X1.  Whatever the user does through the undo stack and the bubble
    handlers -- draw a rectangle ([_on_new_rect]), delete the selected
    bubble ([delete_selected_bubble]), move one, undo, redo -- and whatever
    detections, [_on_rect_created] calls and context-menu deletions come in
    between, as long as every rectangle that enters is a new object: the
    pair list and the list widget describe the same rows, no rectangle is
    registered twice, and the stack index stays within the stack.
    ([clear_bubbles] is not among the actions: it destroys list items that
    commands on the stack still hold.) *)
Theorem session_lists_stay_consistent heap acts :
  new_rects acts (Session.init heap) = true →
  let s := run acts (Session.init heap) in
  Registry.consistent (main s) ∧
  NoDup (_rect_list (main s)).*2 ∧
  (index (undo_ctrl s) ≤ count (undo_ctrl s))%nat.
Proof.
  intros Hnew s.
  pose proof (ok_run acts _ (ok_init heap) Hnew) as Hok. fold s in Hok.
  split_and!.
  - apply wf_consistent, (ok_wf _ Hok).
  - apply (ok_rects _ Hok).
  - apply (ok_index _ Hok).
Qed.

Lemma session_lists_stay_consistent_witness :
  new_rects Demo.editing (Session.init Ex.heap0) = true ∧
  let s := run Demo.editing (Session.init Ex.heap0) in
  Registry.consistent (main s) ∧
  NoDup (_rect_list (main s)).*2 ∧
  (index (undo_ctrl s) ≤ count (undo_ctrl s))%nat.
Proof.
  split; [reflexivity|].
  apply (session_lists_stay_consistent Ex.heap0 Demo.editing). reflexivity.
Defined.

End session_theorems.

Section session_edits.
Import MainWindow Inv QUndoStack Session.

(** [undo] right after a [push] undoes the pushed command. *)
Lemma undo_after_push cmds i c w :
  (i ≤ length cmds)%nat →
  on_ctrl UndoRedoController.undo
    {| main := w;
       undo_ctrl := {| command_list := take i cmds ++ [c]; index := S i |} |}
  = {| main := (call Undo c w).2.2;
       undo_ctrl :=
         {| command_list := take i cmds ++ [(call Undo c w).2.1];
            index := i |} |}.
Proof.
  intros Hi. unfold on_ctrl, UndoRedoController.undo, canUndo, undo. cbn.
  case_bool_decide; [|lia].
  assert (length (take i cmds) = i) as Hlen by (rewrite length_take; lia).
  rewrite lookup_app_r by lia. rewrite Hlen, Nat.sub_diag. cbn.
  destruct (call Undo c w) as [res [c' w']]. cbn.
  do 2 f_equal. rewrite insert_app_r_alt by lia.
  by rewrite Hlen, Nat.sub_diag.
Qed.

Lemma mark_dirty_registry w :
  let w' := (_mark_dirty w).2 in
  _rect_list w' = _rect_list w ∧ bubble_list w' = bubble_list w ∧
  next_item w' = next_item w ∧ list_items w' = list_items w ∧
  scene_items w' = scene_items w.
Proof. unfold _mark_dirty. unfold_monad. cbn. by destruct (_dirty w). Qed.

(** The pair that [delete_selected_bubble] finds for a list item of the
    registry, and the row and list item that the command captures. *)
Lemma selected_pair w li :
  wf w → NoDup (_rect_list w).*2 → li ∈ (_rect_list w).*1 →
  ∃ k r, list_find (λ p, p.1 = li) (_rect_list w) = Some (k, (li, r)) ∧
    RemoveBubbleCommand._row (RemoveBubbleCommand.init w r "Delete Bubble")
      = Some k ∧
    RemoveBubbleCommand._listitem
      (RemoveBubbleCommand.init w r "Delete Bubble") = Some li.
Proof.
  intros Hwf Hnd Hli.
  destruct (list_find (λ p, p.1 = li) (_rect_list w)) as [[k [li' r]]|]
    eqn:Hfind.
  - apply list_find_Some in Hfind as (Hk & Heq & _). cbn in Heq. subst li'.
    exists k, r. split; [done|].
    assert (Qt.rows (bubble_list w) !! k = Some li) as Hrow
      by (by rewrite <- (wf_rows _ Hwf), list_lookup_fmap, Hk).
    assert (Qt.user_data (list_items w li) = Some r) as Hdata.
    { apply (wf_data _ Hwf), list_elem_of_lookup. eauto. }
    set (c := RemoveBubbleCommand.init w r "Delete Bubble").
    destruct (RemoveBubbleCommand._row c) as [k'|] eqn:Hrow',
      (RemoveBubbleCommand._listitem c) as [li'|] eqn:Hli'.
    + destruct (captured_row w r "Delete Bubble" k' li' Hwf Hrow' Hli')
        as (_ & Hpair & _).
      assert ((_rect_list w).*2 !! k = Some r) as H1
        by (by rewrite list_lookup_fmap, Hk).
      assert ((_rect_list w).*2 !! k' = Some r) as H2
        by (by rewrite list_lookup_fmap, Hpair).
      pose proof (NoDup_lookup _ _ _ _ Hnd H1 H2) as ->.
      by simplify_eq.
    + pose proof (genuine_init w r "Delete Bubble" Hwf) as Hgen.
      unfold genuine in Hgen. fold c in Hgen. by rewrite Hrow', Hli' in Hgen.
    + pose proof (genuine_init w r "Delete Bubble" Hwf) as Hgen.
      unfold genuine in Hgen. fold c in Hgen. by rewrite Hrow', Hli' in Hgen.
    + exfalso. subst c. unfold RemoveBubbleCommand.init in Hrow'.
      cbn in Hrow'. destruct (list_find _ (Qt.rows _)) eqn:Hnone; [done|].
      apply list_find_None in Hnone. rewrite Forall_forall in Hnone.
      apply (Hnone li); [|done]. apply list_elem_of_lookup. eauto.
  - apply list_find_None in Hfind. rewrite Forall_forall in Hfind.
    apply list_elem_of_fmap in Hli as ([li' r] & -> & Hin).
    by apply Hfind in Hin.
Qed.

End session_edits.

Section session_edit_theorems.
Import MainWindow Inv QUndoStack Session.

Lemma delete_last {A} (l : list A) (x : A) : delete (length l) (l ++ [x]) = l.
Proof. induction l as [|y l IH]; simpl; [done|]. by f_equal. Qed.

Lemma NoDup_delete_not_elem_of {A} (l : list A) k (a : A) :
  NoDup l → l !! k = Some a → a ∉ delete k l.
Proof.
  intros Hnd Hk (j & Hj)%list_elem_of_lookup.
  rewrite list_lookup_delete in Hj. destruct (decide (j < k)%nat).
  - pose proof (NoDup_lookup _ _ _ _ Hnd Hk Hj). lia.
  - pose proof (NoDup_lookup _ _ _ _ Hnd Hk Hj). lia.
Qed.

(** The lists after a pushed command and its [undo], for a state that
    satisfies the invariant. *)
Lemma undo_reverts_push s a :
  ok s → SessionEdits.pushes s a = true →
  let s' := step UndoAction (step a s) in
  _rect_list (main s') = _rect_list (main s) ∧
  Qt.rows (bubble_list (main s')) = Qt.rows (bubble_list (main s)) ∧
  index (undo_ctrl s') = index (undo_ctrl s) ∧
  canRedo (undo_ctrl s') = true.
Proof.
  intros Hok Hpush.
  pose proof (ok_wf _ Hok) as Hwf. pose proof (ok_rects _ Hok) as Hnd.
  pose proof (ok_index _ Hok) as Hi. unfold count in Hi.
  assert (∀ c (w : MainWindow.t), canRedo
            {| command_list :=
                 take (index (undo_ctrl s)) (command_list (undo_ctrl s)) ++ [c];
               index := index (undo_ctrl s) |} = true) as Hredo.
  { intros c _. unfold canRedo, count. cbn. apply bool_decide_eq_true.
    rewrite length_app, length_take. cbn. lia. }
  destruct a as [r|[li|]|r old new| | |r det|r|r]; try done; cbn in Hpush |- *.
  - (* a rectangle was drawn *)
    apply is_new_spec in Hpush as [Hr _].
    unfold _on_new_rect. rewrite push_unfold.
    destruct (call_redo_add (AddBubbleCommand.init r) (main s))
      as (res & li & ->).
    cbn [fst snd AddBubbleCommand.rect AddBubbleCommand.init].
    set (w0 := set_scene_items (scene_items (main s) ∪ {[ r ]}) (main s)).
    destruct (wf_set_scene_items (scene_items (main s) ∪ {[ r ]}) _ Hwf)
      as [Hwf0 _]. fold w0 in Hwf0.
    destruct (add_bubble_new w0 r Hwf0 Hr) as (w1 & Hrun & E1 & E2 & _).
    destruct (wf_add_bubble (RectItem r) w0 Hwf0) as [Hwf1 _].
    rewrite Hrun in Hwf1 |- *. cbn [fst snd] in Hwf1 |- *.
    rewrite undo_after_push by done. rewrite call_undo_add.
    cbn [fst snd AddBubbleCommand.rect main undo_ctrl index command_list].
    assert (r ∈ (_rect_list w1).*2) as Hin.
    { rewrite E1, fmap_app. apply elem_of_app. right. cbn.
      by apply list_elem_of_singleton. }
    destruct (remove_bubble_for_present w1 r Hwf1 Hin)
      as (k & li' & w2 & Hk & _ & Hrun2 & F1 & F2 & _).
    rewrite Hrun2. cbn [fst snd].
    assert (k = length (_rect_list (main s))) as ->.
    { rewrite E1 in Hk. apply lookup_app_Some in Hk as [Hk|[? Hk]].
      - destruct Hr. apply list_elem_of_fmap. exists (li', r).
        split; [done|]. apply list_elem_of_lookup. eauto.
      - apply list_lookup_singleton_Some in Hk as [? _]. cbn in *. lia. }
    rewrite F1, F2, E1, E2. cbn.
    rewrite delete_last. split_and!; [done| |done|apply (Hredo _ w2)].
    rewrite <- (length_fmap fst), (wf_rows _ Hwf). apply delete_last.
  - (* the selected bubble was deleted *)
    apply bool_decide_eq_true in Hpush.
    destruct (selected_pair (main s) li Hwf Hnd Hpush)
      as (k & r & Hfind & Hrow & Hli).
    rewrite Hfind. unfold on_window.
    rewrite push_unfold, call_redo_remove.
    cbn [fst snd main undo_ctrl].
    set (d := RemoveBubbleCommand.init (main s) r "Delete Bubble") in *.
    change (RemoveBubbleCommand._rect_item d) with r.
    apply list_find_Some in Hfind as (Hk & _ & _).
    assert (r ∈ (_rect_list (main s)).*2) as Hin.
    { apply list_elem_of_fmap. exists (li, r). split; [done|].
      apply list_elem_of_lookup. eauto. }
    destruct (remove_bubble_for_present (main s) r Hwf Hin)
      as (k' & li' & w1 & Hk' & _ & Hrun & E1 & E2 & _).
    assert (k' = k) as ->.
    { assert ((_rect_list (main s)).*2 !! k = Some r) as H1
        by (by rewrite list_lookup_fmap, Hk).
      assert ((_rect_list (main s)).*2 !! k' = Some r) as H2
        by (by rewrite list_lookup_fmap, Hk').
      by pose proof (NoDup_lookup _ _ _ _ Hnd H2 H1). }
    rewrite Hrun. cbn [fst snd].
    destruct (mark_dirty_registry w1) as (M1 & M2 & _).
    set (w2 := (_mark_dirty w1).2) in *.
    rewrite undo_after_push by done. rewrite call_undo_remove.
    cbn [fst snd main undo_ctrl index command_list].
    assert (Qt.rows (bubble_list (main s)) !! k = Some li) as Hrowk
      by (by rewrite <- (wf_rows _ Hwf), list_lookup_fmap, Hk).
    destruct (undo_effect d w2 k li Hrow Hli) as (w3 & Hrun3 & F1 & F2 & _).
    { rewrite M2, E2. cbn.
      by apply NoDup_delete_not_elem_of; [apply (wf_nodup _ Hwf)|]. }
    { rewrite M2, E2. cbn. apply (wf_alive _ Hwf), list_elem_of_lookup.
      eauto. }
    rewrite Hrun3. cbn [fst snd]. rewrite F1, F2, M1, M2, E1, E2. cbn.
    rewrite !insert_at_delete by done.
    split_and!; [done..|apply (Hredo _ w3)].
  - (* a bubble was moved *)
    rewrite push_unfold.
    destruct (call_move Redo (MoveBubbleCommand.init r old new) (main s))
      as (w1 & -> & E1 & E2 & _). cbn [fst snd].
    rewrite undo_after_push by done.
    destruct (call_move Undo (MoveBubbleCommand.init r old new) w1)
      as (w2 & -> & F1 & F2 & _). cbn [fst snd main undo_ctrl index].
    rewrite F1, F2, E1, E2. split_and!; [done..|apply (Hredo _ w2)].
Qed.

(** X2.  In a session as in X1, [undo] right after an edit that pushed a
    command -- a new rectangle was drawn, the selected bubble was deleted,
    or a bubble was moved -- leaves the pair list and the rows of the list
    widget as they were before the edit, puts the stack index back and
    makes [redo] available. *)
Theorem undo_reverts_last_edit heap acts a :
  new_rects acts (Session.init heap) = true →
  let s := run acts (Session.init heap) in
  SessionEdits.pushes s a = true →
  let s' := step UndoAction (step a s) in
  _rect_list (main s') = _rect_list (main s) ∧
  Qt.rows (bubble_list (main s')) = Qt.rows (bubble_list (main s)) ∧
  index (undo_ctrl s') = index (undo_ctrl s) ∧
  canRedo (undo_ctrl s') = true.
Proof.
  intros Hnew s Hpush. apply undo_reverts_push; [|done].
  by apply ok_run; [apply ok_init|].
Qed.

Lemma undo_reverts_last_edit_witness :
  let s := run Demo.three_bubbles (Session.init Ex.heap0) in
  let s' := step UndoAction (step (DeleteSelected (Some 1%nat)) s) in
  _rect_list (main (step (DeleteSelected (Some 1%nat)) s))
    = [(0%nat, 1%nat); (2%nat, 3%nat)] ∧
  _rect_list (main s') = _rect_list (main s) ∧
  Qt.rows (bubble_list (main s')) = Qt.rows (bubble_list (main s)) ∧
  index (undo_ctrl s') = index (undo_ctrl s) ∧
  canRedo (undo_ctrl s') = true.
Proof.
  split; [reflexivity|].
  apply (undo_reverts_last_edit Ex.heap0 Demo.three_bubbles
           (DeleteSelected (Some 1%nat))); reflexivity.
Defined.

End session_edit_theorems.

Section session_redo_theorems.
Import MainWindow Inv QUndoStack Session.

Lemma redo_at_top s :
  canRedo (undo_ctrl s) = false → step RedoAction s = s.
Proof.
  intros Hno. cbn. unfold on_ctrl, UndoRedoController.redo. rewrite Hno.
  by destruct s.
Qed.

(** X3.  In a session as in X1, an edit that pushes a command leaves
    nothing to redo: the commands that had been undone are gone from the
    stack, [redo] does nothing, and the pushed command is the one that
    [undo] takes back next. *)
Theorem new_edit_discards_redo heap acts a :
  new_rects acts (Session.init heap) = true →
  let s := run acts (Session.init heap) in
  SessionEdits.pushes s a = true →
  let s' := step a s in
  canRedo (undo_ctrl s') = false ∧ step RedoAction s' = s' ∧
  canUndo (undo_ctrl s') = true ∧
  count (undo_ctrl s') = S (index (undo_ctrl s)) ∧
  index (undo_ctrl s') = S (index (undo_ctrl s)).
Proof.
  intros Hnew s Hpush.
  assert (ok s) as Hok by (by apply ok_run; [apply ok_init|]).
  pose proof (ok_index _ Hok) as Hi. unfold count in Hi.
  assert (∀ cmd,
    let s' := on_ctrl (UndoRedoController.push cmd) s in
    canRedo (undo_ctrl s') = false ∧ canUndo (undo_ctrl s') = true ∧
    count (undo_ctrl s') = S (index (undo_ctrl s)) ∧
    index (undo_ctrl s') = S (index (undo_ctrl s))) as Hgen.
  { intros cmd. rewrite push_unfold. unfold canRedo, canUndo, count. cbn.
    rewrite length_app, length_take. cbn.
    split_and!; [|apply bool_decide_eq_true|..]; try lia.
    apply bool_decide_eq_false. lia. }
  assert (∀ s', canRedo (undo_ctrl s') = false ∧
                canUndo (undo_ctrl s') = true ∧
                count (undo_ctrl s') = S (index (undo_ctrl s)) ∧
                index (undo_ctrl s') = S (index (undo_ctrl s)) →
            canRedo (undo_ctrl s') = false ∧ step RedoAction s' = s' ∧
            canUndo (undo_ctrl s') = true ∧
            count (undo_ctrl s') = S (index (undo_ctrl s)) ∧
            index (undo_ctrl s') = S (index (undo_ctrl s))) as Hfin.
  { intros s' (H1 & H2 & H3 & H4). split_and!; try done.
    by apply redo_at_top. }
  destruct a as [r|[li|]|r old new| | |r det|r|r]; try done; cbn in Hpush.
  - apply Hfin, Hgen.
  - apply Hfin. cbn. unfold delete_selected_bubble.
    apply bool_decide_eq_true in Hpush.
    destruct (selected_pair (main s) li (ok_wf _ Hok) (ok_rects _ Hok) Hpush)
      as (k & r & -> & _). unfold on_window. cbn [undo_ctrl]. apply Hgen.
  - apply Hfin, Hgen.
Qed.

Lemma new_edit_discards_redo_witness :
  let s := run [Draw 1%nat; Draw 2%nat; UndoAction] (Session.init Ex.heap0) in
  let s' := step (Draw 3%nat) s in
  canRedo (undo_ctrl s) = true ∧
  canRedo (undo_ctrl s') = false ∧ step RedoAction s' = s' ∧
  canUndo (undo_ctrl s') = true ∧
  count (undo_ctrl s') = S (index (undo_ctrl s)) ∧
  index (undo_ctrl s') = S (index (undo_ctrl s)).
Proof.
  split; [reflexivity|].
  apply (new_edit_discards_redo Ex.heap0 [Draw 1%nat; Draw 2%nat; UndoAction]
           (Draw 3%nat)); reflexivity.
Defined.

End session_redo_theorems.

(* ====================================================================== *)
(** ** More on the registry operations *)
(* ====================================================================== *)

Section registry_theorems.
Import MainWindow Inv QUndoStack Session.

Lemma add_bubble_registers w r :
  r ∈ (_rect_list (_add_bubble (RectItem r) w).2).*2.
Proof.
  unfold _add_bubble. unfold_monad.
  destruct (decide _) as [Hr|Hr]; [done|].
  unfold new_list_item. cbn [set_rect_list _rect_list bubble_list next_item].
  assert (r ∈ (_rect_list w ++ [(next_item w, r)]).*2) as Hin.
  { rewrite fmap_app. apply elem_of_app. right.
    by apply list_elem_of_singleton. }
  unfold Qt.addItem, Qt.insertItem. cbn.
  destruct (decide _); [done|]. by destruct (decide _).
Qed.

(** X4.  [_add_bubble] registers an object at most once: called a second
    time with the same object, in whatever state the window is and however
    the first call ended, it returns [None] and changes nothing. *)
Theorem add_bubble_twice_is_once o w :
  _add_bubble o (_add_bubble o w).2 = (Ok None, (_add_bubble o w).2).
Proof.
  destruct o as [r|]; [|done].
  apply add_bubble_registered, add_bubble_registers.
Qed.

Lemma elem_of_delete_ne {A} (l : list A) k (a b : A) :
  l !! k = Some a → b ≠ a → b ∈ l → b ∈ delete k l.
Proof.
  intros Hk Hne Hb. rewrite delete_take_drop.
  rewrite <- (take_drop_middle l k a Hk) in Hb.
  apply elem_of_app in Hb as [?|[?|?]%elem_of_cons]; [|done|];
    apply elem_of_app; auto.
Qed.

(** X5.  In a session as in X1, [_remove_bubble_for] (the slot of the
    context-menu Delete, connected once per registration of the rectangle
    and so possibly called several times in a row) does not raise, removes
    the rectangle it is given and no other, and a second call changes
    nothing. *)
Theorem remove_bubble_for_removes_one heap acts r :
  new_rects acts (Session.init heap) = true →
  let w := main (run acts (Session.init heap)) in
  let w1 := (_remove_bubble_for r w).2 in
  _remove_bubble_for r w = (Ok tt, w1) ∧
  _remove_bubble_for r w1 = (Ok tt, w1) ∧
  (r ∉ (_rect_list w1).*2) ∧
  (∀ r', r' ≠ r → r' ∈ (_rect_list w1).*2 ↔ r' ∈ (_rect_list w).*2) ∧
  Registry.consistent w1.
Proof.
  intros Hnew w w1.
  assert (ok (run acts (Session.init heap))) as Hok
    by (by apply ok_run; [apply ok_init|]).
  pose proof (ok_wf _ Hok) as Hwf. pose proof (ok_rects _ Hok) as Hnd.
  fold w in Hwf, Hnd.
  destruct (remove_bubble_for_summary w r Hwf) as (Hwf1 & _ & _ & Hsub & Hout).
  destruct (Hout Hnd) as [_ Hr]. fold w1 in Hwf1, Hsub, Hr.
  assert (_remove_bubble_for r w = (Ok tt, w1) ∧
          ∀ r', r' ≠ r → r' ∈ (_rect_list w).*2 → r' ∈ (_rect_list w1).*2)
    as [Hrun Hkeep].
  { subst w1. destruct (decide (r ∈ (_rect_list w).*2)) as [Hin|Hin].
    - destruct (remove_bubble_for_present w r Hwf Hin)
        as (k & li & w' & Hk & _ & Hrun & E1 & _).
      rewrite Hrun. cbn. split; [done|]. intros r' Hne Hr'.
      rewrite E1, list_fmap_delete.
      apply (elem_of_delete_ne _ _ r); [|done..].
      by rewrite list_lookup_fmap, Hk.
    - rewrite remove_bubble_for_absent by done. by split. }
  split_and!; [done|by apply remove_bubble_for_absent|done| |].
  - intros r' Hne. split; [apply Hsub|by apply Hkeep].
  - by apply wf_consistent.
Qed.

Lemma remove_bubble_for_removes_one_witness :
  let w := main (run Demo.three_bubbles (Session.init Ex.heap0)) in
  let w1 := (_remove_bubble_for 2%nat w).2 in
  (_rect_list w).*2 = [1%nat; 2%nat; 3%nat] ∧
  _remove_bubble_for 2%nat w = (Ok tt, w1) ∧
  _remove_bubble_for 2%nat w1 = (Ok tt, w1) ∧
  (2%nat ∉ (_rect_list w1).*2) ∧
  (∀ r', r' ≠ 2%nat → r' ∈ (_rect_list w1).*2 ↔ r' ∈ (_rect_list w).*2) ∧
  Registry.consistent w1.
Proof.
  split; [reflexivity|].
  apply (remove_bubble_for_removes_one Ex.heap0 Demo.three_bubbles 2%nat).
  reflexivity.
Defined.

End registry_theorems.

Section progress_facts.
Import MainWindow Inv.

Lemma update_progress_in_range w :
  let p := progress (_update_progress w).2 in
  (1 ≤ p.1)%nat ∧ (p.2 ≤ p.1)%nat.
Proof.
  unfold _update_progress. unfold_monad. cbn.
  destruct (decide _) as [|Hne]; cbn; [lia|].
  split; [lia|]. apply length_filter.
Qed.

Lemma add_bubble_progress o w :
  let p := progress w in let p' := progress (_add_bubble o w).2 in
  (1 ≤ p.1)%nat ∧ (p.2 ≤ p.1)%nat → (1 ≤ p'.1)%nat ∧ (p'.2 ≤ p'.1)%nat.
Proof.
  intros p p' Hp. subst p p'. destruct o as [r|]; [|done].
  unfold _add_bubble. unfold_monad.
  destruct (decide _); [done|].
  unfold new_list_item. cbn [set_rect_list _rect_list bubble_list next_item].
  destruct (Qt.addItem _ _) as [lw|e]; [|done].
  cbn [fst snd].
  match goal with
  | |- context [_update_progress ?w0] =>
      pose proof (update_progress_in_range w0) as H;
      destruct (_update_progress w0) as [[[]|e] w1]
  end; done.
Qed.

Lemma remove_bubble_progress idx w :
  let p := progress w in let p' := progress (_remove_bubble idx w).2 in
  (1 ≤ p.1)%nat ∧ (p.2 ≤ p.1)%nat → (1 ≤ p'.1)%nat ∧ (p'.2 ≤ p'.1)%nat.
Proof.
  intros p p' Hp. subst p p'.
  unfold _remove_bubble. unfold_monad.
  destruct (pop _ _) as [[[li rect] rest]|e]; [|done].
  unfold scene_removeItem. unfold_monad. cbn [fst snd].
  destruct (Qt.row _ _) as [row|e]; [|done]. cbn [fst snd].
  match goal with
  | |- context [_update_progress ?w0] =>
      apply (update_progress_in_range w0)
  end.
Qed.

Lemma remove_bubble_for_progress r w :
  let p := progress w in let p' := progress (_remove_bubble_for r w).2 in
  (1 ≤ p.1)%nat ∧ (p.2 ≤ p.1)%nat → (1 ≤ p'.1)%nat ∧ (p'.2 ≤ p'.1)%nat.
Proof.
  intros p p' Hp. subst p p'. unfold _remove_bubble_for. unfold_monad.
  destruct (list_find _ _) as [[k ?]|]; [|done].
  by apply remove_bubble_progress.
Qed.

Lemma undo_keeps_progress c w :
  progress (RemoveBubbleCommand.undo (c, w)).2.2 = progress w.
Proof.
  unfold RemoveBubbleCommand.undo. unfold_monad. cbn.
  destruct (RemoveBubbleCommand._row c), (RemoveBubbleCommand._listitem c);
    cbn; try done.
  destruct (Qt.insertItem _ _ _); cbn; [|done].
  unfold viewer_add_graphics_item, scene_addItem, _mark_dirty.
  unfold_monad. cbn. by destruct (_dirty w).
Qed.

(** X6.  The progress bar is never asked for a value outside its range:
    after any sequence of calls of [_add_bubble], [_remove_bubble],
    [_remove_bubble_for], [clear_bubbles] and of [redo] and [undo] of
    [RemoveBubbleCommand] objects, whether or not they raise, the maximum
    set by [_update_progress] is at least 1 and the value is at most the
    maximum. *)
Theorem progress_stays_in_range heap ops :
  let p := progress (Registry.win (Registry.run ops (Registry.start heap))) in
  (1 ≤ p.1)%nat ∧ (p.2 ≤ p.1)%nat.
Proof.
  assert (∀ s, (let p := progress (Registry.win s) in
                (1 ≤ p.1)%nat ∧ (p.2 ≤ p.1)%nat) →
               let p := progress (Registry.win (Registry.run ops s)) in
               (1 ≤ p.1)%nat ∧ (p.2 ≤ p.1)%nat) as Hrun.
  { induction ops as [|o ops IH]; intros s Hs; [done|].
    cbn. apply IH. clear IH.
    destruct o as [o|idx|rect| |rect|k|k]; cbn.
    - by apply add_bubble_progress.
    - by apply remove_bubble_progress.
    - by apply remove_bubble_for_progress.
    - done.
    - done.
    - destruct (Registry.cmds s !! k) as [c|]; [|done].
      pose proof (redo_keeps_command c (Registry.win s)) as [_ Hw].
      destruct (RemoveBubbleCommand.redo _) as [? [c' w']]. cbn in *.
      subst w'. by apply remove_bubble_for_progress.
    - destruct (Registry.cmds s !! k) as [c|]; [|done].
      pose proof (undo_keeps_progress c (Registry.win s)) as Hw.
      destruct (RemoveBubbleCommand.undo _) as [? [c' w']]. cbn in *.
      by rewrite Hw. }
  apply Hrun. cbn. lia.
Qed.

End progress_facts.

(* ====================================================================== *)
(** ** More on [AnnotationController] *)
(* ====================================================================== *)

Section annotation_theorems.
Import AnnotationController.

(** The state that [save] leaves when the folder is there and the sidecar
    path is free for a file. *)
Lemma save_writes image_path anns c fs1 :
  FS.mkdir (fs c) (sidecar_dir image_path) = Ok fs1 →
  sidecar image_path ∉ FS.dirs fs1 →
  save image_path anns c
  = (Ok tt,
     {| annotations := annotations c;
        fs := FS.set_files
          (<[sidecar image_path :=
               FS.TextFile (Json.dumps
                 (PDict [("bubbles", PList (entry_of_annotation <$> anns))]))]>
             (FS.files fs1)) fs1;
        emitted := emitted c ++ [annotations_saved image_path] |}).
Proof.
  intros Hmk Hfile.
  destruct (mkdir_ok _ _ _ Hmk) as (Hdir & Hfiles & Hagain).
  unfold save. unfold_monad.
  rewrite (annotation_file_for_ok _ _ _ Hmk). cbn.
  rewrite write_text_ok; [done|done|].
  unfold sidecar. by rewrite parent_joinpath.
Qed.

Lemma mkdir_again fs p : p ∈ FS.dirs fs → FS.mkdir fs p = Ok fs.
Proof. intros Hp. unfold FS.mkdir. by destruct (decide _). Qed.

(** What [load] emits for a sidecar that [save] wrote. *)
Lemma load_saved image_path anns c :
  sidecar_dir image_path ∈ FS.dirs (fs c) →
  FS.files (fs c) !! sidecar image_path
  = Some (FS.TextFile (Json.dumps
      (PDict [("bubbles", PList (entry_of_annotation <$> anns))]))) →
  load image_path c
  = (Ok tt,
     {| annotations := annotations c; fs := fs c;
        emitted := emitted c ++
          [annotations_loaded image_path (AnnotationData.normalise <$> anns)]
     |}).
Proof.
  intros Hdir Hfile.
  destruct (load_emits_once image_path c (fs c) (mkdir_again _ _ Hdir))
    as (l & -> & ->).
  unfold FS.exists_. rewrite Hfile.
  rewrite (bool_decide_eq_true_2 (is_Some _)) by done.
  rewrite orb_true_r. by rewrite (parse_saved _ _ anns).
Qed.

(** X7.  The sidecar holds what was saved last: after two [save] calls for
    the same page, [load] emits the annotations of the second call (every
    field as JSON gives it back), and none of the three calls touches the
    in-memory collection. *)
Theorem last_save_wins image_path anns1 anns2 c fs1 :
  FS.mkdir (fs c) (sidecar_dir image_path) = Ok fs1 →
  sidecar image_path ∉ FS.dirs fs1 →
  ∃ c3,
    (save image_path anns1;; save image_path anns2;; load image_path) c
    = (Ok tt, c3) ∧
    emitted c3
    = emitted c ++
      [annotations_saved image_path; annotations_saved image_path;
       annotations_loaded image_path (AnnotationData.normalise <$> anns2)] ∧
    annotations c3 = annotations c.
Proof.
  intros Hmk Hfile.
  destruct (mkdir_ok _ _ _ Hmk) as (Hdir & Hfiles & Hagain).
  unfold_monad.
  rewrite (save_writes _ anns1 _ _ Hmk Hfile).
  erewrite (save_writes _ anns2); [|by apply mkdir_again|done].
  cbn [fs annotations emitted FS.set_files FS.files FS.dirs].
  rewrite insert_insert_eq.
  erewrite (load_saved _ anns2); [|done|by apply lookup_insert_eq].
  eexists. split; [done|]. cbn. split; [|done].
  by rewrite <- !app_assoc.
Qed.

Lemma last_save_wins_witness :
  let p := Ex.page "p1.jpg" in
  ∃ c3,
    (save p [Ex.ann0; Ex.ann0];; save p [Ex.ann0];; load p) (init Ex.fs0)
    = (Ok tt, c3) ∧
    emitted c3
    = [annotations_saved p; annotations_saved p;
       annotations_loaded p [Ex.ann0_loaded]] ∧
    annotations c3 = [].
Proof.
  intros p.
  destruct (last_save_wins p [Ex.ann0; Ex.ann0] [Ex.ann0] (init Ex.fs0) _
              eq_refl) as (c3 & Hrun & Hem & Hann).
  - vm_compute. intros H. discriminate H.
  - exists c3. split_and!; done.
Defined.

End annotation_theorems.

Section annotation_theorems_2.
Import AnnotationController.

(** JSON gives a value back as it is once it has been through JSON. *)
Lemma json_normalise_idem :
  ∀ v, Json.normalise (Json.normalise v) = Json.normalise v.
Proof.
  fix IH 1. intros [| | | | |l|l|d]; cbn; try done.
  - f_equal. induction l as [|x l IHl]; cbn; [done|]. by rewrite IH, IHl.
  - f_equal. induction l as [|x l IHl]; cbn; [done|]. by rewrite IH, IHl.
  - f_equal. induction d as [|[k x] d IHd]; cbn; [done|].
    by rewrite IH, IHd.
Qed.

Lemma annotation_normalise_idem a :
  AnnotationData.normalise (AnnotationData.normalise a)
  = AnnotationData.normalise a.
Proof.
  unfold AnnotationData.normalise. cbn. by rewrite !json_normalise_idem.
Qed.

(** X8.  What [load] emits for a sidecar written by [save] survives
    another [save] and [load] unchanged: the second [annotations_loaded]
    carries the same list as the first. *)
Theorem loaded_annotations_reload_exactly image_path anns c fs1 :
  FS.mkdir (fs c) (sidecar_dir image_path) = Ok fs1 →
  sidecar image_path ∉ FS.dirs fs1 →
  let loaded := AnnotationData.normalise <$> anns in
  ∃ c4,
    (save image_path anns;; load image_path;;
     save image_path loaded;; load image_path) c = (Ok tt, c4) ∧
    emitted c4
    = emitted c ++
      [annotations_saved image_path; annotations_loaded image_path loaded;
       annotations_saved image_path; annotations_loaded image_path loaded].
Proof.
  intros Hmk Hfile loaded.
  destruct (mkdir_ok _ _ _ Hmk) as (Hdir & Hfiles & Hagain).
  unfold_monad.
  rewrite (save_writes _ anns _ _ Hmk Hfile).
  erewrite (load_saved _ anns); [|done|by apply lookup_insert_eq].
  erewrite (save_writes _ loaded); [|by apply mkdir_again|done].
  cbn [fs annotations emitted FS.set_files FS.files FS.dirs].
  erewrite (load_saved _ loaded); [|done|by apply lookup_insert_eq].
  eexists. split; [done|]. cbn. rewrite <- !app_assoc. cbn.
  assert (AnnotationData.normalise <$> loaded = loaded) as ->; [|done].
  subst loaded. rewrite <- list_fmap_compose.
  apply list_fmap_ext. intros _ a _. apply annotation_normalise_idem.
Qed.

Lemma loaded_annotations_reload_exactly_witness :
  let p := Ex.page "p1.jpg" in
  ∃ c4,
    (save p [Ex.ann0];; load p;; save p [Ex.ann0_loaded];; load p)
      (init Ex.fs0) = (Ok tt, c4) ∧
    emitted c4
    = [annotations_saved p; annotations_loaded p [Ex.ann0_loaded];
       annotations_saved p; annotations_loaded p [Ex.ann0_loaded]].
Proof.
  intros p.
  destruct (loaded_annotations_reload_exactly p [Ex.ann0] (init Ex.fs0) _
              eq_refl) as (c4 & Hrun & Hem).
  - vm_compute. intros H. discriminate H.
  - exists c4. split; done.
Defined.

Lemma mapM_raise {A B} (f : A → result B) (l : list A) a e :
  a ∈ l → f a = Raise e → ∃ e', mapM f l = Raise e'.
Proof.
  intros Ha Hf. induction l as [|x l IH]; [by apply elem_of_nil in Ha|].
  change (∃ e', (y ← f x; k ← mapM f l; mret (y :: k)) = Raise e').
  apply elem_of_cons in Ha as [->|Ha].
  - unfold mbind, result_bind. rewrite Hf. eauto.
  - destruct (IH Ha) as (e' & He'). unfold mbind, result_bind in *.
    destruct (f x); [rewrite He'|]; eauto.
Qed.

(** X9.  One damaged entry hides every annotation of the page: when the
    [bubbles] list of the sidecar holds an entry for which the
    [AnnotationData] cannot be built (an entry without ["rect"], or one that
    is no JSON object), [load] emits the empty list, whatever the other
    entries are. *)
Theorem load_drops_all_on_bad_entry image_path c fs' d es bad e :
  FS.mkdir (fs c) (sidecar_dir image_path) = Ok fs' →
  FS.files fs' !! sidecar image_path
  = Some (FS.TextFile (Json.Document (PDict d))) →
  dict_lookup d "bubbles" = Some (PList es) →
  bad ∈ es → annotation_of_entry bad = Raise e →
  load image_path c
  = (Ok tt, {| annotations := annotations c; fs := fs';
               emitted := emitted c ++ [annotations_loaded image_path []] |}).
Proof.
  intros Hmk Hfile Hbubbles Hbad He.
  destruct (load_emits_once image_path c fs' Hmk) as (l & -> & ->).
  do 3 f_equal.
  destruct (FS.exists_ _ _); [|done].
  unfold parse, FS.read_text. rewrite Hfile. cbn. rewrite Hbubbles. cbn.
  destruct (mapM_raise annotation_of_entry es bad e Hbad He) as (e' & Hraise).
  by rewrite Hraise.
Qed.

Lemma load_drops_all_on_bad_entry_witness :
  let p := Ex.page "p1.jpg" in
  AnnotationController.annotation_of_entry
    (PDict [("rect", PList [PFloat 1; PFloat 2; PFloat 30; PFloat 40]);
            ("kind", PStr "bubble")])
  = Ok {| AnnotationData.rect := PList [PFloat 1; PFloat 2; PFloat 30;
                                        PFloat 40];
          AnnotationData.kind := PStr "bubble";
          AnnotationData.done_ := PBool false;
          AnnotationData.ocr := PStr "";
          AnnotationData.translation := PStr "" |} ∧
  load p (init DemoFS.fs_damaged)
  = (Ok tt, {| annotations := []; fs := DemoFS.fs_damaged;
               emitted := [annotations_loaded p []] |}).
Proof.
  intros p. split; [reflexivity|].
  apply (load_drops_all_on_bad_entry p (init DemoFS.fs_damaged)
           DemoFS.fs_damaged DemoFS.damaged_doc DemoFS.damaged_entries
           (PDict [("kind", PStr "free-text")]) (KeyError "rect"));
    [reflexivity|reflexivity|reflexivity| |reflexivity].
  unfold DemoFS.damaged_entries. apply list_elem_of_further, list_elem_of_here.
Defined.

End annotation_theorems_2.

Section annotation_theorems_3.
Import AnnotationController.

(** A write that the file system refuses: [save] logs it and returns. *)
Lemma save_blocked image_path anns c fs1 :
  FS.mkdir (fs c) (sidecar_dir image_path) = Ok fs1 →
  sidecar image_path ∈ FS.dirs fs1 →
  save image_path anns c = (Ok tt, set_fs fs1 c).
Proof.
  intros Hmk Hdir. unfold save. unfold_monad.
  rewrite (annotation_file_for_ok _ _ _ Hmk). cbn.
  unfold FS.write_text. by destruct (decide _).
Qed.

(** X10.  [save] keeps a failed write to itself: when the sidecar path is
    taken by a folder, [save] returns normally, writes no file and emits no
    signal, so that nothing tells the caller from a successful save except
    the missing [annotations_saved]. *)
Theorem save_fails_silently image_path anns c fs1 :
  FS.mkdir (fs c) (sidecar_dir image_path) = Ok fs1 →
  sidecar image_path ∈ FS.dirs fs1 →
  save image_path anns c = (Ok tt, set_fs fs1 c) ∧
  FS.files fs1 = FS.files (fs c).
Proof.
  intros Hmk Hdir. split; [by apply save_blocked|].
  by apply mkdir_ok in Hmk as (_ & ? & _).
Qed.

Lemma save_fails_silently_witness :
  let p := Ex.page "p1.jpg" in
  let c := init DemoFS.fs_sidecar_is_folder in
  save p [Ex.ann0] c = (Ok tt, c) ∧ emitted c = [].
Proof.
  intros p c.
  destruct (save_fails_silently p [Ex.ann0] c DemoFS.fs_sidecar_is_folder)
    as [Hsave _]; [reflexivity|vm_compute; tauto|].
  split; [exact Hsave|reflexivity].
Defined.

(** X11.  [load] only reads: whatever the file system holds and however
    the call ends, no file is created or changed, the in-memory collection
    [annotations] is left as it is (what was read is handed to the
    [annotations_loaded] signal and not stored), and at most one signal is
    emitted. *)
Theorem load_only_reads image_path c :
  let c' := (load image_path c).2 in
  FS.files (fs c') = FS.files (fs c) ∧
  annotations c' = annotations c ∧
  (emitted c' = emitted c ∨
   ∃ l, emitted c' = emitted c ++ [annotations_loaded image_path l]).
Proof.
  intros c'. subst c'.
  destruct (FS.mkdir (fs c) (sidecar_dir image_path)) as [fs'|e] eqn:Hmk.
  - destruct (load_emits_once image_path c fs' Hmk) as (l & -> & _). cbn.
    apply mkdir_ok in Hmk as (_ & Hfiles & _). split_and!; eauto.
  - unfold load, _annotation_file_for. unfold_monad.
    fold (sidecar_dir image_path). rewrite Hmk. cbn. auto.
Qed.

End annotation_theorems_3.

(* ====================================================================== *)
(** ** The Save action *)
(* ====================================================================== *)

Section save_action_facts.
Import AnnotationController.

Lemma entries_of_annotations anns :
  mapM SaveAction.entry_of_object (SaveAction.Annotation <$> anns)
  = Ok (entry_of_annotation <$> anns).
Proof.
  induction anns as [|a anns IH]; [done|].
  change (mapM SaveAction.entry_of_object
            (SaveAction.Annotation <$> a :: anns))
    with (y ← SaveAction.entry_of_object (SaveAction.Annotation a);
          k ← mapM SaveAction.entry_of_object (SaveAction.Annotation <$> anns);
          mret (y :: k)).
  by rewrite IH.
Qed.

(** On a list of [AnnotationData] the general [save] is the [save] of the
    controller. *)
Lemma save_objects_agree image_path anns c :
  SaveAction.save image_path (SaveAction.Annotation <$> anns) c
  = save image_path anns c.
Proof.
  unfold SaveAction.save, save. unfold_monad.
  destruct (_annotation_file_for image_path c) as [[f|e] c']; [|done].
  by rewrite entries_of_annotations.
Qed.

(** [save] on a list that starts with a plain value: the folder is made,
    then building the payload raises. *)
Lemma save_plain_raises image_path v objs c :
  let r := SaveAction.save image_path (SaveAction.Plain v :: objs) c in
  (∃ e, r.1 = Raise e ∧
        (∀ fs', FS.mkdir (fs c) (sidecar_dir image_path) = Ok fs' →
                e = AttributeError "rect")) ∧
  FS.files (fs r.2) = FS.files (fs c) ∧
  emitted r.2 = emitted c ∧ annotations r.2 = annotations c.
Proof.
  intros r. subst r. unfold SaveAction.save, _annotation_file_for.
  unfold_monad. fold (sidecar_dir image_path).
  destruct (FS.mkdir _ _) as [fs'|e] eqn:Hmk; cbn.
  - apply mkdir_ok in Hmk as (_ & Hfiles & _). split_and!; [|done..].
    exists (AttributeError "rect"). by split.
  - split_and!; [|done..]. exists e. by split.
Qed.

(** X12.  The Save action cannot save a page that has bubbles:
    [_on_save_clicked] hands [AnnotationController.save] a list of dicts,
    [save] reads [ann.rect] of the first one, and the [AttributeError] ends
    in the "Save Failed" box.  No file is written or changed, no
    [annotations_saved] is emitted and [_dirty] keeps its value; when the
    [.kara] folder is there or can be made, the exception is the
    [AttributeError]. *)
Theorem save_action_fails_with_bubbles env s path :
  SaveAction.cur_img_path s = Some path →
  MainWindow._rect_list (SaveAction.registry s) ≠ [] →
  ∃ e s',
    SaveAction._on_save_clicked env s = (Ok (SaveAction.SaveFailed e), s') ∧
    FS.files (fs (SaveAction.annotations s'))
    = FS.files (fs (SaveAction.annotations s)) ∧
    emitted (SaveAction.annotations s')
    = emitted (SaveAction.annotations s) ∧
    SaveAction.registry s' = SaveAction.registry s ∧
    (∀ fs', FS.mkdir (fs (SaveAction.annotations s)) (sidecar_dir path)
            = Ok fs' → e = AttributeError "rect").
Proof.
  intros Hpath Hne. unfold SaveAction._on_save_clicked. unfold_monad.
  rewrite Hpath.
  destruct (MainWindow._rect_list (SaveAction.registry s)) as [|p l];
    [done|].
  cbn [fmap list_fmap]. unfold SaveAction.on_annotations.
  match goal with
  | |- context [SaveAction.save path (SaveAction.Plain ?v :: ?objs)] =>
      destruct (save_plain_raises path v objs (SaveAction.annotations s))
        as ((e & He & Hattr) & Hfiles & Hem & _);
      destruct (SaveAction.save path (SaveAction.Plain v :: objs)
                  (SaveAction.annotations s)) as [res c'] eqn:Hsave
  end.
  cbn in He, Hfiles, Hem. subst res. cbn.
  exists e. eexists. split; [done|]. cbn. done.
Qed.

Lemma save_action_fails_with_bubbles_witness :
  ∃ s',
    SaveAction._on_save_clicked DemoSave.env DemoSave.window
    = (Ok (SaveAction.SaveFailed (AttributeError "rect")), s') ∧
    FS.files (fs (SaveAction.annotations s')) = FS.files Ex.fs0 ∧
    emitted (SaveAction.annotations s') = [] ∧
    MainWindow._dirty (SaveAction.registry s') = true.
Proof.
  destruct (save_action_fails_with_bubbles DemoSave.env DemoSave.window
              (Ex.page "p1.jpg") eq_refl)
    as (e & s' & Hrun & Hfiles & Hem & Hreg & He).
  - vm_compute. intros H. discriminate H.
  - exists s'. rewrite (He _ eq_refl) in Hrun. rewrite Hreg.
    split_and!; [exact Hrun|exact Hfiles|exact Hem|reflexivity].
Defined.

(** X13.  With a page loaded and no bubble registered, the Save action
    always ends with the "Saved annotations" status and a clean [_dirty]
    flag once the [.kara] folder is there or can be made: after the sidecar
    was written with an empty [bubbles] list, and just as well after the
    write failed because a folder sits at the sidecar path, in which case
    no file was written and no [annotations_saved] was emitted. *)
Theorem save_action_reports_saved env s path fs1 :
  SaveAction.cur_img_path s = Some path →
  MainWindow._rect_list (SaveAction.registry s) = [] →
  FS.mkdir (fs (SaveAction.annotations s)) (sidecar_dir path) = Ok fs1 →
  ∃ s',
    SaveAction._on_save_clicked env s = (Ok SaveAction.Saved, s') ∧
    MainWindow._dirty (SaveAction.registry s') = false ∧
    if decide (sidecar path ∈ FS.dirs fs1)
    then fs (SaveAction.annotations s') = fs1 ∧
         FS.files fs1 = FS.files (fs (SaveAction.annotations s)) ∧
         emitted (SaveAction.annotations s')
         = emitted (SaveAction.annotations s)
    else FS.files (fs (SaveAction.annotations s')) !! sidecar path
         = Some (FS.TextFile (Json.Document
                   (PDict [("bubbles", PList [])]))) ∧
         emitted (SaveAction.annotations s')
         = emitted (SaveAction.annotations s) ++ [annotations_saved path].
Proof.
  intros Hpath Hnil Hmk. unfold SaveAction._on_save_clicked. unfold_monad.
  rewrite Hpath, Hnil. cbn [fmap list_fmap]. unfold SaveAction.on_annotations.
  change (@nil SaveAction.pyobject)
    with (SaveAction.Annotation <$> (@nil AnnotationData.t)).
  rewrite save_objects_agree.
  destruct (decide _) as [Hdir|Hdir].
  - rewrite (save_blocked path [] _ _ Hmk Hdir).
    pose proof Hmk as (_ & Hfiles & _)%mkdir_ok.
    cbn. eexists. split; [done|]. cbn. done.
  - rewrite (save_writes path [] _ _ Hmk Hdir). cbn.
    eexists. split; [done|]. cbn. split; [done|]. split; [|done].
    apply lookup_insert_eq.
Qed.

Lemma save_action_reports_saved_witness :
  ∃ s',
    SaveAction._on_save_clicked DemoSave.env DemoSave.blocked
    = (Ok SaveAction.Saved, s') ∧
    MainWindow._dirty (SaveAction.registry DemoSave.blocked) = true ∧
    MainWindow._dirty (SaveAction.registry s') = false ∧
    FS.files (fs (SaveAction.annotations s')) = FS.files Ex.fs0 ∧
    emitted (SaveAction.annotations s') = [].
Proof.
  destruct (save_action_reports_saved DemoSave.env DemoSave.blocked
              (Ex.page "p1.jpg") DemoFS.fs_sidecar_is_folder
              eq_refl eq_refl eq_refl) as (s' & Hrun & Hdirty & Hrest).
  destruct (decide _) as [_|Hno] in Hrest.
  - destruct Hrest as (Hfs & Hfiles & Hem). exists s'.
    split_and!; [exact Hrun|reflexivity|exact Hdirty| |exact Hem].
    rewrite Hfs. reflexivity.
  - exfalso. apply Hno. vm_compute. tauto.
Defined.

End save_action_facts.

(* ====================================================================== *)
(** ** The viewer: zoom, point clamping, cropping after a load *)
(* ====================================================================== *)

Section viewer_facts.
Import PanelView.

Lemma zoom_state_kept e v :
  _current_scale v = 1%Q → _zoom_percent v = 100 →
  _current_scale (handle e v) = 1%Q ∧ _zoom_percent (handle e v) = 100.
Proof.
  intros Hs Hz. destruct e as [img| |angle ctrl]; cbn.
  - unfold load_cv2_image. by destruct (PanelViewer.shape img) as [[h w] ch].
  - unfold fit_to_window. by destruct (PanelViewer.pixmap_isNull _).
  - unfold wheelEvent, _apply_zoom.
    destruct (has_photo v && ctrl); [|done]. by destruct (negb _).
Qed.

Lemma zoom_state_run es v :
  _current_scale v = 1%Q → _zoom_percent v = 100 →
  _current_scale (run es v) = 1%Q ∧ _zoom_percent (run es v) = 100.
Proof.
  revert v. induction es as [|e es IH]; intros v Hs Hz; [done|].
  cbn. destruct (zoom_state_kept e v Hs Hz). by apply IH.
Qed.

(** A Ctrl+wheel step at scale 1. *)
Lemma wheel_zoom_at_one angle v :
  _current_scale v = 1%Q → has_photo v = true →
  let f := if decide (angle > 0) then ZOOM_IN_FACTOR else ZOOM_OUT_FACTOR in
  wheelEvent angle true v
  = {| viewer := viewer v; pixmap_size := pixmap_size v;
       _current_scale := 1; _zoom_percent := _zoom_percent v;
       _scale := Some (1 * f)%Q;
       _zoom := Some (if decide (angle > 0) then 125 else 80);
       view_calls := view_calls v ++ [Scale f f];
       zoom_changed := zoom_changed v
                       ++ [if decide (angle > 0) then 125 else 80] |}.
Proof.
  intros Hs Hp f. unfold wheelEvent, _apply_zoom. rewrite Hp, Hs. cbn.
  fold f. subst f. by destruct (decide (angle > 0)).
Qed.

(** X14.  The viewer never records a zoom: whatever images are loaded and
    however often the view is fitted or zoomed with Ctrl+wheel,
    [_current_scale] stays 1 and the [zoom] property stays 100, because
    [_apply_zoom] writes the new scale to [_scale] and [_zoom] instead.  So
    the bounds [MIN_SCALE] and [MAX_SCALE] are only ever checked against the
    factor of a single step: with an image shown, every Ctrl+wheel step
    scales the view by 1.25 or 0.8 and emits 125 or 80, and [n] steps in a
    row after a load scale the view [n] times, for every [n]. *)
Theorem zoom_is_never_recorded es :
  let v := run es init in
  _current_scale v = 1%Q ∧ zoom v = 100 ∧
  (∀ angle, has_photo v = true →
     let f := if decide (angle > 0) then ZOOM_IN_FACTOR
              else ZOOM_OUT_FACTOR in
     view_calls (wheelEvent angle true v) = view_calls v ++ [Scale f f] ∧
     zoom_changed (wheelEvent angle true v)
     = zoom_changed v ++ [if decide (angle > 0) then 125 else 80] ∧
     zoom (wheelEvent angle true v) = 100) ∧
  (∀ n, has_photo v = true →
     view_calls (run (replicate n (Wheel 120 true)) v)
     = view_calls v
       ++ replicate n (Scale ZOOM_IN_FACTOR ZOOM_IN_FACTOR)).
Proof.
  intros v.
  destruct (zoom_state_run es init eq_refl eq_refl) as [Hs Hz].
  fold v in Hs, Hz. split_and!; [done..| |].
  - intros angle Hp f. rewrite (wheel_zoom_at_one angle v Hs Hp). cbn.
    by fold f.
  - intros n. clearbody v. revert v Hs Hz.
    induction n as [|n IH]; intros v Hs Hz Hp; [by rewrite app_nil_r|].
    change (run (replicate (S n) (Wheel 120 true)) v)
      with (run (replicate n (Wheel 120 true)) (wheelEvent 120 true v)).
    pose proof (wheel_zoom_at_one 120 v Hs Hp) as Hstep. cbn in Hstep.
    rewrite IH; rewrite Hstep; cbn; try done.
    by rewrite <- app_assoc.
Qed.

Lemma zoom_is_never_recorded_witness :
  let v := run [Load Ex.img0] init in
  has_photo v = true ∧
  view_calls (run (replicate 8 (Wheel 120 true)) v)
  = FitInView :: replicate 8 (Scale (5 # 4) (5 # 4)) ∧
  zoom (run (replicate 8 (Wheel 120 true)) v) = 100 ∧
  (MAX_SCALE < (5 # 4) ^ 8)%Q.
Proof.
  intros v.
  destruct (zoom_is_never_recorded [Load Ex.img0]) as (_ & _ & _ & Hn).
  split_and!; [reflexivity|exact (Hn 8%nat eq_refl)|reflexivity|reflexivity].
Defined.

End viewer_facts.

Section viewer_points.
Import PanelView.

Lemma int_of_float_inject k : int_of_float (inject_Z k) = k.
Proof. unfold int_of_float. cbn. apply Z.quot_1_r. Qed.








(** X16.  After [load_cv2_image] of an image with at least one row and one
    column, [crop_region] of the rectangle that covers the image returns
    the whole image, and a rectangle with a corner outside is cut to the
    part inside; before any image was loaded [crop_region] returns
    [None]. *)
Theorem crop_after_load img h w ch v rect :
  PanelViewer.shape img = (h, w, ch) → (0 < h)%nat → (0 < w)%nat →
  crop_region init rect = None ∧
  ∃ sub,
    crop_region (load_cv2_image img v)
      {| Qt.x := 0; Qt.y := 0;
         Qt.width := inject_Z (Z.of_nat w);
         Qt.height := inject_Z (Z.of_nat h) |} = Some sub ∧
    PanelViewer.shape sub = PanelViewer.shape img ∧
    (∀ i j k, PanelViewer.at_ sub i j k = PanelViewer.at_ img i j k) ∧
    crop_region (load_cv2_image img v)
      {| Qt.x := -5; Qt.y := -5;
         Qt.width := inject_Z (Z.of_nat w) + 50;
         Qt.height := inject_Z (Z.of_nat h) + 50 |} = Some sub.
Proof.
  intros Hshape Hh Hw. split; [done|].
  unfold crop_region, load_cv2_image, PanelViewer.crop_region.
  rewrite Hshape. cbn [viewer PanelViewer._orig_cv PanelViewer.pixmap_isNull].
  rewrite bool_decide_eq_false_2 by lia. rewrite Hshape.
  cbn [Qt.x Qt.y Qt.width Qt.height].
  rewrite !int_of_float_inject.
  assert (int_of_float 0 = 0) as -> by done.
  assert (int_of_float (-5) = -5) as -> by done.
  assert (∀ n, int_of_float (inject_Z (Z.of_nat n) + 50)
               = Z.of_nat n + 50) as Hplus.
  { intros n. unfold int_of_float. cbn. rewrite Z.quot_1_r. lia. }
  rewrite !Hplus.
  replace (Z.min (Z.max 0 0) (Z.of_nat w)) with 0 by lia.
  replace (Z.min (Z.max 0 0) (Z.of_nat h)) with 0 by lia.
  replace (Z.min (Z.max 0 (-5)) (Z.of_nat w)) with 0 by lia.
  replace (Z.min (Z.max 0 (-5)) (Z.of_nat h)) with 0 by lia.
  replace (Z.min (Z.max 0 (Z.of_nat w)) (Z.of_nat w - 0))
    with (Z.of_nat w) by lia.
  replace (Z.min (Z.max 0 (Z.of_nat h)) (Z.of_nat h - 0))
    with (Z.of_nat h) by lia.
  replace (Z.min (Z.max 0 (Z.of_nat w + 50)) (Z.of_nat w - 0))
    with (Z.of_nat w) by lia.
  replace (Z.min (Z.max 0 (Z.of_nat h + 50)) (Z.of_nat h - 0))
    with (Z.of_nat h) by lia.
  destruct (decide _) as [|_]; [lia|].
  eexists. split; [done|]. unfold PanelViewer.slice2. rewrite Hshape.
  rewrite !slice_bound_in_range by lia. cbn.
  split_and!; [|done..]. do 2 f_equal; lia.
Qed.

Lemma crop_after_load_witness :
  ∃ sub,
    crop_region (load_cv2_image Ex.img0 init)
      {| Qt.x := 0; Qt.y := 0; Qt.width := 6; Qt.height := 4 |} = Some sub ∧
    PanelViewer.shape sub = (4, 6, 3)%nat ∧
    PanelViewer.at_ sub 3 5 2 = 352.
Proof.
  destruct (crop_after_load Ex.img0 4 6 3 init
              {| Qt.x := 0; Qt.y := 0; Qt.width := 6; Qt.height := 4 |}
              eq_refl) as (_ & sub & Hsub & Hshape & Hat & _); [lia..|].
  exists sub. split_and!; [exact Hsub|exact Hshape|].
  rewrite Hat. reflexivity.
Defined.

End viewer_points.

(* ====================================================================== *)
(** ** Resizing a rectangle item *)
(* ====================================================================== *)

Section resize_facts.
Import Resize.



End resize_facts.

(* ====================================================================== *)
(** ** What the model wrappers return *)
(* ====================================================================== *)

Section model_facts.
Import SpeechBubbleDetector.

(** X18.  [detect] drops the boxes whose confidence is below [min_conf]
    and nothing else: once the detector is ready and the model returns its
    boxes, [detect] returns; every detection it returns has a confidence of
    at least [min_conf], the detections are the remaining boxes in the
    order of the model's result, and when no box is below [min_conf] (with
    the default 0.0, when no confidence is negative) there is one detection
    per box. *)
Theorem detect_keeps_confident_boxes d model image_path min_conf boxes :
  ready d = true → _model d = Some model → model image_path = inr boxes →
  ∃ dets,
    detect d image_path min_conf = Ok dets ∧
    Forall (λ det, (min_conf <= conf det)%Q) dets ∧
    sublist ((λ det, (conf det, xyxy det, xywh det)) <$> dets)
            ((λ b, (box_conf b, box_xyxy b, box_xywh b)) <$> boxes) ∧
    (∀ b, b ∈ boxes → (min_conf <= box_conf b)%Q →
          ∃ det, det ∈ dets ∧ conf det = box_conf b ∧
                 xyxy det = box_xyxy b ∧ xywh det = box_xywh b ∧
                 cls det = int_of_float (box_cls b)) ∧
    (Forall (λ b, (min_conf <= box_conf b)%Q) boxes →
     (λ det, (conf det, xyxy det, xywh det)) <$> dets
     = (λ b, (box_conf b, box_xyxy b, box_xywh b)) <$> boxes).
Proof.
  intros Hready Hmodel Hrun. unfold detect. rewrite Hready, Hmodel, Hrun. cbn.
  eexists. split; [done|]. split_and!.
  - apply Forall_fmap, Forall_forall. intros b [Hb _]%list_elem_of_filter.
    cbn. by apply Qnot_lt_le.
  - rewrite <- list_fmap_compose. apply fmap_sublist, sublist_filter.
  - intros b Hb Hconf. eexists. split.
    + apply list_elem_of_fmap. exists b. split; [done|].
      apply list_elem_of_filter. split; [|done]. by apply Qle_not_lt.
    + done.
  - intros Hall. rewrite <- list_fmap_compose. f_equal.
    clear Hrun. induction Hall as [|b boxes Hb _ IH]; [done|].
    rewrite filter_cons_True by by apply Qle_not_lt. by rewrite IH.
Qed.

Lemma detect_keeps_confident_boxes_witness :
  let d := _load_model (λ _, Some Ex.yolo0) (init "model.pt") in
  detect d "page.jpg" (1 # 2)
  = Ok [{| cls := 1; conf := 9 # 10; xyxy := (1, 2, 11, 22)%Q;
           xywh := (6, 12, 10, 20)%Q |}] ∧
  detect d "page.jpg" (19 # 20) = Ok [] ∧
  ∃ dets, detect d "page.jpg" (1 # 2) = Ok dets ∧
    Forall (λ det, (1 # 2 <= conf det)%Q) dets.
Proof.
  intros d. split; [reflexivity|]. split; [reflexivity|].
  destruct (detect_keeps_confident_boxes d Ex.yolo0 "page.jpg" (1 # 2) _
              eq_refl eq_refl eq_refl)
    as (dets & Hd & Hall & _).
  exists dets. split; [exact Hd|exact Hall].
Defined.

(** X19.  Once it is ready, [recognize] raises [ValueError] for an input
    that is none of path, string, array and PIL image, and for no other
    input; and a PIL image goes to the OCR model as it is, without a call
    of PIL. *)
Theorem recognize_rejects_unsupported_input pil e x :
  OCREngine.ready e = true →
  (OCREngine.recognize pil e x
   = Raise (ValueError "Unsupported type for OCR") ↔ x = OCREngine.InOther) ∧
  (∀ im ocr pil', x = OCREngine.InImage im → OCREngine._ocr e = Some ocr →
     OCREngine.recognize pil e x = OCREngine.from_library (ocr im) ∧
     OCREngine.recognize pil' e x = OCREngine.recognize pil e x).
Proof.
  intros Hready. unfold OCREngine.recognize. rewrite Hready. cbn. split.
  - split.
    + destruct x as [s|p|a|im|]; [| | | |done]; cbn;
        unfold mbind, result_bind;
        repeat match goal with
        | |- context [OCREngine.from_library ?r] => destruct r; cbn
        | |- context [OCREngine._ocr e] => destruct (OCREngine._ocr e); cbn
        end; done.
    + by intros ->.
  - intros im ocr pil' -> Hocr. cbn. by rewrite Hocr.
Qed.

Lemma recognize_rejects_unsupported_input_witness :
  let e := OCREngine._load (Some Ex.ocr0) OCREngine.init in
  OCREngine.recognize Ex.pil0 e OCREngine.InOther
  = Raise (ValueError "Unsupported type for OCR") ∧
  OCREngine.recognize Ex.pil0 e (OCREngine.InImage Ex.img0) = Ok "text".
Proof.
  intros e.
  destruct (recognize_rejects_unsupported_input Ex.pil0 e OCREngine.InOther
              eq_refl) as [[_ Hother] _].
  destruct (recognize_rejects_unsupported_input Ex.pil0 e
              (OCREngine.InImage Ex.img0) eq_refl) as [_ Himg].
  split; [by apply Hother|].
  destruct (Himg Ex.img0 Ex.ocr0 Ex.pil0 eq_refl eq_refl) as [-> _].
  reflexivity.
Defined.

End model_facts.

(* ====================================================================== *)
(** ** More on page navigation *)
(* ====================================================================== *)

Section navigation_theorems.
Import Navigation.

(** From a loaded page, [load_page] on any readable page of the listing
    shows that page at its position and keeps the listing. *)
Lemma load_sibling u s path p k :
  at_page s path →
  _dirty s && negb (discard_confirmed u) = false →
  let fs0 := AnnotationController.fs (annotations s) in
  AnnotationController.sidecar_dir path ∈ FS.dirs fs0 →
  pages s !! k = Some p →
  FS.files fs0 !! p = Some FS.ImageFile →
  ∃ s', load_page u p s = (Ok Loaded, s') ∧ at_page s' p ∧
        pages s' = pages s ∧ current_page_idx s' = Z.of_nat k ∧
        AnnotationController.fs (annotations s') = fs0 ∧
        _dirty s' = (if annotations_rebuilt u then false else _dirty s).
Proof.
  intros (Hcur & Hpages & H0 & Hidx) Hgate fs0 Hkara Hp Hfile. subst fs0.
  assert (p ∈ pages s) as Hin by (apply list_elem_of_lookup; eauto).
  rewrite Hpages, sorted_Permutation in Hin.
  apply glob_jpg_spec in Hin as (Hdir & _ & Hne & Hparent & Hjpg).
  assert (AnnotationController.sidecar_dir p
          = AnnotationController.sidecar_dir path) as Hside
    by (unfold AnnotationController.sidecar_dir; by rewrite Hparent).
  assert (FS.mkdir (AnnotationController.fs (annotations s))
            (AnnotationController.sidecar_dir p)
          = Ok (AnnotationController.fs (annotations s))) as Hmk.
  { rewrite Hside. unfold FS.mkdir. by destruct (decide _). }
  destruct (load_page_succeeds u p s
              (AnnotationController.fs (annotations s)) Hgate Hfile Hne)
    as (s' & Hload & Hfs & Hdirty); [by rewrite Hparent|done|done|].
  exists s'.
  destruct (load_page_loaded _ _ _ _ Hload)
    as (Hcur' & Hpages' & H0' & Hidx' & Hmin & _).
  rewrite Hfs, Hparent, <- Hpages in Hpages'.
  assert (NoDup (pages s)) as Hnd.
  { rewrite Hpages, sorted_Permutation. apply glob_jpg_NoDup. }
  rewrite Hpages' in Hidx'.
  pose proof (NoDup_lookup _ _ _ _ Hnd Hp Hidx').
  split_and!; [done| |done|lia|done|done].
  split_and!; [done| |done|by rewrite Hpages'].
  by rewrite Hpages', Hfs, Hparent.
Qed.

(** X20.  Going to the next page and back returns to the page: from a
    loaded page that is still a readable image and has a readable next
    sibling, [next_page] followed by [prev_page] shows the first page again,
    with the same listing and the same index. *)
Theorem next_then_prev_returns u s path p :
  at_page s path →
  _dirty s && negb (discard_confirmed u) = false →
  let fs0 := AnnotationController.fs (annotations s) in
  AnnotationController.sidecar_dir path ∈ FS.dirs fs0 →
  pages s !! Z.to_nat (current_page_idx s + 1) = Some p →
  FS.files fs0 !! p = Some FS.ImageFile →
  FS.files fs0 !! path = Some FS.ImageFile →
  ∃ s1 s2,
    next_page u s = (Ok tt, s1) ∧ at_page s1 p ∧
    current_page_idx s1 = current_page_idx s + 1 ∧
    prev_page u s1 = (Ok tt, s2) ∧ at_page s2 path ∧
    pages s2 = pages s ∧ current_page_idx s2 = current_page_idx s.
Proof.
  intros Hat Hgate fs0 Hkara Hp Hfile Hfile0. subst fs0.
  pose proof Hat as (Hcur & Hpages & H0 & Hidx).
  destruct (load_sibling u s path p _ Hat Hgate Hkara Hp Hfile)
    as (s1 & Hload1 & Hat1 & Hpages1 & Hidx1 & Hfs1 & Hdirty1).
  apply lookup_lt_Some in Hp as Hlt.
  assert (next_page u s = (Ok tt, s1)) as Hnext.
  { rewrite (next_page_unfold u s p); [|lia|apply getitem_nonneg; [lia|done]].
    by rewrite Hload1. }
  assert (_dirty s1 && negb (discard_confirmed u) = false) as Hgate1.
  { rewrite Hdirty1. destruct (annotations_rebuilt u); [done|].
    exact Hgate. }
  assert (AnnotationController.sidecar_dir p
          ∈ FS.dirs (AnnotationController.fs (annotations s1))) as Hkara1.
  { rewrite Hfs1.
    assert (p ∈ pages s) as Hin by (apply list_elem_of_lookup; eauto).
    rewrite Hpages, sorted_Permutation in Hin.
    apply glob_jpg_spec in Hin as (_ & _ & _ & Hparent & _).
    unfold AnnotationController.sidecar_dir in *. by rewrite Hparent. }
  assert (pages s1 !! Z.to_nat (current_page_idx s) = Some path) as Hback
    by (by rewrite Hpages1).
  destruct (load_sibling u s1 p path _ Hat1 Hgate1 Hkara1 Hback)
    as (s2 & Hload2 & Hat2 & Hpages2 & Hidx2 & _); [by rewrite Hfs1|].
  exists s1, s2. split_and!; [done|done|lia| |done|congruence|lia].
  rewrite (prev_page_unfold u s1 path); [by rewrite Hload2|lia|].
  apply getitem_nonneg; [lia|].
  by replace (current_page_idx s1 - 1) with (current_page_idx s) by lia.
Qed.

Lemma next_then_prev_returns_witness :
  ∃ s1 s2,
    next_page Ex.quiet Ex.at_p1 = (Ok tt, s1) ∧
    at_page s1 (Ex.page "p2.jpg") ∧ current_page_idx s1 = 1 ∧
    prev_page Ex.quiet s1 = (Ok tt, s2) ∧
    at_page s2 (Ex.page "p1.jpg") ∧ current_page_idx s2 = 0.
Proof.
  assert (at_page Ex.at_p1 (Ex.page "p1.jpg")) as Hat.
  { split_and!; [reflexivity|reflexivity|by vm_compute|reflexivity]. }
  destruct (next_then_prev_returns Ex.quiet Ex.at_p1 (Ex.page "p1.jpg")
              (Ex.page "p2.jpg") Hat eq_refl)
    as (s1 & s2 & H1 & H2 & H3 & H4 & H5 & _ & H7);
    [vm_compute; tauto|reflexivity..|].
  exists s1, s2. split_and!; [exact H1|exact H2|exact H3|exact H4|exact H5|].
  exact H7.
Defined.

(** X21.  Navigation that does not go through changes nothing: with
    unsaved changes and a user who declines, [load_page], [next_page] and
    [prev_page] leave every attribute, the file system and the emitted
    signals as they were; and so does [load_page] on a file that
    [cv2.imread] cannot read. *)
Theorem blocked_navigation_changes_nothing u s path :
  (_dirty s = true → discard_confirmed u = false →
     load_page u path s = (Ok Declined, s) ∧
     (next_page u s).2 = s ∧ (prev_page u s).2 = s) ∧
  (_dirty s && negb (discard_confirmed u) = false →
   FS.imread (AnnotationController.fs (annotations s)) path = None →
     load_page u path s = (Ok ImreadFailed, s)).
Proof.
  split.
  - intros Hd Hu.
    assert (∀ q, load_page u q s = (Ok Declined, s)) as Hload.
    { intros q. unfold load_page. unfold_monad. by rewrite Hd, Hu. }
    split_and!; [done| |].
    + unfold next_page. unfold_monad. destruct (decide _); [|done].
      destruct (getitem _ _) as [q|e]; [|done]. cbn. by rewrite Hload.
    + unfold prev_page. unfold_monad. destruct (decide _); [|done].
      destruct (getitem _ _) as [q|e]; [|done]. cbn. by rewrite Hload.
  - intros Hgate Hread. unfold load_page. unfold_monad.
    by rewrite Hgate, Hread.
Qed.

Lemma blocked_navigation_changes_nothing_witness :
  let s := set_dirty true Ex.at_p1 in
  let u := {| discard_confirmed := false; annotations_rebuilt := true |} in
  current_page_idx s = 0 ∧ length (pages s) = 3%nat ∧
  (next_page u s).2 = s ∧
  load_page Ex.quiet (Ex.page "notes.txt") Ex.at_p1
  = (Ok ImreadFailed, Ex.at_p1).
Proof.
  intros s u.
  destruct (blocked_navigation_changes_nothing u s (Ex.page "p2.jpg"))
    as [Hdeclined _].
  destruct (Hdeclined eq_refl eq_refl) as (_ & Hnext & _).
  destruct (blocked_navigation_changes_nothing Ex.quiet Ex.at_p1
              (Ex.page "notes.txt")) as [_ Hread].
  split_and!; [reflexivity|reflexivity|exact Hnext|].
  apply Hread; reflexivity.
Defined.

End navigation_theorems.

(* ====================================================================== *)
(** ** Opening a page from the project tree *)
(* ====================================================================== *)

Section tree_facts.
Import Navigation.

(** X22.  A click on a readable [.jpg] file in the project tree is
    [load_page] with the question "Discard annotations?" answered Yes:
    [on_tree_clicked] never looks at [_dirty], so unsaved changes are
    dropped without a question. *)
Theorem tree_click_never_asks u path s :
  TreeView.lower (TreeView.suffix path) = ".jpg" →
  FS.imread (AnnotationController.fs (annotations s)) path = Some tt →
  TreeView.on_tree_clicked u path s
  = discard (load_page (TreeView.confirming u) path s).
Proof.
  intros Hjpg Hread. unfold TreeView.on_tree_clicked, load_page, discard.
  destruct (decide _) as [_|]; [|done]. unfold_monad.
  rewrite andb_false_r, Hread. cbn.
  destruct (on_annotations _ _) as [[[]|e] s1]; [|done]. cbn.
  by destruct (index _ _).
Qed.

Lemma tree_click_never_asks_witness :
  let s := set_dirty true Ex.at_p1 in
  load_page Ex.quiet (Ex.page "p2.jpg") s = (Ok Declined, s) ∧
  ∃ s', TreeView.on_tree_clicked Ex.quiet (Ex.page "p2.jpg") s = (Ok tt, s') ∧
        cur_img_path s' = Some (Ex.page "p2.jpg") ∧
        current_page_idx s' = 1 ∧ _dirty s' = false.
Proof.
  intros s. split; [reflexivity|].
  pose proof (tree_click_never_asks Ex.quiet (Ex.page "p2.jpg") s
                eq_refl eq_refl) as Hclick.
  eexists. split; [rewrite Hclick; reflexivity|].
  split_and!; reflexivity.
Defined.

Lemma index_absent (l : list Path.t) (p : Path.t) :
  p ∉ l → index l p = Raise (ValueError "is not in list").
Proof.
  intros Hp. unfold index.
  destruct (list_find _ _) as [[i q]|] eqn:Hfind; [|done].
  apply list_find_Some in Hfind as (Hi & <- & _).
  destruct Hp. apply list_elem_of_lookup. eauto.
Qed.

(** X23.  A click on a file whose suffix is [.jpg] in other than lower
    case ([.JPG], [.Jpg], ...) ends in a [ValueError]: the file passes the
    suffix test, which ignores case, but is not in the listing
    [glob("*.jpg")], which does not.  By then the file has become the
    current image, its annotations have been loaded and emitted and [pages]
    has been replaced, while [current_page_idx] still belongs to the page
    shown before. *)
Theorem tree_click_fails_on_uppercase_suffix u path s fs1 :
  TreeView.lower (TreeView.suffix path) = ".jpg" →
  Path.is_jpg (Path.name path) = false →
  FS.mkdir (AnnotationController.fs (annotations s))
    (AnnotationController.sidecar_dir path) = Ok fs1 →
  ∃ s' l,
    TreeView.on_tree_clicked u path s
    = (Raise (ValueError "is not in list"), s') ∧
    cur_img_path s' = Some path ∧
    pages s' = sorted (FS.glob_jpg fs1 (Path.parent path)) ∧
    (path ∉ pages s') ∧
    current_page_idx s' = current_page_idx s ∧
    AnnotationController.emitted (annotations s')
    = AnnotationController.emitted (annotations s)
      ++ [AnnotationController.annotations_loaded path l].
Proof.
  intros Hjpg Hupper Hmk. unfold TreeView.on_tree_clicked.
  destruct (decide _) as [_|]; [|done]. unfold_monad. cbn.
  unfold on_annotations. cbn.
  destruct (load_emits_once path (annotations s) fs1 Hmk) as (l & -> & _).
  cbn.
  assert (path ∉ sorted (FS.glob_jpg fs1 (Path.parent path))) as Hout.
  { rewrite sorted_Permutation. intros Hin.
    apply glob_jpg_spec in Hin as (_ & _ & _ & _ & Hj).
    rewrite Hupper in Hj. done. }
  destruct (annotations_rebuilt u); cbn; rewrite (index_absent _ _ Hout);
    cbn; eexists _, l; split_and!; done.
Qed.

Lemma tree_click_fails_on_uppercase_suffix_witness :
  ∃ s' l,
    TreeView.on_tree_clicked Ex.quiet (Ex.page "P9.JPG") Ex.at_p1
    = (Raise (ValueError "is not in list"), s') ∧
    cur_img_path s' = Some (Ex.page "P9.JPG") ∧
    current_page_idx s' = 0 ∧
    AnnotationController.emitted (annotations s')
    = AnnotationController.emitted (annotations Ex.at_p1)
      ++ [AnnotationController.annotations_loaded (Ex.page "P9.JPG") l].
Proof.
  destruct (tree_click_fails_on_uppercase_suffix Ex.quiet (Ex.page "P9.JPG")
              Ex.at_p1 _ eq_refl eq_refl eq_refl)
    as (s' & l & Hrun & Hcur & _ & _ & Hidx & Hem).
  exists s', l. split_and!; [exact Hrun|exact Hcur| |exact Hem].
  rewrite Hidx. reflexivity.
Defined.

End tree_facts.

Section sidecar_facts.
Import AnnotationController.

(** X24.  The sidecar of an image is named after its folder and its stem
    only, so two images that differ in their suffix share one sidecar:
    what is saved for one of them replaces what was saved for the other,
    and [load] for the first image then emits the annotations of the
    second. *)
Theorem same_stem_shares_sidecar p q anns_p anns_q c fs1 :
  Path.parent p = Path.parent q → Path.stem p = Path.stem q →
  FS.mkdir (fs c) (sidecar_dir p) = Ok fs1 →
  sidecar p ∉ FS.dirs fs1 →
  sidecar p = sidecar q ∧
  ∃ c3,
    (save p anns_p;; save q anns_q;; load p) c = (Ok tt, c3) ∧
    emitted c3
    = emitted c ++
      [annotations_saved p; annotations_saved q;
       annotations_loaded p (AnnotationData.normalise <$> anns_q)].
Proof.
  intros Hparent Hstem Hmk Hfile.
  assert (sidecar_dir q = sidecar_dir p) as Hdirq
    by (unfold sidecar_dir; by rewrite Hparent).
  assert (sidecar q = sidecar p) as Hq
    by (unfold sidecar; by rewrite Hdirq, Hstem).
  split; [done|].
  destruct (mkdir_ok _ _ _ Hmk) as (Hdir & Hfiles & Hagain).
  unfold_monad.
  rewrite (save_writes _ anns_p _ _ Hmk Hfile).
  erewrite (save_writes q anns_q);
    [|rewrite Hdirq; by apply mkdir_again|by rewrite Hq].
  cbn [fs annotations emitted FS.set_files FS.files FS.dirs].
  rewrite Hq, insert_insert_eq.
  erewrite (load_saved p anns_q); [|done|by apply lookup_insert_eq].
  eexists. split; [done|]. cbn. by rewrite <- !app_assoc.
Qed.

Lemma same_stem_shares_sidecar_witness :
  let p := Ex.page "p1.jpg" in
  let q := Ex.page "p1.png" in
  sidecar p = Ex.chapter ++ [".kara"; "p1.json"] ∧ sidecar q = sidecar p ∧
  ∃ c3,
    (save p [Ex.ann0; Ex.ann0];; save q [Ex.ann0];; load p) (init Ex.fs0)
    = (Ok tt, c3) ∧
    emitted c3
    = [annotations_saved p; annotations_saved q;
       annotations_loaded p [Ex.ann0_loaded]].
Proof.
  intros p q. split; [reflexivity|].
  destruct (same_stem_shares_sidecar p q [Ex.ann0; Ex.ann0] [Ex.ann0]
              (init Ex.fs0) _ eq_refl eq_refl eq_refl)
    as (Hsame & c3 & Hrun & Hem).
  - vm_compute. intros H. discriminate H.
  - split; [by rewrite Hsame|]. exists c3. split; [exact Hrun|exact Hem].
Defined.

End sidecar_facts.

(* ====================================================================== *)
(** ** Detections become bubbles *)
(* ====================================================================== *)

Section detection_facts.
Import MainWindow Inv QUndoStack Session.

Lemma detected_rect_new r det w :
  wf w → r ∉ (_rect_list w).*2 →
  ∃ w', detected_rect r det w = (Ok tt, w') ∧ wf w' ∧
    _rect_list w' = _rect_list w ++ [(next_item w, r)] ∧
    scene_items w' = scene_items w ∪ {[ r ]} ∧
    rect_items w' = <[r := rect_of_detection det]> (rect_items w).
Proof.
  intros Hwf Hr.
  set (w0 := set_scene_items (scene_items w ∪ {[ r ]})
               (update_rect r (λ _, rect_of_detection det) w)).
  assert (wf w0) as Hwf0 by by apply (wf_same_registry w w0).
  destruct (add_bubble_new w0 r Hwf0 Hr)
    as (w' & Hrun & E1 & _ & E3 & _ & _ & E6 & _).
  destruct (wf_add_bubble (RectItem r) w0 Hwf0) as [Hwf' _].
  rewrite Hrun in Hwf'. exists w'. split_and!; [|done..].
  unfold detected_rect, scene_addItem. unfold_monad. cbn [fst snd].
  change (scene_items (update_rect r (λ _, rect_of_detection det) w))
    with (scene_items w). fold w0. by rewrite Hrun.
Qed.

Lemma apply_detections_effect dets w :
  wf w → NoDup dets.*1 →
  (∀ r, r ∈ dets.*1 → r ∉ (_rect_list w).*2) →
  ∃ w', _apply_detections dets w = (Ok tt, w') ∧ wf w' ∧
    (_rect_list w').*2 = (_rect_list w).*2 ++ dets.*1 ∧
    scene_items w' = scene_items w ∪ list_to_set dets.*1 ∧
    (∀ r det, (r, det) ∈ dets → rect_items w' r = rect_of_detection det) ∧
    (∀ r, r ∉ dets.*1 → rect_items w' r = rect_items w r).
Proof.
  revert w. induction dets as [|[r det] dets IH]; intros w Hwf Hnd Hnew.
  { exists w. cbn. rewrite app_nil_r, union_empty_r_L.
    split_and!; try done.
    intros r det Hin. by apply elem_of_nil in Hin. }
  cbn [fmap list_fmap fst] in Hnd, Hnew.
  apply NoDup_cons in Hnd as [Hr Hnd].
  destruct (detected_rect_new r det w Hwf) as (w1 & Hrun & Hwf1 & E1 & E2 & E3).
  { apply Hnew, elem_of_cons. by left. }
  destruct (IH w1 Hwf1 Hnd) as (w' & Hrest & Hwf' & F1 & F2 & F3 & F4).
  { intros r' Hr'. rewrite E1, fmap_app. cbn.
    intros [Hin| ->%list_elem_of_singleton]%elem_of_app; [|done].
    revert Hin. apply Hnew, elem_of_cons. by right. }
  exists w'. split_and!.
  - change (_apply_detections ((r, det) :: dets) w)
      with ((detected_rect r det;; _apply_detections dets) w).
    unfold_monad. by rewrite Hrun.
  - done.
  - rewrite F1, E1, fmap_app. cbn. by rewrite <- app_assoc.
  - rewrite F2, E2. cbn. by rewrite (assoc_L (∪)).
  - intros r' det' [Heq|Hin]%elem_of_cons.
    + injection Heq as -> ->. rewrite F4 by done. rewrite E3.
      by rewrite fn_lookup_insert.
    + by apply F3.
  - intros r' Hr'. cbn in Hr'. apply not_elem_of_cons in Hr' as [Hne Hr'].
    rewrite F4 by done. rewrite E3. by rewrite fn_lookup_insert_ne.
Qed.

(** X25.  [_apply_detections] turns the detections into bubbles one for
    one: in a session as in X1, with a new rectangle object for every
    detection, the call does not raise, the new rectangles are registered
    after the old ones in the order of the detections, the lists stay
    consistent, every new rectangle is in the scene, and a detection of
    class 0 has become a ["bubble"], any other a ["free-text"], placed at
    the top left corner of the box with the width and height of the
    box. *)
Theorem detections_become_bubbles heap acts dets :
  new_rects acts (Session.init heap) = true →
  let s := run acts (Session.init heap) in
  bool_decide (NoDup dets.*1) = true →
  forallb (λ r, bool_decide (r ∉ (_rect_list (main s)).*2)) dets.*1 = true →
  ∃ w', _apply_detections dets (main s) = (Ok tt, w') ∧
    (_rect_list w').*2 = (_rect_list (main s)).*2 ++ dets.*1 ∧
    Registry.consistent w' ∧
    ∀ r det, (r, det) ∈ dets →
      r ∈ scene_items w' ∧
      MoveableRectItem.kind (rect_items w' r)
      = (if decide (SpeechBubbleDetector.cls det = 0) then "bubble"
         else "free-text") ∧
      MoveableRectItem.pos (rect_items w' r)
      = {| Qt.px := (SpeechBubbleDetector.xyxy det).1.1.1;
           Qt.py := (SpeechBubbleDetector.xyxy det).1.1.2 |} ∧
      MoveableRectItem.rect (rect_items w' r)
      = {| Qt.x := 0; Qt.y := 0;
           Qt.width := (SpeechBubbleDetector.xywh det).1.2;
           Qt.height := (SpeechBubbleDetector.xywh det).2 |}.
Proof.
  intros Hnew s Hnd Hfresh.
  assert (ok s) as Hok by (by apply ok_run; [apply ok_init|]).
  apply bool_decide_eq_true in Hnd.
  destruct (apply_detections_effect dets (main s) (ok_wf _ Hok) Hnd)
    as (w' & Hrun & Hwf & E1 & E2 & E3 & _).
  { intros r Hr. rewrite forallb_forall in Hfresh.
    apply list_elem_of_In, Hfresh in Hr. by apply bool_decide_eq_true in Hr. }
  exists w'. split_and!; [done|done|by apply wf_consistent|].
  intros r det Hin. rewrite (E3 r det Hin). split.
  - rewrite E2. apply elem_of_union. right. apply elem_of_list_to_set.
    apply list_elem_of_fmap. by exists (r, det).
  - unfold rect_of_detection.
    destruct (SpeechBubbleDetector.xyxy det) as [[[x0 y0] x1] y1].
    destruct (SpeechBubbleDetector.xywh det) as [[[cx cy] width] height].
    done.
Qed.

Lemma detections_become_bubbles_witness :
  let s := run Demo.three_bubbles (Session.init Ex.heap0) in
  let det0 := {| SpeechBubbleDetector.cls := 0;
                 SpeechBubbleDetector.conf := 1 # 2;
                 SpeechBubbleDetector.xyxy := (30, 40, 50, 80)%Q;
                 SpeechBubbleDetector.xywh := (40, 60, 20, 40)%Q |} in
  ∃ w', _apply_detections [(7%nat, Demo.detection); (8%nat, det0)] (main s)
        = (Ok tt, w') ∧
    (_rect_list w').*2 = [1%nat; 2%nat; 3%nat; 7%nat; 8%nat] ∧
    MoveableRectItem.kind (rect_items w' 7%nat) = "free-text" ∧
    MoveableRectItem.kind (rect_items w' 8%nat) = "bubble".
Proof.
  intros s det0.
  destruct (detections_become_bubbles Ex.heap0 Demo.three_bubbles
              [(7%nat, Demo.detection); (8%nat, det0)]
              eq_refl eq_refl eq_refl) as (w' & Hrun & Hrects & _ & Hkind).
  exists w'. split_and!; [exact Hrun|exact Hrects| |].
  - destruct (Hkind 7%nat Demo.detection) as (_ & -> & _); [|reflexivity].
    apply list_elem_of_here.
  - destruct (Hkind 8%nat det0) as (_ & -> & _); [|reflexivity].
    apply list_elem_of_further, list_elem_of_here.
Defined.

End detection_facts.

(* ====================================================================== *)
(** ** Undo after "Delete all" *)
(* ====================================================================== *)

Section undo_after_clear.
Import MainWindow Inv QUndoStack Session.

(** X26.  [clear_bubbles] leaves the undo stack alone, so a bubble deleted
    before comes back after it: in a session as in X1, when the selected
    bubble is deleted, everything is cleared ("Delete all", or the
    [clear_bubbles] of a page change) and the user then undoes, the
    deleted rectangle and its list item are the only entry of both lists
    and the rectangle is in the scene again. *)
Theorem undo_after_clear_restores_deleted heap acts li :
  new_rects acts (Session.init heap) = true →
  let s := run acts (Session.init heap) in
  bool_decide (li ∈ (_rect_list (main s)).*1) = true →
  let s' := step UndoAction
              (on_window clear_bubbles (step (DeleteSelected (Some li)) s)) in
  ∃ r, (li, r) ∈ _rect_list (main s) ∧
    _rect_list (main (on_window clear_bubbles
                        (step (DeleteSelected (Some li)) s))) = [] ∧
    _rect_list (main s') = [(li, r)] ∧
    Qt.rows (bubble_list (main s')) = [li] ∧
    r ∈ scene_items (main s').
Proof.
  intros Hnew s Hli.
  assert (ok s) as Hok by (by apply ok_run; [apply ok_init|]).
  clearbody s. clear Hnew.
  pose proof (ok_wf _ Hok) as Hwf. pose proof (ok_rects _ Hok) as Hnd.
  pose proof (ok_index _ Hok) as Hi. unfold count in Hi.
  apply bool_decide_eq_true in Hli.
  destruct (selected_pair (main s) li Hwf Hnd Hli)
    as (k & r & Hfind & Hrow & Hitem).
  cbv zeta. cbn [step]. unfold delete_selected_bubble. rewrite Hfind.
  unfold on_window. rewrite push_unfold, call_redo_remove.
  cbn [fst snd main undo_ctrl].
  set (d := RemoveBubbleCommand.init (main s) r "Delete Bubble") in *.
  change (RemoveBubbleCommand._rect_item d) with r.
  apply list_find_Some in Hfind as (Hk & _ & _).
  assert ((li, r) ∈ _rect_list (main s)) as Hpair
    by (apply list_elem_of_lookup; eauto).
  assert (r ∈ (_rect_list (main s)).*2) as Hin.
  { apply list_elem_of_fmap. by exists (li, r). }
  destruct (remove_bubble_for_present (main s) r Hwf Hin)
    as (k' & li' & w1 & Hk' & _ & Hrun & E1 & E2 & _).
  assert (k' = k) as ->.
  { assert ((_rect_list (main s)).*2 !! k = Some r) as H1
      by (by rewrite list_lookup_fmap, Hk).
    assert ((_rect_list (main s)).*2 !! k' = Some r) as H2
      by (by rewrite list_lookup_fmap, Hk').
    by pose proof (NoDup_lookup _ _ _ _ Hnd H2 H1). }
  rewrite Hrun. cbn [fst snd].
  destruct (mark_dirty_registry w1) as (M1 & M2 & _).
  set (w2 := (_mark_dirty w1).2) in *. clearbody w2.
  set (w3 := (clear_bubbles w2).2).
  rewrite undo_after_push by done. rewrite call_undo_remove.
  cbn [fst snd main undo_ctrl index command_list].
  assert (Qt.rows (bubble_list (main s)) !! k = Some li) as Hrowk
    by (by rewrite <- (wf_rows _ Hwf), list_lookup_fmap, Hk).
  assert (li ∉ Qt.rows (bubble_list w2)) as Hout.
  { rewrite M2, E2. cbn.
    by apply NoDup_delete_not_elem_of; [apply (wf_nodup _ Hwf)|]. }
  destruct (undo_effect d w3 k li Hrow Hitem) as (w4 & Hrun4 & F1 & F2 & F3 & _).
  { subst w3. cbn. apply not_elem_of_nil. }
  { subst w3. cbn. apply not_elem_of_union. split.
    - rewrite M2, E2. cbn. apply (wf_alive _ Hwf), list_elem_of_lookup. eauto.
    - by rewrite elem_of_list_to_set. }
  rewrite Hrun4. cbn [fst snd]. exists r.
  split_and!; [done|done|rewrite F1|rewrite F2|].
  - subst w3. unfold insert_at. cbn. by rewrite take_nil, drop_nil.
  - subst w3. unfold insert_at. cbn. by rewrite take_nil, drop_nil.
  - rewrite F3. apply elem_of_union. right. by apply elem_of_singleton.
Qed.

Lemma undo_after_clear_restores_deleted_witness :
  let s := run Demo.three_bubbles (Session.init Ex.heap0) in
  let s' := step UndoAction
              (on_window clear_bubbles
                 (step (DeleteSelected (Some 1%nat)) s)) in
  _rect_list (main s) = [(0%nat, 1%nat); (1%nat, 2%nat); (2%nat, 3%nat)] ∧
  _rect_list (main s') = [(1%nat, 2%nat)] ∧
  ∃ r, _rect_list (main s') = [(1%nat, r)] ∧
       Qt.rows (bubble_list (main s')) = [1%nat] ∧
       r ∈ scene_items (main s').
Proof.
  split; [reflexivity|]. split; [reflexivity|].
  destruct (undo_after_clear_restores_deleted Ex.heap0 Demo.three_bubbles
              1%nat eq_refl eq_refl) as (r & _ & _ & H1 & H2 & H3).
  exists r. split_and!; [exact H1|exact H2|exact H3].
Defined.

End undo_after_clear.
